(** * scull: the sparse two-level byte store of [scull/scull.c]

    A shallow embedding of the storage engine of the scull character
    device ([scull_trim], [scull_follow], [scull_read], [scull_write]) and
    the properties of its natural-language specification, followed by
    further properties of these functions, of [scull_open] and of the
    loading and unloading of the module ([scull_init_module],
    [scull_setup_cdev], [scull_cleanup_module]).

    Conventions of the embedding.

    - C integers are mathematical integers ([Z]) on which every conversion
      the C code performs is written out: [to_int] for values stored in an
      [int], [to_long] for [long], [loff_t] and [ssize_t], [to_ulong] for
      [size_t] and [unsigned long], [to_uint] for the trip count of
      [while (n--)].  The target is the LP64 kernel ABI (32-bit [int],
      64-bit [long]); signed arithmetic wraps, as the kernel is compiled.
    - A trap (division by zero, quotient overflow) and an access outside a
      [kmalloc]ed block have no defined result: the operation yields [None].
    - The chain of [struct scull_qset] is an owned, NULL-terminated, singly
      linked list: it is the Rocq list of its nodes, [dev->data == NULL]
      being the empty list and a node pointer an index into the list.
    - [kmalloc] is an oracle: its k-th call either returns NULL or a block
      holding arbitrary bytes.  The number of calls made so far is threaded
      through the operations.
    - User memory is seen through [copy_from_user] and [copy_to_user]: a
      source buffer is the list of bytes readable at the user address, a
      destination is the number of bytes writable there.
    - The kernel calls of the module functions are recorded in the order
      they are made; what the kernel answers is a parameter. *)

From Stdlib Require Import ZArith Lia Init.Byte.
From stdpp Require Import base option list.

Local Open Scope Z_scope.

(** ** C integer types *)

Module CInt.

Definition INT_MAX : Z := 2147483647.
Definition INT_MIN : Z := - 2147483648.
Definition LONG_MAX : Z := 9223372036854775807.
Definition LONG_MIN : Z := - 9223372036854775808.
Definition ULONG_MAX : Z := 18446744073709551615.

(** Conversion to a signed type of [w] bits (two's complement). *)
Definition wrap_signed (w : Z) (x : Z) : Z :=
  (x + 2 ^ (w - 1)) mod 2 ^ w - 2 ^ (w - 1).

Definition to_int (x : Z) : Z := wrap_signed 32 x.
Definition to_long (x : Z) : Z := wrap_signed 64 x.
Definition to_uint (x : Z) : Z := x mod 2 ^ 32.
Definition to_ulong (x : Z) : Z := x mod 2 ^ 64.

(** Values a [loff_t] holds when the VFS hands it to a driver: file
    positions are never negative. *)
Definition is_file_pos (p : Z) : Prop := 0 <= p <= LONG_MAX.
(** Values of type [size_t]. *)
Definition is_size_t (n : Z) : Prop := 0 <= n <= ULONG_MAX.

(** [a / b] and [a % b] on operands of a signed type whose least value
    is [lo]: truncation towards zero; the division instruction traps on a
    zero divisor and on [lo / -1]. *)
Definition traps (lo a b : Z) : bool :=
  (b =? 0) || ((a =? lo) && (b =? -1)).
Definition c_div (lo a b : Z) : option Z :=
  if traps lo a b then None else Some (Z.quot a b).
Definition c_rem (lo a b : Z) : option Z :=
  if traps lo a b then None else Some (Z.rem a b).

End CInt.
Import CInt.

(** Error numbers of [<linux/errno.h>]. *)
Definition ENOMEM : Z := 12.
Definition EFAULT : Z := 14.
Definition ERESTARTSYS : Z := 512.

(** ** Data model *)

(** One quantum: a [kmalloc]ed block of [quantum] bytes. *)
Abbreviation quantum_buf := (list byte) (only parsing).

(** Modelled from the spec: [struct scull_qset] is declared in [scull.h],
    which is not part of the sources.  A node holds [data], either NULL or
    an array of slots, each slot NULL or owning one quantum; its [next]
    link is the tail of the list the node sits in. *)
Record scull_qset : Type := ScullQset {
  qs_data : option (list (option quantum_buf))
}.

(** Modelled from the spec: [struct scull_dev] is declared in [scull.h],
    which is not part of the sources.  [quantum] and [qset] are [int]s (the
    code copies them into [int] locals), [size] is the [unsigned long] byte
    count, [data] the head of the chain.  The semaphore and the [cdev]
    carry no data of the store. *)
Record scull_dev : Type := ScullDev {
  dev_data : list scull_qset;
  dev_quantum : Z;
  dev_qset : Z;
  dev_size : Z
}.

Definition set_chain (dev : scull_dev) (chain : list scull_qset) : scull_dev :=
  {| dev_data := chain; dev_quantum := dev_quantum dev;
     dev_qset := dev_qset dev; dev_size := dev_size dev |}.

Definition set_size (dev : scull_dev) (size : Z) : scull_dev :=
  {| dev_data := dev_data dev; dev_quantum := dev_quantum dev;
     dev_qset := dev_qset dev; dev_size := size |}.

(** A device as [scull_init_module] leaves it: zeroed by [memset], then
    given the load-time parameters [scull_quantum] and [scull_qset]. *)
Definition scull_init_dev (scull_quantum scull_qset : Z) : scull_dev :=
  {| dev_data := []; dev_quantum := scull_quantum;
     dev_qset := scull_qset; dev_size := 0 |}.

(** [a[i]] for a C index [i]: defined inside the array only. *)
Definition zlookup {A : Type} (l : list A) (i : Z) : option A :=
  if i <? 0 then None else l !! Z.to_nat i.

(** The quantum stored for node [i], slot [j], if there is one. *)
Definition get_quantum (chain : list scull_qset) (i : nat) (j : Z)
  : option quantum_buf :=
  qs ← chain !! i; arr ← qs_data qs; slot ← zlookup arr j; slot.

(** The byte the store holds for node [i], slot [j], offset [k]. *)
Definition get_byte (chain : list scull_qset) (i : nat) (j k : Z) : option byte :=
  b ← get_quantum chain i j; zlookup b k.

(** ** The allocator *)

Record kmalloc_oracle : Type := KmallocOracle {
  km_null : nat -> bool;        (* the k-th call returns NULL *)
  km_junk : nat -> nat -> byte  (* initial byte i of the k-th block *)
}.

(** [kmalloc(size, GFP_KERNEL)], call number [h]: NULL, or the initial
    contents of the block, and the number of calls made. *)
Definition kmalloc (K : kmalloc_oracle) (h : nat) : option (nat -> byte) * nat :=
  if km_null K h then (None, S h) else (Some (km_junk K h), S h).

(** A node after [memset(qs, 0, sizeof(struct scull_qset))]. *)
Definition blank_qset : scull_qset := {| qs_data := None |}.

(** An array of [qset] pointers after [memset(.., 0, qset * sizeof(char * ))]. *)
Definition blank_slots (qset : Z) : list (option quantum_buf) :=
  replicate (Z.to_nat qset) None.

(** A fresh quantum: [quantum] bytes, not initialised. *)
Definition fresh_quantum (junk : nat -> byte) (quantum : Z) : quantum_buf :=
  junk <$> seq 0 (Z.to_nat quantum).

(** ** scull_trim *)

(** [for (i = 0; i < qset; i++) kfree(dptr->data[i]);] counting the blocks
    released ([kfree(NULL)] releases nothing). *)
Fixpoint kfree_slots (arr : list (option quantum_buf)) (i : nat) (todo : nat)
  : option nat :=
  match todo with
  | O => Some O
  | S todo' =>
      slot ← arr !! i;
      n ← kfree_slots arr (S i) todo';
      Some ((if slot is Some _ then 1 else 0) + n)%nat
  end.

(** The loop over the list items: the blocks released for one node are its
    quanta, its slot array and the node itself. *)
Fixpoint trim_chain (qset : Z) (chain : list scull_qset) : option nat :=
  match chain with
  | [] => Some O
  | dptr :: next =>
      a ← match qs_data dptr with
           | None => Some O
           | Some arr => n ← kfree_slots arr 0 (Z.to_nat qset); Some (S n)
           end;
      b ← trim_chain qset next;
      Some (a + 1 + b)%nat
  end.

(** [scull_trim] (lines 38 to 59): the number of blocks handed to [kfree]
    and the device after the call; the C function always returns 0.  [SCULL_QUANTUM] and [SCULL_QSET] are macros of
    [scull.h]; they are parameters here. *)
Definition scull_trim (SCULL_QUANTUM SCULL_QSET : Z) (dev : scull_dev)
  : option (nat * scull_dev) :=
  freed ← trim_chain (dev_qset dev) (dev_data dev);
  Some (freed, {| dev_data := []; dev_quantum := SCULL_QUANTUM;
                  dev_qset := SCULL_QSET; dev_size := 0 |}).

(** ** scull_follow *)

(** The loop [while (n--)]: [qs] is the index of the current node, which is
    the last one exactly when it has no [next]. *)
Fixpoint follow_loop (K : kmalloc_oracle) (n : nat) (qs : nat)
    (chain : list scull_qset) (h : nat) : option nat * list scull_qset * nat :=
  match n with
  | O => (Some qs, chain, h)
  | S n' =>
      if decide (S qs < length chain)%nat
      then follow_loop K n' (S qs) chain h
      else match kmalloc K h with
           | (None, h') => (None, chain, h')
           | (Some _, h') => follow_loop K n' (S qs) (chain ++ [blank_qset]) h'
           end
  end.

(** [scull_follow(dev, n)] (lines 64 to 88): the index of the node reached
    (NULL is [None]), the chain and the allocation count afterwards. *)
Definition scull_follow (K : kmalloc_oracle) (dev : scull_dev) (n : Z) (h : nat)
  : option nat * list scull_qset * nat :=
  match dev_data dev with
  | [] =>
      match kmalloc K h with
      | (None, h') => (None, [], h')
      | (Some _, h') => follow_loop K (Z.to_nat (to_uint n)) 0 [blank_qset] h'
      end
  | chain => follow_loop K (Z.to_nat (to_uint n)) 0 chain h
  end.

(** ** User memory *)

(** [copy_from_user(dst + off, from, n)]: [from] lists the bytes readable
    at the user address.  What cannot be read is padded with zero bytes in
    the destination; the result is the new contents of the block [dst] and
    the number of bytes that could not be copied.  No result when the
    destination range leaves the block. *)
Definition copy_from_user (dst : quantum_buf) (off : Z) (from : list byte) (n : Z)
  : option (quantum_buf * Z) :=
  if (off <? 0) || (n <? 0) || (Z.of_nat (length dst) <? off + n) then None
  else
    let got := take (Z.to_nat n) from in
    let pad := replicate (Z.to_nat n - length got) x00 in
    Some (take (Z.to_nat off) dst ++ got ++ pad ++ drop (Z.to_nat (off + n)) dst,
          n - Z.of_nat (length got)).

(** [copy_to_user(buf, src + off, n)]: [cap] bytes are writable at the user
    address.  The result is the bytes handed over and the number of bytes
    that could not be copied; after a fault the caller is told of no byte.
    No result when the source range leaves the block. *)
Definition copy_to_user (cap : Z) (src : quantum_buf) (off : Z) (n : Z)
  : option (list byte * Z) :=
  if (off <? 0) || (n <? 0) || (Z.of_nat (length src) <? off + n) then None
  else if n <=? Z.max 0 cap
       then Some (take (Z.to_nat n) (drop (Z.to_nat off) src), 0)
       else Some ([], n - Z.max 0 cap).

(** ** The file operations *)

(** What a call leaves behind. *)
Record call : Type := Call {
  retval : Z;             (* the [ssize_t] returned *)
  pos_after : Z;          (* [*f_pos] *)
  dev_after : scull_dev;  (* the device *)
  heap_after : nat;       (* number of [kmalloc] calls made so far *)
  out : list byte         (* the bytes handed over by [copy_to_user] *)
}.

(** The locals [item], [s_pos] and [q_pos] of [scull_read] and
    [scull_write] ([rest] is used on the way), computed in [int] from the
    position and the two [int] fields of the device. *)
Definition translate (f_pos quantum qset : Z) : option (Z * Z * Z) :=
  let itemsize := to_int (quantum * qset) in
  item ← to_int <$> c_div LONG_MIN (to_long f_pos) itemsize;
  rest ← to_int <$> c_rem LONG_MIN (to_long f_pos) itemsize;
  s_pos ← to_int <$> c_div INT_MIN rest quantum;
  q_pos ← to_int <$> c_rem INT_MIN rest quantum;
  Some (item, s_pos, q_pos).

(** The node [scull_follow(dev, item)] walks to: [while (n--)] runs
    [(unsigned) n] times. *)
Definition node_index (item : Z) : nat := Z.to_nat (to_uint item).

(** [if (count > quantum - q_pos) count = quantum - q_pos;] with [count] a
    [size_t] and the difference an [int]. *)
Definition clamp_to_quantum (count quantum q_pos : Z) : Z :=
  let room := to_ulong (to_int (quantum - q_pos)) in
  if count >? room then room else count.

(** Where [scull_read] stands when it reaches [copy_to_user]: it has left
    through [out] (or returned) with a value, or it is about to copy [count]
    bytes from offset [q_pos] of the quantum [q]. *)
Inductive read_stage : Type :=
  | RLeave (retval : Z) (dev : scull_dev) (h : nat)
  | RCopy (q : quantum_buf) (q_pos count : Z) (dev : scull_dev) (h : nat).

(** [scull_read], lines 110 to 136.  [intr] tells whether
    [down_interruptible] was interrupted, [h] how many [kmalloc] calls were
    made before. *)
Definition read_upto_copy (K : kmalloc_oracle) (intr : bool) (dev : scull_dev)
    (count : Z) (f_pos : Z) (h : nat) : option read_stage :=
  let quantum := dev_quantum dev in
  if intr then Some (RLeave (- ERESTARTSYS) dev h) else
  if to_ulong f_pos >=? dev_size dev then Some (RLeave 0 dev h) else
  let count :=
    if to_ulong (f_pos + count) >? dev_size dev
    then to_ulong (dev_size dev - f_pos) else count in
  '(item, s_pos, q_pos) ← translate f_pos quantum (dev_qset dev);
  let '(dptr, chain, h) := scull_follow K dev item h in
  let dev := set_chain dev chain in
  match dptr with
  | None => Some (RLeave 0 dev h)
  | Some i =>
      qs ← chain !! i;
      match qs_data qs with
      | None => Some (RLeave 0 dev h)
      | Some arr =>
          slot ← zlookup arr s_pos;
          match slot with
          | None => Some (RLeave 0 dev h)
          | Some q =>
              Some (RCopy q q_pos (clamp_to_quantum count quantum q_pos) dev h)
          end
      end
  end.

Definition rs_dev (st : read_stage) : scull_dev :=
  match st with RLeave _ d _ => d | RCopy _ _ _ d _ => d end.
Definition rs_heap (st : read_stage) : nat :=
  match st with RLeave _ _ h => h | RCopy _ _ _ _ h => h end.

(** [scull_read(filp, buf, count, f_pos)], with its lines 138 to 148; [cap]
    is the number of bytes that can be stored at [buf]. *)
Definition scull_read (K : kmalloc_oracle) (intr : bool) (dev : scull_dev)
    (cap : Z) (count : Z) (f_pos : Z) (h : nat) : option call :=
  stage ← read_upto_copy K intr dev count f_pos h;
  match stage with
  | RLeave retval dev h => Some (Call retval f_pos dev h [])
  | RCopy q q_pos count dev h =>
      '(data, missed) ← copy_to_user cap q q_pos count;
      if missed =? 0
      then Some (Call (to_long count) (to_long (f_pos + count)) dev h data)
      else Some (Call (- EFAULT) f_pos dev h [])
  end.

(** [dptr->data = a] for the node of index [i]. *)
Definition set_slots (chain : list scull_qset) (i : nat)
    (a : list (option quantum_buf)) : list scull_qset :=
  <[i := {| qs_data := Some a |}]> chain.

(** Where [scull_write] stands when it reaches [copy_from_user]: it has left
    with a value, or node [i] has the slot array [arr] whose slot [s_pos]
    holds the quantum [q], and [count] bytes go to offset [q_pos] of [q]. *)
Inductive write_stage : Type :=
  | WLeave (retval : Z) (dev : scull_dev) (h : nat)
  | WCopy (i : nat) (arr : list (option quantum_buf)) (s_pos : Z)
          (q : quantum_buf) (q_pos count : Z) (dev : scull_dev) (h : nat).

(** [scull_write], lines 155 to 184. *)
Definition write_upto_copy (K : kmalloc_oracle) (intr : bool) (dev : scull_dev)
    (count : Z) (f_pos : Z) (h : nat) : option write_stage :=
  let quantum := dev_quantum dev in
  let qset := dev_qset dev in
  if intr then Some (WLeave (- ERESTARTSYS) dev h) else
  '(item, s_pos, q_pos) ← translate f_pos quantum qset;
  let '(dptr, chain, h) := scull_follow K dev item h in
  let dev := set_chain dev chain in
  match dptr with
  | None => Some (WLeave (- ENOMEM) dev h)
  | Some i =>
      qs ← chain !! i;
      (* if (!dptr->data): allocate the array of pointers *)
      let '(data, h) :=
        match qs_data qs with
        | Some arr => (Some arr, h)
        | None =>
            match kmalloc K h with
            | (None, h') => (None, h')
            | (Some _, h') => (Some (blank_slots qset), h')
            end
        end in
      match data with
      | None => Some (WLeave (- ENOMEM) dev h)
      | Some arr =>
          let dev := set_chain dev (set_slots chain i arr) in
          slot ← zlookup arr s_pos;
          (* if (!dptr->data[s_pos]): allocate the quantum *)
          let '(quant, h) :=
            match slot with
            | Some q => (Some q, h)
            | None =>
                match kmalloc K h with
                | (None, h') => (None, h')
                | (Some junk, h') => (Some (fresh_quantum junk quantum), h')
                end
            end in
          match quant with
          | None => Some (WLeave (- ENOMEM) dev h)
          | Some q =>
              Some (WCopy i arr s_pos q q_pos
                      (clamp_to_quantum count quantum q_pos) dev h)
          end
      end
  end.

Definition ws_dev (st : write_stage) : scull_dev :=
  match st with WLeave _ d _ => d | WCopy _ _ _ _ _ _ d _ => d end.
Definition ws_heap (st : write_stage) : nat :=
  match st with WLeave _ _ h => h | WCopy _ _ _ _ _ _ _ h => h end.

(** [scull_write(filp, buf, count, f_pos)], with its lines 186 to 200;
    [buf] lists the bytes readable at the user address. *)
Definition scull_write (K : kmalloc_oracle) (intr : bool) (dev : scull_dev)
    (buf : list byte) (count : Z) (f_pos : Z) (h : nat) : option call :=
  stage ← write_upto_copy K intr dev count f_pos h;
  match stage with
  | WLeave retval dev h => Some (Call retval f_pos dev h [])
  | WCopy i arr s_pos q q_pos count dev h =>
      '(q', missed) ← copy_from_user q q_pos buf count;
      let arr' := <[Z.to_nat s_pos := Some q']> arr in
      let dev := set_chain dev (set_slots (dev_data dev) i arr') in
      if missed =? 0
      then
        let f_pos' := to_long (f_pos + count) in
        let dev :=
          if dev_size dev <? to_ulong f_pos'
          then set_size dev (to_ulong f_pos') else dev in
        Some (Call (to_long count) f_pos' dev h [])
      else Some (Call (- EFAULT) f_pos dev h [])
  end.

(** [scull_open] (lines 92 to 104): the device is trimmed when the file is
    opened write-only. *)
Definition scull_open (SCULL_QUANTUM SCULL_QSET : Z) (wronly : bool)
    (dev : scull_dev) : option scull_dev :=
  if wronly then snd <$> scull_trim SCULL_QUANTUM SCULL_QSET dev else Some dev.

(** ** Well-formed stores *)

(** A geometry the [int] arithmetic of the driver can address. *)
Definition good_geometry (quantum qset : Z) : Prop :=
  0 < quantum /\ 0 < qset /\ quantum * qset <= INT_MAX.

Definition slot_ok (quantum : Z) (slot : option quantum_buf) : Prop :=
  match slot with
  | None => True
  | Some q => Z.of_nat (length q) = quantum
  end.

Definition qset_ok (quantum qset : Z) (qs : scull_qset) : Prop :=
  match qs_data qs with
  | None => True
  | Some arr => Z.of_nat (length arr) = qset /\ Forall (slot_ok quantum) arr
  end.

(** Every slot array has [qset] entries and every quantum [quantum] bytes:
    the sizes they were allocated with. *)
Definition wf_chain (quantum qset : Z) (chain : list scull_qset) : Prop :=
  Forall (qset_ok quantum qset) chain.

Definition wf_dev (dev : scull_dev) : Prop :=
  good_geometry (dev_quantum dev) (dev_qset dev)
  /\ is_size_t (dev_size dev)
  /\ wf_chain (dev_quantum dev) (dev_qset dev) (dev_data dev).

(** A hole: node [i] is not on the chain, or it has no slot array, or its
    slot [j] has no quantum. *)
Definition hole (chain : list scull_qset) (i : nat) (j : Z) : Prop :=
  match chain !! i with
  | None => True
  | Some qs =>
      match qs_data qs with
      | None => True
      | Some arr => zlookup arr j = Some None
      end
  end.

(** The byte the store holds for the offset [p], if it holds one: the
    coordinates are those [scull_read] and [scull_write] compute. *)
Definition byte_at (dev : scull_dev) (p : Z) : option byte :=
  '(item, s_pos, q_pos) ← translate p (dev_quantum dev) (dev_qset dev);
  get_byte (dev_data dev) (node_index item) s_pos q_pos.

(** The coordinates of the offset [p] as mathematical quotients and
    remainders, and the offsets whose node index fits an [int]. *)
Definition node_of (quantum qset p : Z) : nat := Z.to_nat (p / (quantum * qset)).
Definition slot_of (quantum qset p : Z) : Z := (p mod (quantum * qset)) / quantum.
Definition intra_of (quantum qset p : Z) : Z := (p mod (quantum * qset)) mod quantum.
Definition offset_limit (quantum qset : Z) : Z := (INT_MAX + 1) * (quantum * qset).

(** The blocks a chain owns: nodes, slot arrays and quanta. *)
Definition blocks_of_slots (arr : list (option quantum_buf)) : nat :=
  length (filter is_Some arr).

Definition blocks_of_qset (qs : scull_qset) : nat :=
  match qs_data qs with
  | None => 1
  | Some arr => 2 + blocks_of_slots arr
  end.

Definition blocks (chain : list scull_qset) : nat :=
  sum_list (blocks_of_qset <$> chain).

(** ** Callers *)

(** An allocator that never fails, whatever the blocks hold. *)
Definition kmalloc_succeeds (K : kmalloc_oracle) : Prop :=
  forall k, km_null K k = false.

Definition plentiful (junk : nat -> nat -> byte) : kmalloc_oracle :=
  {| km_null := fun _ => false; km_junk := junk |}.

(** The caller's loop around [write]: offer what is left of [buf] at the
    current position until all of it is accepted; an error ends the loop.
    The result is the device, the position and the allocation count. *)
Fixpoint write_all (K : kmalloc_oracle) (fuel : nat) (dev : scull_dev)
    (buf : list byte) (f_pos : Z) (h : nat) : option (scull_dev * Z * nat) :=
  match buf with
  | [] => Some (dev, f_pos, h)
  | _ :: _ =>
      match fuel with
      | O => None
      | S fuel' =>
          r ← scull_write K false dev buf (Z.of_nat (length buf)) f_pos h;
          if retval r <? 0 then None
          else write_all K fuel' (dev_after r) (drop (Z.to_nat (retval r)) buf)
                         (pos_after r) (heap_after r)
      end
  end.

(** The caller's loop around [read]: ask for what is still wanted until
    [want] bytes have come back; an error ends the loop. *)
Fixpoint read_all (K : kmalloc_oracle) (fuel : nat) (dev : scull_dev)
    (want : Z) (f_pos : Z) (h : nat) : option (list byte) :=
  if want <=? 0 then Some []
  else
    match fuel with
    | O => None
    | S fuel' =>
        r ← scull_read K false dev want want f_pos h;
        if retval r <? 0 then None
        else
          more ← read_all K fuel' (dev_after r) (want - retval r)
                          (pos_after r) (heap_after r);
          Some (out r ++ more)
    end.

(** Sequences of operations on one device. *)
Inductive op : Type :=
  | OpRead (intr : bool) (cap count f_pos : Z)
  | OpWrite (intr : bool) (buf : list byte) (count f_pos : Z)
  | OpTrim.

(** What the callers of a device have seen of it: [written] is the number
    of bytes successful writes transferred since the last trim, [high] the
    largest end position of such a write. *)
Record history : Type := History {
  h_dev : scull_dev;
  h_heap : nat;
  h_written : Z;
  h_high : Z
}.

Definition start (scull_quantum scull_qset : Z) : history :=
  {| h_dev := scull_init_dev scull_quantum scull_qset; h_heap := O;
     h_written := 0; h_high := 0 |}.

Definition step (K : kmalloc_oracle) (SCULL_QUANTUM SCULL_QSET : Z)
    (st : history) (o : op) : option history :=
  match o with
  | OpRead intr cap count f_pos =>
      r ← scull_read K intr (h_dev st) cap count f_pos (h_heap st);
      Some {| h_dev := dev_after r; h_heap := heap_after r;
              h_written := h_written st; h_high := h_high st |}
  | OpWrite intr buf count f_pos =>
      r ← scull_write K intr (h_dev st) buf count f_pos (h_heap st);
      if retval r <? 0
      then Some {| h_dev := dev_after r; h_heap := heap_after r;
                   h_written := h_written st; h_high := h_high st |}
      else Some {| h_dev := dev_after r; h_heap := heap_after r;
                   h_written := h_written st + retval r;
                   h_high := Z.max (h_high st) (f_pos + retval r) |}
  | OpTrim =>
      '(_, dev) ← scull_trim SCULL_QUANTUM SCULL_QSET (h_dev st);
      Some {| h_dev := dev; h_heap := h_heap st; h_written := 0; h_high := 0 |}
  end.

Fixpoint run (K : kmalloc_oracle) (SCULL_QUANTUM SCULL_QSET : Z)
    (st : history) (ops : list op) : option history :=
  match ops with
  | [] => Some st
  | o :: ops' =>
      st' ← step K SCULL_QUANTUM SCULL_QSET st o;
      run K SCULL_QUANTUM SCULL_QSET st' ops'
  end.

(** The arguments of an operation have the types the VFS passes. *)
Definition op_ok (o : op) : Prop :=
  match o with
  | OpRead _ _ count f_pos => is_size_t count /\ is_file_pos f_pos
  | OpWrite _ _ count f_pos => is_size_t count /\ is_file_pos f_pos
  | OpTrim => True
  end.

(** The chain reaches as far as the size, and every offset below the size
    has a node index that fits an [int]. *)
Definition covered (dev : scull_dev) : Prop :=
  dev_size dev
    <= Z.of_nat (length (dev_data dev)) * (dev_quantum dev * dev_qset dev)
  /\ dev_size dev <= offset_limit (dev_quantum dev) (dev_qset dev).

(** The writes among the operations go to offsets whose node index fits an
    [int] in the geometry [quantum], [qset]. *)
Definition op_addressable (quantum qset : Z) (o : op) : Prop :=
  match o with
  | OpWrite _ _ _ f_pos => f_pos < offset_limit quantum qset
  | _ => True
  end.

(** The geometry of a device is the one it was loaded with until the first
    trim, and the default one afterwards. *)
Definition known_geometry (SCULL_QUANTUM SCULL_QSET scull_quantum scull_qset : Z)
    (dev : scull_dev) : Prop :=
  (dev_quantum dev = scull_quantum /\ dev_qset dev = scull_qset)
  \/ (dev_quantum dev = SCULL_QUANTUM /\ dev_qset dev = SCULL_QSET).

(** What holds of every device the operations reach. *)
Definition reached (SCULL_QUANTUM SCULL_QSET scull_quantum scull_qset : Z)
    (st : history) : Prop :=
  wf_dev (h_dev st) /\ covered (h_dev st)
  /\ known_geometry SCULL_QUANTUM SCULL_QSET scull_quantum scull_qset (h_dev st).

(** ** Contracts of the steps of an operation *)

(** What a walk of the chain returns: NULL after a failed allocation, else
    the node asked for, every allocation having succeeded; the chain only
    ever grows by blank nodes at its end, and not at all when the node is
    already there. *)
Definition follow_post (K : kmalloc_oracle) (chain : list scull_qset)
    (h target : nat) (res : option nat * list scull_qset * nat) : Prop :=
  let '(r, chain', h') := res in
  (h <= h')%nat
  /\ (exists m, chain' = chain ++ replicate m blank_qset)
  /\ match r with
     | Some i =>
         i = target /\ (i < length chain')%nat
         /\ forall k, (h <= k < h')%nat -> km_null K k = false
     | None => exists k, (h <= k < h')%nat /\ km_null K k = true
     end
  /\ ((target < length chain)%nat ->
      r = Some target /\ chain' = chain /\ h' = h).

(** Where a write stands before the copy: the device keeps its geometry,
    its size and the quanta it had; the write has left for an interrupted
    wait or a failed allocation, or every allocation succeeded and the
    quantum of the position is at hand. *)
Definition write_stage_post (K : kmalloc_oracle) (intr : bool)
    (dev : scull_dev) (count f_pos : Z) (h : nat) (st : write_stage) : Prop :=
  wf_dev (ws_dev st)
  /\ dev_quantum (ws_dev st) = dev_quantum dev
  /\ dev_qset (ws_dev st) = dev_qset dev
  /\ dev_size (ws_dev st) = dev_size dev
  /\ (h <= ws_heap st)%nat
  /\ (forall i j b, get_quantum (dev_data dev) i j = Some b ->
                    get_quantum (dev_data (ws_dev st)) i j = Some b)
  /\ match st with
     | WLeave rv d h' =>
         (rv = - ERESTARTSYS /\ intr = true /\ d = dev /\ h' = h)
         \/ (rv = - ENOMEM /\ intr = false
             /\ exists k, (h <= k < h')%nat /\ km_null K k = true)
     | WCopy i arr s_pos q q_pos n d h' =>
         intr = false
         /\ (exists item,
               translate f_pos (dev_quantum dev) (dev_qset dev)
                 = Some (item, s_pos, q_pos)
               /\ i = node_index item)
         /\ 0 <= s_pos < dev_qset dev /\ 0 <= q_pos < dev_quantum dev
         /\ dev_data d !! i = Some {| qs_data := Some arr |}
         /\ Z.of_nat (length arr) = dev_qset dev
         /\ Forall (slot_ok (dev_quantum dev)) arr
         /\ Z.of_nat (length q) = dev_quantum dev
         /\ n = clamp_to_quantum count (dev_quantum dev) q_pos
         /\ (forall k, (h <= k < h')%nat -> km_null K k = false)
         /\ (zlookup arr s_pos = Some (Some q) \/ zlookup arr s_pos = Some None)
     end.

(** What a write leaves on a well-formed device.  An error leaves the
    position and the size alone.  A success transfers [n] bytes, [n] being
    the count cut at the end of the quantum: they sit in the quantum of the
    position, whose other bytes and all other quanta are as before. *)
Definition write_post (K : kmalloc_oracle) (intr : bool) (dev : scull_dev)
    (buf : list byte) (count f_pos : Z) (h : nat) (r : call) : Prop :=
  wf_dev (dev_after r)
  /\ dev_quantum (dev_after r) = dev_quantum dev
  /\ dev_qset (dev_after r) = dev_qset dev
  /\ (h <= heap_after r)%nat
  /\ ((pos_after r = f_pos /\ dev_size (dev_after r) = dev_size dev
       /\ ((retval r = - ERESTARTSYS /\ intr = true)
           \/ (retval r = - ENOMEM
               /\ exists k, (h <= k < heap_after r)%nat /\ km_null K k = true)
           \/ (retval r = - EFAULT /\ Z.of_nat (length buf) < count
               /\ forall k, (h <= k < heap_after r)%nat -> km_null K k = false)))
      \/ (intr = false
          /\ (forall k, (h <= k < heap_after r)%nat -> km_null K k = false)
          /\ exists item s_pos q_pos n q',
               translate f_pos (dev_quantum dev) (dev_qset dev)
                 = Some (item, s_pos, q_pos)
               /\ 0 <= s_pos < dev_qset dev /\ 0 <= q_pos < dev_quantum dev
               /\ n = Z.min count (dev_quantum dev - q_pos)
               /\ n <= Z.of_nat (length buf)
               /\ retval r = n
               /\ pos_after r = to_long (f_pos + n)
               /\ dev_size (dev_after r) = Z.max (dev_size dev) (f_pos + n)
               /\ get_quantum (dev_data (dev_after r)) (node_index item) s_pos
                  = Some q'
               /\ (forall k, (k < Z.to_nat n)%nat ->
                     q' !! (Z.to_nat q_pos + k)%nat = buf !! k)
               /\ (forall b k,
                     get_quantum (dev_data dev) (node_index item) s_pos = Some b ->
                     (k < Z.to_nat q_pos)%nat \/ (Z.to_nat (q_pos + n) <= k)%nat ->
                     q' !! k = b !! k)
               /\ (forall i j b,
                     (i, j) <> (node_index item, s_pos) ->
                     get_quantum (dev_data dev) i j = Some b ->
                     get_quantum (dev_data (dev_after r)) i j = Some b))).

(** What a walk of the chain does exactly, [need] being the number of
    nodes missing up to the target: with [need] successful allocations it
    appends [need] blank nodes and returns the target; at the first failed
    allocation it returns NULL and keeps the nodes made so far. *)
Definition follow_exact (K : kmalloc_oracle) (chain : list scull_qset)
    (h target : nat) (res : option nat * list scull_qset * nat) : Prop :=
  let need := (target + 1 - length chain)%nat in
  match res with
  | (Some i, chain', h') =>
      i = target
      /\ chain' = chain ++ replicate need blank_qset
      /\ h' = (h + need)%nat
      /\ forall k, (h <= k < h')%nat -> km_null K k = false
  | (None, chain', h') =>
      exists m,
        (m < need)%nat
        /\ chain' = chain ++ replicate m blank_qset
        /\ h' = (h + m + 1)%nat
        /\ km_null K (h + m)%nat = true
        /\ forall k, (h <= k < h + m)%nat -> km_null K k = false
  end.

(** The number of successful allocations among the calls [h], ..., [h' - 1]
    of [kmalloc]. *)
Definition successes (K : kmalloc_oracle) (h h' : nat) : nat :=
  length (filter (fun k => km_null K k = false) (seq h (h' - h))).

(** The number of blocks the trims of a sequence of operations hand to
    [kfree]. *)
Fixpoint freed_by (K : kmalloc_oracle) (SCULL_QUANTUM SCULL_QSET : Z)
    (st : history) (ops : list op) : option nat :=
  match ops with
  | [] => Some O
  | o :: ops' =>
      st' ← step K SCULL_QUANTUM SCULL_QSET st o;
      now ← match o with
             | OpTrim => fst <$> scull_trim SCULL_QUANTUM SCULL_QSET (h_dev st)
             | _ => Some O
             end;
      later ← freed_by K SCULL_QUANTUM SCULL_QSET st' ops';
      Some (now + later)%nat
  end.

(** ** The module: loading and unloading *)

(** The kernel as the module functions see it.  [MKDEV] and [MAJOR] are
    the macros of [linux/kdev_t.h]; [register_chrdev_region] gives the
    value the call returns for a first device number and a count;
    [alloc_chrdev_region] gives, for a first minor and a count, the value
    returned and the device number left in [dev]. *)
Record kernel : Type := Kernel {
  MKDEV : Z -> Z -> Z;
  MAJOR : Z -> Z;
  register_chrdev_region : Z -> Z -> Z;
  alloc_chrdev_region : Z -> Z -> Z * Z
}.

(** The calls by which the module takes and gives back device numbers,
    character devices and the array of devices. *)
Inductive kcall : Type :=
  | CallRegister (first count : Z)
  | CallAlloc (baseminor count : Z)
  | CallUnregister (first count : Z)
  | CallCdevAdd (index : nat) (devno : Z)
  | CallCdevDel (index : nat)
  | CallKfreeDevices.

(** The globals of the module (lines 22 to 34): [load_quantum] and
    [load_qset] are the parameters [scull_quantum] and [scull_qset] given
    at load time, [scull_devices] is NULL or the array of devices. *)
Record scull_module : Type := ScullModule {
  scull_major : Z;
  scull_minor : Z;
  scull_nr_devs : Z;
  load_quantum : Z;
  load_qset : Z;
  scull_devices : option (list scull_dev)
}.

Definition set_major (m : scull_module) (major : Z) : scull_module :=
  {| scull_major := major; scull_minor := scull_minor m;
     scull_nr_devs := scull_nr_devs m; load_quantum := load_quantum m;
     load_qset := load_qset m; scull_devices := scull_devices m |}.

Definition set_devices (m : scull_module) (devs : option (list scull_dev))
  : scull_module :=
  {| scull_major := scull_major m; scull_minor := scull_minor m;
     scull_nr_devs := scull_nr_devs m; load_quantum := load_quantum m;
     load_qset := load_qset m; scull_devices := devs |}.

(** The loop of [scull_cleanup_module] (lines 230 to 233) from index [i]
    on: the blocks the trims release, the devices and the calls made. *)
Fixpoint cleanup_loop (SCULL_QUANTUM SCULL_QSET : Z) (devs : list scull_dev)
    (i : nat) (todo : nat) : option (nat * list scull_dev * list kcall) :=
  match todo with
  | O => Some (O, devs, [])
  | S todo' =>
      dev ← devs !! i;
      '(freed, dev') ← scull_trim SCULL_QUANTUM SCULL_QSET dev;
      '(freed', devs', log) ←
        cleanup_loop SCULL_QUANTUM SCULL_QSET (<[i := dev']> devs) (S i) todo';
      Some ((freed + freed')%nat, devs', CallCdevDel i :: log)
  end.

(** [scull_cleanup_module] (lines 224 to 243): the number of blocks handed
    to [kfree] and the calls made. *)
Definition scull_cleanup_module (E : kernel) (SCULL_QUANTUM SCULL_QSET : Z)
    (m : scull_module) : option (nat * list kcall) :=
  let devno := to_uint (MKDEV E (scull_major m) (scull_minor m)) in
  let count := to_uint (scull_nr_devs m) in
  match scull_devices m with
  | Some devs =>
      '(freed, _, log) ←
        cleanup_loop SCULL_QUANTUM SCULL_QSET devs 0
          (Z.to_nat (scull_nr_devs m));
      Some (S freed, log ++ [CallKfreeDevices; CallUnregister devno count])
  | None => Some (O, [CallUnregister devno count])
  end.

(** [scull_setup_cdev(dev, index)] (lines 248 to 258): the call of
    [cdev_add]; its error is printed and dropped. *)
Definition scull_setup_cdev (E : kernel) (m : scull_module) (index : nat)
  : list kcall :=
  let devno :=
    to_int (MKDEV E (scull_major m) (to_int (scull_minor m + Z.of_nat index))) in
  [CallCdevAdd index (to_uint devno)].

(** The loop of [scull_init_module] (lines 295 to 300) from index [i] on. *)
Fixpoint init_loop (E : kernel) (m : scull_module) (devs : list scull_dev)
    (i : nat) (todo : nat) : option (list scull_dev * list kcall) :=
  match todo with
  | O => Some (devs, [])
  | S todo' =>
      dev ← devs !! i;
      let dev := {| dev_data := dev_data dev; dev_quantum := load_quantum m;
                    dev_qset := load_qset m; dev_size := dev_size dev |} in
      '(devs', log) ← init_loop E m (<[i := dev]> devs) (S i) todo';
      Some (devs', scull_setup_cdev E m i ++ log)
  end.

(** A [struct scull_dev] after [memset(.., 0, ..)]. *)
Definition zeroed_dev : scull_dev :=
  {| dev_data := []; dev_quantum := 0; dev_qset := 0; dev_size := 0 |}.

(** [scull_init_module] (lines 261 to 314): the value returned, the
    globals, the allocation count and the calls made.  There is no result
    when [memset] is given a negative number of devices. *)
Definition scull_init_module (E : kernel) (K : kmalloc_oracle)
    (SCULL_QUANTUM SCULL_QSET : Z) (m : scull_module) (h : nat)
  : option (Z * scull_module * nat * list kcall) :=
  let count := to_uint (scull_nr_devs m) in
  let '(result, major, log) :=
    if scull_major m =? 0
    then
      let '(result, dev) := alloc_chrdev_region E (to_uint (scull_minor m)) count in
      (to_int result, to_int (MAJOR E dev),
       [CallAlloc (to_uint (scull_minor m)) count])
    else
      let dev := to_uint (MKDEV E (scull_major m) (scull_minor m)) in
      (to_int (register_chrdev_region E dev count), scull_major m,
       [CallRegister dev count]) in
  let m := set_major m major in
  if result <? 0 then Some (result, m, h, log) else
  match kmalloc K h with
  | (None, h') =>
      let m := set_devices m None in
      '(_, log') ← scull_cleanup_module E SCULL_QUANTUM SCULL_QSET m;
      Some (- ENOMEM, m, h', log ++ log')
  | (Some _, h') =>
      if scull_nr_devs m <? 0 then None else
      let devs := replicate (Z.to_nat (scull_nr_devs m)) zeroed_dev in
      '(devs', log') ← init_loop E m devs 0 (Z.to_nat (scull_nr_devs m));
      Some (0, set_devices m (Some devs'), h', log ++ log')
  end.

(** The file operations reaching the devices of the module: call [o] on
    device [i]; the devices, the allocation count and the blocks the call
    handed to [kfree]. *)
Definition dev_step (K : kmalloc_oracle) (SCULL_QUANTUM SCULL_QSET : Z)
    (devs : list scull_dev) (h : nat) (i : nat) (o : op)
  : option (list scull_dev * nat * nat) :=
  dev ← devs !! i;
  match o with
  | OpRead intr cap count f_pos =>
      r ← scull_read K intr dev cap count f_pos h;
      Some (<[i := dev_after r]> devs, heap_after r, O)
  | OpWrite intr buf count f_pos =>
      r ← scull_write K intr dev buf count f_pos h;
      Some (<[i := dev_after r]> devs, heap_after r, O)
  | OpTrim =>
      '(freed, dev') ← scull_trim SCULL_QUANTUM SCULL_QSET dev;
      Some (<[i := dev']> devs, h, freed)
  end.

Fixpoint dev_run (K : kmalloc_oracle) (SCULL_QUANTUM SCULL_QSET : Z)
    (devs : list scull_dev) (h : nat) (calls : list (nat * op))
  : option (list scull_dev * nat * nat) :=
  match calls with
  | [] => Some (devs, h, O)
  | (i, o) :: calls' =>
      '(devs1, h1, now) ← dev_step K SCULL_QUANTUM SCULL_QSET devs h i o;
      '(devs2, h2, later) ← dev_run K SCULL_QUANTUM SCULL_QSET devs1 h1 calls';
      Some (devs2, h2, (now + later)%nat)
  end.

(** The blocks the devices of the module hold. *)
Definition blocks_of_devices (devs : list scull_dev) : nat :=
  sum_list ((fun dev => blocks (dev_data dev)) <$> devs).

(** ** Sample data *)

(** An allocator that never fails and hands out zeroed blocks. *)
Definition kmalloc_ok : kmalloc_oracle := plentiful (fun _ _ => x00).

Definition alphabet : list byte :=
  ["A"; "B"; "C"; "D"; "E"; "F"; "G"; "H"; "I"; "J"]%byte.

(** Quantum 4, two slots per node: one node whose first slot is empty and
    whose second slot holds a byte written at offset 5. *)
Definition holed : scull_dev :=
  {| dev_data := [ {| qs_data := Some [None; Some [x00; "A"; x00; x00]%byte] |} ];
     dev_quantum := 4; dev_qset := 2; dev_size := 6 |}.

(** A size without any node to back it. *)
Definition unbacked : scull_dev :=
  {| dev_data := []; dev_quantum := 4; dev_qset := 2; dev_size := 1 |}.

(** An allocator whose first [n] calls succeed and whose later calls fail. *)
Definition kmalloc_until (n : nat) : kmalloc_oracle :=
  {| km_null := fun k => negb (k <? n)%nat; km_junk := fun _ _ => x00 |}.

(** An allocator that never fails and hands out blocks full of ['?']. *)
Definition kmalloc_dirty : kmalloc_oracle := plentiful (fun _ _ => "?"%byte).

(** A kernel with 20 bits of minor number that grants every device number
    asked for, and major 250 to a dynamic request. *)
Definition kernel_ok : kernel :=
  {| MKDEV := fun ma mi => Z.lor (Z.shiftl ma 20) mi;
     MAJOR := fun dev => Z.shiftr dev 20;
     register_chrdev_region := fun _ _ => 0;
     alloc_chrdev_region := fun baseminor _ => (0, Z.lor (Z.shiftl 250 20) baseminor) |}.

(** The module before it is loaded: a dynamic major, four devices of
    quantum 4 with two slots per node. *)
Definition unloaded : scull_module :=
  {| scull_major := 0; scull_minor := 0; scull_nr_devs := 4;
     load_quantum := 4; load_qset := 2; scull_devices := None |}.

(** * Properties *)

(** ** C integers *)

Section Integers.

Lemma to_int_id x : INT_MIN <= x <= INT_MAX -> to_int x = x.
Proof.
  unfold to_int, wrap_signed, INT_MIN, INT_MAX. intros H.
  rewrite Z.mod_small; lia.
Qed.

Lemma to_long_id x : LONG_MIN <= x <= LONG_MAX -> to_long x = x.
Proof.
  unfold to_long, wrap_signed, LONG_MIN, LONG_MAX. intros H.
  rewrite Z.mod_small; lia.
Qed.

Lemma to_uint_id x : 0 <= x <= 2 * INT_MAX + 1 -> to_uint x = x.
Proof. unfold to_uint, INT_MAX. intros H. rewrite Z.mod_small; lia. Qed.

Lemma to_ulong_id x : is_size_t x -> to_ulong x = x.
Proof.
  unfold to_ulong, is_size_t, ULONG_MAX. intros H. rewrite Z.mod_small; lia.
Qed.

Lemma to_ulong_size_t x : is_size_t (to_ulong x).
Proof.
  unfold to_ulong, is_size_t, ULONG_MAX.
  pose proof (Z.mod_pos_bound x (2 ^ 64)). lia.
Qed.

Lemma to_long_range x : LONG_MIN <= to_long x <= LONG_MAX.
Proof.
  unfold to_long, wrap_signed, LONG_MIN, LONG_MAX.
  pose proof (Z.mod_pos_bound (x + 2 ^ (64 - 1)) (2 ^ 64)). lia.
Qed.

(** A [size_t] read back as [ssize_t] then as [unsigned long]. *)
Lemma to_ulong_to_long x : to_ulong (to_long x) = to_ulong x.
Proof.
  unfold to_ulong, to_long, wrap_signed.
  replace (2 ^ (64 - 1)) with (2 ^ 63) by reflexivity.
  rewrite Zminus_mod_idemp_l. f_equal. lia.
Qed.

Lemma is_file_pos_size_t p : is_file_pos p -> is_size_t p.
Proof. unfold is_file_pos, is_size_t, LONG_MAX, ULONG_MAX. lia. Qed.

Lemma c_div_nonneg lo a b :
  0 <= a -> 0 < b -> c_div lo a b = Some (a / b).
Proof.
  intros Ha Hb. unfold c_div, traps.
  destruct (b =? 0) eqn:E0; [lia|]. destruct (b =? -1) eqn:E1; [lia|].
  rewrite andb_false_r. simpl. by rewrite Z.quot_div_nonneg by lia.
Qed.

Lemma c_rem_nonneg lo a b :
  0 <= a -> 0 < b -> c_rem lo a b = Some (a mod b).
Proof.
  intros Ha Hb. unfold c_rem, traps.
  destruct (b =? 0) eqn:E0; [lia|]. destruct (b =? -1) eqn:E1; [lia|].
  rewrite andb_false_r. simpl. by rewrite Z.rem_mod_nonneg by lia.
Qed.

End Integers.

(** ** Offset translation *)

Section Translate.

Variables quantum qset : Z.
Hypothesis Hgeo : good_geometry quantum qset.

Lemma itemsize_exact : to_int (quantum * qset) = quantum * qset.
Proof.
  destruct Hgeo as (Hq & Hs & Hqs). apply to_int_id.
  unfold INT_MIN. nia.
Qed.

(** In a good geometry the [int] locals hold the mathematical quotients
    and remainders, except that [item] is cut to 32 bits. *)
Lemma translate_good f_pos :
  is_file_pos f_pos ->
  translate f_pos quantum qset =
    Some (to_int (f_pos / (quantum * qset)),
          (f_pos mod (quantum * qset)) / quantum,
          (f_pos mod (quantum * qset)) mod quantum).
Proof.
  intros [Hp0 Hp1]. destruct Hgeo as (Hq & Hs & Hqs).
  assert (Hqs0 : 0 < quantum * qset) by nia.
  assert (Hq1 : quantum <= INT_MAX) by nia.
  assert (Hs1 : qset <= INT_MAX) by nia.
  unfold translate. rewrite itemsize_exact.
  rewrite to_long_id by (unfold LONG_MIN; lia).
  rewrite c_div_nonneg, c_rem_nonneg by lia. simpl.
  pose proof (Z.mod_pos_bound f_pos (quantum * qset) Hqs0) as Hr.
  rewrite (to_int_id (f_pos mod _)) by (unfold INT_MIN, INT_MAX in *; lia).
  rewrite c_div_nonneg, c_rem_nonneg by lia. simpl.
  pose proof (Z.mod_pos_bound (f_pos mod (quantum * qset)) quantum Hq) as Hk.
  assert (0 <= (f_pos mod (quantum * qset)) / quantum < qset) as Hj.
  { split; [apply Z.div_pos; lia|]. apply Z.div_lt_upper_bound; lia. }
  rewrite (to_int_id (_ / quantum)), (to_int_id (_ mod quantum))
    by (unfold INT_MIN, INT_MAX in *; lia).
  reflexivity.
Qed.

Lemma slot_range f_pos :
  0 <= f_pos -> 0 <= (f_pos mod (quantum * qset)) / quantum < qset.
Proof.
  intros Hp. destruct Hgeo as (Hq & Hs & Hqs).
  assert (Hqs0 : 0 < quantum * qset) by nia.
  pose proof (Z.mod_pos_bound f_pos (quantum * qset) Hqs0) as Hr.
  split; [apply Z.div_pos; lia|]. apply Z.div_lt_upper_bound; lia.
Qed.

Lemma intra_range f_pos :
  0 <= (f_pos mod (quantum * qset)) mod quantum < quantum.
Proof. destruct Hgeo as (Hq & _). apply Z.mod_pos_bound. lia. Qed.

(** The three coordinates put together give the offset back. *)
Lemma recompose f_pos :
  f_pos / (quantum * qset) * quantum * qset
  + (f_pos mod (quantum * qset)) / quantum * quantum
  + (f_pos mod (quantum * qset)) mod quantum = f_pos.
Proof.
  destruct Hgeo as (Hq & Hs & Hqs).
  assert (Hqs0 : 0 < quantum * qset) by nia.
  pose proof (Z.div_mod f_pos (quantum * qset)) as H1.
  pose proof (Z.div_mod (f_pos mod (quantum * qset)) quantum) as H2.
  lia.
Qed.

(** Offsets of one quantum share their node and their slot. *)
Lemma same_quantum f_pos k :
  0 <= f_pos -> 0 <= k ->
  (f_pos mod (quantum * qset)) mod quantum + k < quantum ->
  (f_pos + k) / (quantum * qset) = f_pos / (quantum * qset)
  /\ ((f_pos + k) mod (quantum * qset)) / quantum
     = (f_pos mod (quantum * qset)) / quantum
  /\ ((f_pos + k) mod (quantum * qset)) mod quantum
     = (f_pos mod (quantum * qset)) mod quantum + k.
Proof.
  intros Hp Hk Hfit. destruct Hgeo as (Hq & Hs & Hqs).
  assert (Hqs0 : 0 < quantum * qset) by nia.
  set (i := f_pos / (quantum * qset)).
  set (j := (f_pos mod (quantum * qset)) / quantum).
  set (q := (f_pos mod (quantum * qset)) mod quantum) in *.
  pose proof (recompose f_pos) as Hre. fold i j q in Hre.
  pose proof (slot_range f_pos Hp) as Hj. fold j in Hj.
  pose proof (intra_range f_pos) as Hq'. fold q in Hq'.
  assert (Hrest : (f_pos + k) mod (quantum * qset) = j * quantum + (q + k)).
  { symmetry. apply (Z.mod_unique_pos _ _ i); nia. }
  assert (Hitem : (f_pos + k) / (quantum * qset) = i).
  { symmetry. apply (Z.div_unique_pos _ _ i (j * quantum + (q + k))); nia. }
  rewrite Hitem, Hrest. split; [reflexivity|]. split.
  - symmetry. apply (Z.div_unique_pos _ _ j (q + k)); lia.
  - symmetry. apply (Z.mod_unique_pos _ _ j); lia.
Qed.

End Translate.

(** ** Following the chain *)

Section Follow.

Variable K : kmalloc_oracle.

Lemma follow_loop_post n : forall qs chain h,
  (qs < length chain)%nat ->
  follow_post K chain h (qs + n) (follow_loop K n qs chain h).
Proof.
  induction n as [|n IH]; intros qs chain h Hqs; simpl.
  - rewrite Nat.add_0_r. split; [lia|]. split.
    { exists O. by rewrite app_nil_r. }
    split; [|done]. split; [done|]. split; [done|]. intros; lia.
  - destruct (decide (S qs < length chain)%nat) as [Hnext|Hlast].
    + specialize (IH (S qs) chain h Hnext).
      replace (qs + S n)%nat with (S qs + n)%nat by lia. exact IH.
    + unfold kmalloc. destruct (km_null K h) eqn:Hnull.
      * split; [lia|]. split.
        { exists O. by rewrite app_nil_r. }
        split; [|intros; lia]. exists h. split; [lia|done].
      * assert (Hqs' : (S qs < length (chain ++ [blank_qset]))%nat).
        { rewrite length_app. simpl. lia. }
        specialize (IH (S qs) (chain ++ [blank_qset]) (S h) Hqs').
        replace (qs + S n)%nat with (S qs + n)%nat by lia.
        destruct (follow_loop K n (S qs) (chain ++ [blank_qset]) (S h))
          as [[r chain'] h'].
        destruct IH as (Hh & [m Hm] & Hr & _).
        split; [lia|]. split.
        { exists (S m). rewrite Hm, <- app_assoc. done. }
        split.
        { destruct r as [i|].
          - destruct Hr as (Hi & Hlen & Hok). repeat split; try done.
            intros k Hk. destruct (decide (k = h)) as [->|Hne]; [done|].
            apply Hok. lia.
          - destruct Hr as (k & Hk & Hfail). exists k. split; [lia|done]. }
        intros. lia.
Qed.

Lemma scull_follow_post dev n h :
  follow_post K (dev_data dev) h (node_index n) (scull_follow K dev n h).
Proof.
  unfold scull_follow, node_index.
  destruct (dev_data dev) as [|qs0 chain] eqn:Hdata.
  - unfold kmalloc. destruct (km_null K h) eqn:Hnull.
    + split; [lia|]. split; [by exists O|].
      split; [|simpl; intros; lia]. exists h. split; [lia|done].
    + pose proof (follow_loop_post (Z.to_nat (to_uint n)) 0 [blank_qset] (S h))
        as Hpost.
      simpl in Hpost. specialize (Hpost ltac:(lia)).
      destruct (follow_loop K (Z.to_nat (to_uint n)) 0 [blank_qset] (S h))
        as [[r chain'] h'].
      destruct Hpost as (Hh & [m Hm] & Hr & _).
      split; [lia|]. split; [exists (S m); by rewrite Hm|]. split.
      { destruct r as [i|].
        - destruct Hr as (Hi & Hlen & Hok). repeat split; try done.
          intros k Hk. destruct (decide (k = h)) as [->|Hne]; [done|].
          apply Hok. lia.
        - destruct Hr as (k & Hk & Hfail). exists k. split; [lia|done]. }
      simpl. lia.
  - apply (follow_loop_post (Z.to_nat (to_uint n)) 0 (qs0 :: chain) h).
    simpl. lia.
Qed.

(** A node found in a grown chain is the old node, or a blank one. *)
Lemma lookup_grown (chain : list scull_qset) m i qs :
  (chain ++ replicate m blank_qset) !! i = Some qs ->
  chain !! i = Some qs \/ (chain !! i = None /\ qs = blank_qset).
Proof.
  intros H. destruct (decide (i < length chain)%nat) as [Hlt|Hge].
  - left. by rewrite lookup_app_l in H.
  - right. split; [apply lookup_ge_None; lia|].
    rewrite lookup_app_r in H by lia.
    apply lookup_replicate in H. tauto.
Qed.

End Follow.

(** ** User memory *)

Section UserMemory.

Lemma copy_from_user_inv dst off from n q' missed :
  copy_from_user dst off from n = Some (q', missed) ->
  0 <= off /\ 0 <= n /\ off + n <= Z.of_nat (length dst)
  /\ length q' = length dst
  /\ (missed = 0 <-> n <= Z.of_nat (length from))
  /\ (forall k, (k < Z.to_nat off)%nat -> q' !! k = dst !! k)
  /\ (forall k, (Z.to_nat (off + n) <= k)%nat -> q' !! k = dst !! k)
  /\ (missed = 0 -> forall k, (k < Z.to_nat n)%nat ->
        q' !! (Z.to_nat off + k)%nat = from !! k).
Proof.
  unfold copy_from_user. intros H.
  destruct (off <? 0) eqn:E1; [done|]. destruct (n <? 0) eqn:E2; [done|].
  destruct (Z.of_nat (length dst) <? off + n) eqn:E3; [done|].
  simpl in H. injection H as <- <-.
  apply Z.ltb_ge in E1, E2, E3.
  set (got := take (Z.to_nat n) from).
  assert (Hgot : length got = Nat.min (Z.to_nat n) (length from))
    by apply length_take.
  assert (Htake : length (take (Z.to_nat off) dst) = Z.to_nat off)
    by (rewrite length_take; lia).
  split; [done|]. split; [done|]. split; [done|]. split.
  { rewrite !length_app, Htake, length_replicate, length_drop. lia. }
  split; [lia|]. split.
  { intros k Hk. rewrite lookup_app_l by lia. apply lookup_take_lt. done. }
  split.
  { intros k Hk. rewrite lookup_app_r by lia. rewrite Htake.
    rewrite lookup_app_r by lia.
    rewrite lookup_app_r by (rewrite length_replicate; lia).
    rewrite length_replicate, lookup_drop. f_equal. lia. }
  intros Hm k Hk. rewrite lookup_app_r by lia. rewrite Htake.
  replace (Z.to_nat off + k - Z.to_nat off)%nat with k by lia.
  rewrite lookup_app_l by lia. apply lookup_take_lt. done.
Qed.

Lemma copy_from_user_fits dst off from n :
  0 <= off -> 0 <= n -> off + n <= Z.of_nat (length dst) ->
  exists q' missed, copy_from_user dst off from n = Some (q', missed).
Proof.
  intros H1 H2 H3. unfold copy_from_user.
  destruct (off <? 0) eqn:E1; [lia|]. destruct (n <? 0) eqn:E2; [lia|].
  destruct (Z.of_nat (length dst) <? off + n) eqn:E3; [lia|].
  simpl. eauto.
Qed.

Lemma copy_to_user_inv cap src off n data missed :
  copy_to_user cap src off n = Some (data, missed) ->
  0 <= off /\ 0 <= n /\ off + n <= Z.of_nat (length src)
  /\ (missed = 0 <-> n <= Z.max 0 cap)
  /\ (missed = 0 -> data = take (Z.to_nat n) (drop (Z.to_nat off) src))
  /\ (missed <> 0 -> data = []).
Proof.
  unfold copy_to_user. intros H.
  destruct (off <? 0) eqn:E1; [done|]. destruct (n <? 0) eqn:E2; [done|].
  destruct (Z.of_nat (length src) <? off + n) eqn:E3; [done|].
  simpl in H. apply Z.ltb_ge in E1, E2, E3.
  destruct (n <=? Z.max 0 cap) eqn:E4; injection H as <- <-.
  - apply Z.leb_le in E4. repeat split; try done; lia.
  - apply Z.leb_gt in E4. repeat split; try done; lia.
Qed.

Lemma copy_to_user_fits cap src off n :
  0 <= off -> 0 <= n -> off + n <= Z.of_nat (length src) ->
  exists data missed, copy_to_user cap src off n = Some (data, missed).
Proof.
  intros H1 H2 H3. unfold copy_to_user.
  destruct (off <? 0) eqn:E1; [lia|]. destruct (n <? 0) eqn:E2; [lia|].
  destruct (Z.of_nat (length src) <? off + n) eqn:E3; [lia|].
  simpl. destruct (n <=? Z.max 0 cap); eauto.
Qed.

End UserMemory.

(** ** Reading *)

(** Split every [match] and monadic bind in sight. *)
Ltac crunch := repeat (case_match || simplify_option_eq).

Section Reading.

Variable K : kmalloc_oracle.

Lemma set_chain_same dev : set_chain dev (dev_data dev) = dev.
Proof. by destruct dev. Qed.

(** Up to the copy, a read changes nothing of the device but the chain,
    which it may extend with blank nodes. *)
Lemma read_upto_copy_frame intr dev count f_pos h st :
  read_upto_copy K intr dev count f_pos h = Some st ->
  dev_quantum (rs_dev st) = dev_quantum dev
  /\ dev_qset (rs_dev st) = dev_qset dev
  /\ dev_size (rs_dev st) = dev_size dev
  /\ (exists m, dev_data (rs_dev st) = dev_data dev ++ replicate m blank_qset)
  /\ (h <= rs_heap st)%nat.
Proof.
  unfold read_upto_copy. intros H.
  assert (Hsame : exists m, dev_data dev = dev_data dev ++ replicate m blank_qset).
  { exists O. by rewrite app_nil_r. }
  destruct intr; [by simplify_eq|].
  destruct (to_ulong f_pos >=? dev_size dev); [by simplify_eq|].
  destruct (translate f_pos (dev_quantum dev) (dev_qset dev))
    as [[[item s_pos] q_pos]|]; [|done].
  simpl in H.
  pose proof (scull_follow_post K dev item h) as Hpost.
  destruct (scull_follow K dev item h) as [[dptr chain] h'].
  destruct Hpost as (Hh & Hm & _).
  crunch; simpl; done.
Qed.

(** A read that leaves before the copy returns 0, or [-ERESTARTSYS] when
    the wait for the semaphore was interrupted. *)
Lemma read_leave_value intr dev count f_pos h rv d h' :
  read_upto_copy K intr dev count f_pos h = Some (RLeave rv d h') ->
  rv = 0 \/ (rv = - ERESTARTSYS /\ intr = true).
Proof.
  unfold read_upto_copy. intros H. crunch; auto.
Qed.

(** A read that reaches the copy found the quantum of its position. *)
Lemma read_copy_inv intr dev count f_pos h q q_pos n d h' :
  read_upto_copy K intr dev count f_pos h = Some (RCopy q q_pos n d h') ->
  intr = false /\ to_ulong f_pos < dev_size dev
  /\ exists item s_pos,
       translate f_pos (dev_quantum dev) (dev_qset dev)
         = Some (item, s_pos, q_pos)
       /\ get_quantum (dev_data d) (node_index item) s_pos = Some q
       /\ n = clamp_to_quantum
                (if to_ulong (f_pos + count) >? dev_size dev
                 then to_ulong (dev_size dev - f_pos) else count)
                (dev_quantum dev) q_pos.
Proof.
  unfold read_upto_copy. intros H.
  destruct intr; [done|]. split; [done|].
  destruct (to_ulong f_pos >=? dev_size dev) eqn:Hge; [done|].
  split; [lia|].
  destruct (translate f_pos (dev_quantum dev) (dev_qset dev))
    as [[[item s_pos] q_pos']|]; [|done].
  simpl in H.
  pose proof (scull_follow_post K dev item h) as Hpost.
  destruct (scull_follow K dev item h) as [[dptr chain] h1].
  destruct Hpost as (_ & _ & Hr & _).
  destruct dptr as [i|]; [|done]. destruct Hr as (-> & _).
  destruct (chain !! node_index item) as [qs|] eqn:Hqs; [|done]. simpl in H.
  destruct (qs_data qs) as [arr|] eqn:Harr; [|done].
  destruct (zlookup arr s_pos) as [[q0|]|] eqn:Hslot; try done.
  simpl in H. injection H as <- <- <- <- <-.
  exists item, s_pos. split; [done|]. split; [|done].
  unfold get_quantum. simpl. rewrite Hqs. simpl. rewrite Harr. simpl.
  by rewrite Hslot.
Qed.

(** With the node of the position on the chain, at the end of the data or
    without the semaphore, a read leaves the device and the allocator as
    they are. *)
Lemma read_untouched intr dev count f_pos h st :
  read_upto_copy K intr dev count f_pos h = Some st ->
  intr = true \/ dev_size dev <= to_ulong f_pos
  \/ (exists item s_pos q_pos,
        translate f_pos (dev_quantum dev) (dev_qset dev)
          = Some (item, s_pos, q_pos)
        /\ (node_index item < length (dev_data dev))%nat) ->
  rs_dev st = dev /\ rs_heap st = h.
Proof.
  unfold read_upto_copy. intros H Hcase.
  destruct intr; [by simplify_eq|].
  destruct (to_ulong f_pos >=? dev_size dev) eqn:Hge; [by simplify_eq|].
  destruct Hcase as [?|[?|(item & s_pos & q_pos & Htr & Hlen)]];
    [done|lia|].
  rewrite Htr in H. simpl in H.
  pose proof (scull_follow_post K dev item h) as Hpost.
  destruct (scull_follow K dev item h) as [[dptr chain] h1].
  destruct Hpost as (_ & _ & _ & Hhere).
  destruct (Hhere Hlen) as (-> & -> & ->).
  rewrite set_chain_same in H. crunch; done.
Qed.

(** A hole at the position makes the read leave with 0. *)
Lemma read_hole dev count f_pos h item s_pos q_pos :
  translate f_pos (dev_quantum dev) (dev_qset dev) = Some (item, s_pos, q_pos) ->
  hole (dev_data dev) (node_index item) s_pos ->
  exists d h', read_upto_copy K false dev count f_pos h = Some (RLeave 0 d h').
Proof.
  intros Htr Hhole. unfold read_upto_copy.
  destruct (to_ulong f_pos >=? dev_size dev); [eauto|].
  rewrite Htr. simpl.
  pose proof (scull_follow_post K dev item h) as Hpost.
  destruct (scull_follow K dev item h) as [[dptr chain] h1].
  destruct Hpost as (_ & [m Hm] & Hr & _).
  destruct dptr as [i|]; [|eauto]. destruct Hr as (-> & Hlen & _).
  destruct (lookup_lt_is_Some_2 chain _ Hlen) as [qs Hqs].
  rewrite Hqs. simpl. rewrite Hm in Hqs.
  unfold hole in Hhole.
  destruct (lookup_grown _ _ _ _ Hqs) as [Hold|[Hnone ->]].
  - rewrite Hold in Hhole. destruct (qs_data qs) as [arr|]; [|eauto].
    rewrite Hhole. simpl. eauto.
  - simpl. eauto.
Qed.

End Reading.

(** ** Shapes and contents of chains *)

Section Chains.

Variables quantum qset : Z.

Lemma wf_chain_grow chain m :
  wf_chain quantum qset chain ->
  wf_chain quantum qset (chain ++ replicate m blank_qset).
Proof.
  intros H. apply Forall_app. split; [done|].
  apply Forall_replicate. unfold qset_ok. done.
Qed.

Lemma wf_chain_set_slots chain i arr :
  wf_chain quantum qset chain ->
  Z.of_nat (length arr) = qset -> Forall (slot_ok quantum) arr ->
  wf_chain quantum qset (set_slots chain i arr).
Proof.
  intros H Hlen Hok. apply Forall_insert; [done|]. unfold qset_ok. done.
Qed.

Lemma wf_chain_lookup chain i qs arr :
  wf_chain quantum qset chain -> chain !! i = Some qs ->
  qs_data qs = Some arr ->
  Z.of_nat (length arr) = qset /\ Forall (slot_ok quantum) arr.
Proof.
  intros H Hqs Harr. pose proof (Forall_lookup_1 _ _ _ _ H Hqs) as Hok.
  unfold qset_ok in Hok. by rewrite Harr in Hok.
Qed.

Lemma blank_slots_length : 0 <= qset -> Z.of_nat (length (blank_slots qset)) = qset.
Proof. intros H. unfold blank_slots. rewrite length_replicate. lia. Qed.

Lemma blank_slots_ok : Forall (slot_ok quantum) (blank_slots qset).
Proof. apply Forall_replicate. done. Qed.

Lemma fresh_quantum_length junk :
  0 <= quantum -> Z.of_nat (length (fresh_quantum junk quantum)) = quantum.
Proof.
  intros H. unfold fresh_quantum. rewrite length_fmap, length_seq. lia.
Qed.

End Chains.

Section Contents.

Lemma zlookup_Some {A} (l : list A) j x :
  zlookup l j = Some x -> 0 <= j < Z.of_nat (length l) /\ l !! Z.to_nat j = Some x.
Proof.
  unfold zlookup. destruct (j <? 0) eqn:E; [done|]. intros H.
  apply Z.ltb_ge in E. pose proof (lookup_lt_Some _ _ _ H). split; [lia|done].
Qed.

Lemma zlookup_in_range {A} (l : list A) j :
  0 <= j < Z.of_nat (length l) -> exists x, zlookup l j = Some x.
Proof.
  intros H. unfold zlookup. destruct (j <? 0) eqn:E; [lia|].
  apply lookup_lt_is_Some_2. lia.
Qed.

Lemma zlookup_blank_slots qset j :
  0 <= j < qset -> zlookup (blank_slots qset) j = Some None.
Proof.
  intros H. unfold zlookup, blank_slots. destruct (j <? 0) eqn:E; [lia|].
  apply lookup_replicate. split; [done|lia].
Qed.

Lemma zlookup_insert_eq {A} (l : list A) j x :
  0 <= j < Z.of_nat (length l) -> zlookup (<[Z.to_nat j := x]> l) j = Some x.
Proof.
  intros H. unfold zlookup. destruct (j <? 0) eqn:E; [lia|].
  apply list_lookup_insert_eq. lia.
Qed.

Lemma zlookup_insert_ne {A} (l : list A) j j' x :
  0 <= j -> j <> j' -> zlookup (<[Z.to_nat j := x]> l) j' = zlookup l j'.
Proof.
  intros H Hne. unfold zlookup. destruct (j' <? 0) eqn:E; [done|].
  apply Z.ltb_ge in E. apply list_lookup_insert_ne. lia.
Qed.

Lemma get_quantum_grow chain more i j b :
  get_quantum chain i j = Some b -> get_quantum (chain ++ more) i j = Some b.
Proof.
  unfold get_quantum. intros H.
  destruct (chain !! i) as [qs|] eqn:Hqs; [|done].
  by rewrite (lookup_app_l_Some _ _ _ _ Hqs).
Qed.

Lemma get_quantum_set_slots_ne chain i arr i' j :
  i <> i' -> get_quantum (set_slots chain i arr) i' j = get_quantum chain i' j.
Proof.
  intros Hne. unfold get_quantum, set_slots.
  by rewrite list_lookup_insert_ne.
Qed.

Lemma get_quantum_set_slots_eq chain i arr j :
  (i < length chain)%nat ->
  get_quantum (set_slots chain i arr) i j = default None (zlookup arr j).
Proof.
  intros Hlt. unfold get_quantum, set_slots.
  rewrite list_lookup_insert_eq by done. simpl.
  by destruct (zlookup arr j).
Qed.

Lemma get_quantum_lookup chain i j qs arr :
  chain !! i = Some qs -> qs_data qs = Some arr ->
  get_quantum chain i j = default None (zlookup arr j).
Proof.
  intros Hqs Harr. unfold get_quantum. rewrite Hqs. simpl. rewrite Harr.
  simpl. by destruct (zlookup arr j).
Qed.

Lemma get_quantum_no_slots chain i j qs :
  chain !! i = Some qs -> qs_data qs = None -> get_quantum chain i j = None.
Proof.
  intros Hqs Harr. unfold get_quantum. rewrite Hqs. simpl. by rewrite Harr.
Qed.

End Contents.

(** ** Writing *)

Section Writing.

Variable K : kmalloc_oracle.

Lemma wf_dev_set_chain dev chain :
  wf_dev dev -> wf_chain (dev_quantum dev) (dev_qset dev) chain ->
  wf_dev (set_chain dev chain).
Proof. intros (Hgeo & Hsz & _) Hwf. unfold wf_dev. simpl. done. Qed.

(** Giving node [i] the slot array it has, or a first one, keeps every
    quantum of the chain. *)
Lemma get_quantum_set_slots_keep chain i qs arr i' j b :
  chain !! i = Some qs -> qs_data qs = Some arr \/ qs_data qs = None ->
  get_quantum chain i' j = Some b ->
  get_quantum (set_slots chain i arr) i' j = Some b.
Proof.
  intros Hqs Hdata Hb. destruct (decide (i = i')) as [<-|Hne].
  - rewrite get_quantum_set_slots_eq by (by eapply lookup_lt_Some).
    destruct Hdata as [Harr|Hnone].
    + by rewrite (get_quantum_lookup _ _ _ _ _ Hqs Harr) in Hb.
    + by rewrite (get_quantum_no_slots _ _ _ _ Hqs Hnone) in Hb.
  - by rewrite get_quantum_set_slots_ne.
Qed.

(** The second half of [write_upto_copy]: node [i] has the slot array
    [arr]; the quantum of slot [s_pos] is looked up or allocated. *)
Lemma write_quantum_step intr dev count f_pos h item s_pos q_pos
    chain1 h1 arr (d1 := set_chain dev (set_slots chain1 (node_index item) arr)) :
  wf_dev dev -> intr = false ->
  translate f_pos (dev_quantum dev) (dev_qset dev) = Some (item, s_pos, q_pos) ->
  0 <= s_pos < dev_qset dev -> 0 <= q_pos < dev_quantum dev ->
  (h <= h1)%nat -> (forall k, (h <= k < h1)%nat -> km_null K k = false) ->
  wf_chain (dev_quantum dev) (dev_qset dev) chain1 ->
  (node_index item < length chain1)%nat ->
  Z.of_nat (length arr) = dev_qset dev ->
  Forall (slot_ok (dev_quantum dev)) arr ->
  (forall i j b, get_quantum (dev_data dev) i j = Some b ->
                 get_quantum (dev_data d1) i j = Some b) ->
  exists st,
    (slot ← zlookup arr s_pos;
     let '(quant, h2) :=
       match slot with
       | Some q => (Some q, h1)
       | None =>
           match kmalloc K h1 with
           | (None, h') => (None, h')
           | (Some junk, h') => (Some (fresh_quantum junk (dev_quantum dev)), h')
           end
       end in
     match quant with
     | None => Some (WLeave (- ENOMEM) d1 h2)
     | Some q =>
         Some (WCopy (node_index item) arr s_pos q q_pos
                 (clamp_to_quantum count (dev_quantum dev) q_pos) d1 h2)
     end) = Some st
    /\ write_stage_post K intr dev count f_pos h st.
Proof.
  intros Hwf -> Htr Hs Hq Hh Hok Hwf1 Hlen Harr Hslots Hkeep.
  assert (Hwfd : wf_dev d1).
  { apply wf_dev_set_chain; [done|]. by apply wf_chain_set_slots. }
  assert (Hnode : dev_data d1 !! node_index item = Some {| qs_data := Some arr |}).
  { unfold d1, set_slots. simpl. by apply list_lookup_insert_eq. }
  destruct (zlookup_in_range arr s_pos ltac:(lia)) as [slot Hslot].
  rewrite Hslot. simpl. destruct slot as [q|].
  - eexists. split; [done|]. unfold write_stage_post. simpl.
    repeat (split; [done|]). split; [eauto|]. repeat (split; [done|]).
    split; [|split; [done|]; split; [done|]; by left].
    apply zlookup_Some in Hslot as [_ Hslot].
    exact (Forall_lookup_1 _ _ _ _ Hslots Hslot).
  - unfold kmalloc. destruct (km_null K h1) eqn:Hnull.
    + eexists. split; [done|]. unfold write_stage_post. simpl.
      repeat (split; [done|]). split; [lia|]. split; [done|].
      right. repeat (split; [done|]). exists h1. split; [lia|done].
    + eexists. split; [done|]. unfold write_stage_post. simpl.
      repeat (split; [done|]). split; [lia|]. split; [done|].
      split; [done|]. split; [eauto|]. repeat (split; [done|]).
      split; [apply fresh_quantum_length; lia|]. split; [done|].
      split; [|by right].
      intros k Hk. destruct (decide (k = h1)) as [->|Hne]; [done|].
      apply Hok. lia.
Qed.

(** A write on a well-formed device always reaches the copy or leaves
    with an error, and [write_stage_post] tells where it stands. *)
Lemma write_upto_copy_spec intr dev count f_pos h :
  wf_dev dev -> is_file_pos f_pos ->
  exists st, write_upto_copy K intr dev count f_pos h = Some st
             /\ write_stage_post K intr dev count f_pos h st.
Proof.
  intros Hwf Hpos. pose proof Hwf as (Hgeo & Hsz & Hchain).
  unfold write_upto_copy. destruct intr.
  { eexists. split; [done|]. unfold write_stage_post. simpl.
    repeat (split; [done|]). by left. }
  pose proof (translate_good _ _ Hgeo _ Hpos) as Htr.
  pose proof (slot_range _ _ Hgeo f_pos (proj1 Hpos)) as Hs.
  pose proof (intra_range _ _ Hgeo f_pos) as Hq.
  rewrite Htr. simpl.
  set (item := to_int (f_pos / (dev_quantum dev * dev_qset dev))) in *.
  set (s_pos := f_pos `mod` (dev_quantum dev * dev_qset dev) / dev_quantum dev) in *.
  set (q_pos := (f_pos `mod` (dev_quantum dev * dev_qset dev)) `mod` dev_quantum dev) in *.
  pose proof (scull_follow_post K dev item h) as Hpost.
  destruct (scull_follow K dev item h) as [[dptr chain1] h1].
  destruct Hpost as (Hh & [m Hm] & Hr & _).
  assert (Hwf1 : wf_chain (dev_quantum dev) (dev_qset dev) chain1).
  { rewrite Hm. by apply wf_chain_grow. }
  assert (Hkeep1 : forall i j b, get_quantum (dev_data dev) i j = Some b ->
                                 get_quantum chain1 i j = Some b).
  { intros i j b Hb. rewrite Hm. by apply get_quantum_grow. }
  destruct dptr as [i|].
  2: { destruct Hr as (k & Hk & Hfail).
       eexists. split; [done|]. unfold write_stage_post. simpl.
       split; [by apply wf_dev_set_chain|]. repeat (split; [done|]).
       right. eauto. }
  destruct Hr as (-> & Hlen & Hok).
  destruct (lookup_lt_is_Some_2 _ _ Hlen) as [qs Hqs]. rewrite Hqs. simpl.
  destruct (qs_data qs) as [arr|] eqn:Harr.
  - destruct (wf_chain_lookup _ _ _ _ _ _ Hwf1 Hqs Harr) as [Hal Haok].
    apply (write_quantum_step false dev count f_pos h item s_pos q_pos
             chain1 h1 arr); try done.
    intros i j b Hb. simpl.
    eapply get_quantum_set_slots_keep; [done|by left|by apply Hkeep1].
  - unfold kmalloc. destruct (km_null K h1) eqn:Hnull.
    + eexists. split; [done|]. unfold write_stage_post. simpl.
      split; [by apply wf_dev_set_chain|]. repeat (split; [done|]).
      split; [lia|]. split; [done|]. right. repeat (split; [done|]).
      exists h1. split; [lia|done].
    + destruct Hgeo as (? & ? & ?).
      destruct (write_quantum_step false dev count f_pos h item s_pos q_pos
             chain1 (S h1) (blank_slots (dev_qset dev))) as (st & Hst & Hp);
        try done.
      * lia.
      * intros k Hk. destruct (decide (k = h1)) as [->|Hne]; [done|].
        apply Hok. lia.
      * apply blank_slots_length. lia.
      * apply blank_slots_ok.
      * intros i j b Hb. simpl.
        eapply get_quantum_set_slots_keep; [done|by right|by apply Hkeep1].
      * exists st. split; [|done]. exact Hst.
Qed.

End Writing.

Section WritingCalls.

Variable K : kmalloc_oracle.

(** In a good geometry the count is cut to what is left of the quantum. *)
Lemma clamp_to_quantum_min count quantum q_pos :
  is_size_t count -> 0 <= q_pos < quantum -> quantum <= INT_MAX ->
  clamp_to_quantum count quantum q_pos = Z.min count (quantum - q_pos).
Proof.
  intros Hc Hq Hmax. unfold clamp_to_quantum.
  rewrite to_int_id by (unfold INT_MIN, INT_MAX in *; lia).
  rewrite to_ulong_id by (unfold is_size_t, ULONG_MAX, INT_MAX in *; lia).
  destruct (count >? quantum - q_pos) eqn:E; lia.
Qed.

Lemma dev_data_grow_size (c : bool) dev size :
  dev_data (if c then set_size dev size else dev) = dev_data dev.
Proof. by destruct c. Qed.

Lemma scull_write_spec intr dev buf count f_pos h :
  wf_dev dev -> is_file_pos f_pos -> is_size_t count ->
  exists r, scull_write K intr dev buf count f_pos h = Some r
            /\ write_post K intr dev buf count f_pos h r.
Proof.
  intros Hwf Hpos Hcount.
  destruct (write_upto_copy_spec K intr dev count f_pos h Hwf Hpos)
    as (st & Hst & Hpost).
  unfold scull_write. rewrite Hst. simpl.
  destruct Hpost as (Hwfd & HQ & HS & Hsize & Hh & Hkeep & Hcase).
  destruct st as [rv d h'|i arr s_pos q q_pos n d h']; simpl in *.
  { eexists. split; [done|]. unfold write_post. simpl.
    repeat (split; [done|]). left. repeat (split; [done|]).
    destruct Hcase as [(-> & -> & _)|(-> & _ & Hk)]; [by left|right; by left]. }
  destruct Hcase as (-> & (item & Htr & ->) & Hs & Hq & Hnode & Harr & Hslots
                     & Hql & -> & Hok & Hslot).
  pose proof Hwf as ((HQ0 & HS0 & HQS) & _ & _).
  assert (HQmax : dev_quantum dev <= INT_MAX) by nia.
  rewrite (clamp_to_quantum_min count _ _ Hcount Hq HQmax) in *.
  set (n := Z.min count (dev_quantum dev - q_pos)) in *.
  assert (Hn : 0 <= n <= dev_quantum dev - q_pos)
    by (unfold is_size_t in Hcount; lia).
  destruct (copy_from_user_fits q q_pos buf n) as (q' & missed & Hcopy);
    [lia..|].
  rewrite Hcopy. simpl.
  destruct (copy_from_user_inv _ _ _ _ _ _ Hcopy)
    as (_ & _ & _ & Hlen' & Hmiss & Hbefore & Hafter & Hdata).
  set (arr' := <[Z.to_nat s_pos := Some q']> arr).
  set (chain2 := set_slots (dev_data d) (node_index item) arr').
  assert (Hilen : (node_index item < length (dev_data d))%nat)
    by (by eapply lookup_lt_Some).
  assert (Hwf2 : wf_chain (dev_quantum dev) (dev_qset dev) chain2).
  { destruct Hwfd as (_ & _ & Hc). rewrite HQ, HS in Hc.
    apply wf_chain_set_slots; [done| |].
    - unfold arr'. rewrite length_insert. done.
    - apply Forall_insert; [done|]. unfold slot_ok. lia. }
  assert (Hother : forall i j b,
             (i, j) <> (node_index item, s_pos) ->
             get_quantum (dev_data dev) i j = Some b ->
             get_quantum chain2 i j = Some b).
  { intros i j b Hne Hb. apply Hkeep in Hb. unfold chain2.
    destruct (decide (node_index item = i)) as [<-|Hi].
    - rewrite get_quantum_set_slots_eq by done.
      rewrite (get_quantum_lookup _ _ _ _ _ Hnode eq_refl) in Hb.
      unfold arr'. rewrite zlookup_insert_ne; [done|lia|congruence].
    - by rewrite get_quantum_set_slots_ne. }
  assert (Htarget : get_quantum chain2 (node_index item) s_pos = Some q').
  { unfold chain2. rewrite get_quantum_set_slots_eq by done.
    unfold arr'. rewrite zlookup_insert_eq by lia. done. }
  assert (Hwf2d : wf_dev (set_chain d chain2)).
  { apply wf_dev_set_chain; [done|]. by rewrite HQ, HS. }
  destruct (missed =? 0) eqn:Hm.
  2: { eexists. split; [done|]. unfold write_post. simpl.
       repeat (split; [done|]). left. repeat (split; [done|]).
       right. right. split; [done|]. split; [|done].
       apply Z.eqb_neq in Hm. lia. }
  apply Z.eqb_eq in Hm.
  eexists. split; [done|]. unfold write_post. simpl.
  assert (Hend : to_ulong (to_long (f_pos + n)) = f_pos + n).
  { rewrite to_ulong_to_long. apply to_ulong_id.
    unfold is_file_pos, is_size_t, LONG_MAX, ULONG_MAX, INT_MAX in *. lia. }
  rewrite Hend, dev_data_grow_size. simpl.
  split.
  { destruct (dev_size d <? f_pos + n) eqn:Hlt; [|done].
    destruct Hwf2d as (? & ? & ?). repeat split; try done; simpl;
      unfold is_file_pos, is_size_t, LONG_MAX, ULONG_MAX, INT_MAX in *; lia. }
  split; [by destruct (dev_size d <? f_pos + n)|].
  split; [by destruct (dev_size d <? f_pos + n)|].
  split; [done|]. right. split; [done|]. split; [done|].
  exists item, s_pos, q_pos, n, q'.
  split; [done|]. split; [done|]. split; [done|]. split; [done|].
  split; [by apply Hmiss|]. split.
  { apply to_long_id. unfold LONG_MIN, LONG_MAX, INT_MAX in *. lia. }
  split; [done|]. split.
  { destruct (dev_size d <? f_pos + n) eqn:Hlt; simpl; lia. }
  split; [done|]. split; [by apply Hdata|]. split; [|done].
  intros b k Hb Hk. apply Hkeep in Hb.
  rewrite (get_quantum_lookup _ _ _ _ _ Hnode eq_refl) in Hb.
  assert (q = b) as <-.
  { destruct Hslot as [Hsl|Hsl]; rewrite Hsl in Hb; simpl in Hb; congruence. }
  destruct Hk as [Hk|Hk]; [by apply Hbefore|by apply Hafter].
Qed.

End WritingCalls.

Section ReadingCalls.

Variable K : kmalloc_oracle.

Lemma get_quantum_Some chain i j q :
  get_quantum chain i j = Some q ->
  exists qs arr, chain !! i = Some qs /\ qs_data qs = Some arr
                 /\ zlookup arr j = Some (Some q).
Proof.
  unfold get_quantum. intros H.
  destruct (chain !! i) as [qs|] eqn:Hqs; [|done]. simpl in H.
  destruct (qs_data qs) as [arr|] eqn:Harr; [|done]. simpl in H.
  destruct (zlookup arr j) as [[q0|]|] eqn:Hsl; try done. simpl in H.
  injection H as ->. by exists qs, arr.
Qed.

Lemma wf_chain_quantum quantum qset chain i j q :
  wf_chain quantum qset chain -> get_quantum chain i j = Some q ->
  Z.of_nat (length q) = quantum.
Proof.
  intros Hwf Hq. apply get_quantum_Some in Hq as (qs & arr & Hqs & Harr & Hsl).
  destruct (wf_chain_lookup _ _ _ _ _ _ Hwf Hqs Harr) as [_ Hok].
  apply zlookup_Some in Hsl as [_ Hsl].
  exact (Forall_lookup_1 _ _ _ _ Hok Hsl).
Qed.

(** A read on a well-formed device returns, and leaves a well-formed
    device with the geometry, the size and the quanta it had. *)
Lemma scull_read_spec intr dev cap count f_pos h :
  wf_dev dev -> is_file_pos f_pos -> is_size_t count ->
  exists r, scull_read K intr dev cap count f_pos h = Some r
            /\ wf_dev (dev_after r)
            /\ dev_quantum (dev_after r) = dev_quantum dev
            /\ dev_qset (dev_after r) = dev_qset dev
            /\ dev_size (dev_after r) = dev_size dev
            /\ (h <= heap_after r)%nat
            /\ (forall i j b, get_quantum (dev_data dev) i j = Some b ->
                  get_quantum (dev_data (dev_after r)) i j = Some b).
Proof.
  intros Hwf Hpos Hcount. pose proof Hwf as (Hgeo & Hsz & Hchain).
  assert (Hst : exists st, read_upto_copy K intr dev count f_pos h = Some st).
  { unfold read_upto_copy. destruct intr; [eauto|].
    destruct (to_ulong f_pos >=? dev_size dev); [eauto|].
    rewrite (translate_good _ _ Hgeo _ Hpos). simpl.
    pose proof (slot_range _ _ Hgeo f_pos (proj1 Hpos)) as Hs.
    pose proof (scull_follow_post K dev
      (to_int (f_pos / (dev_quantum dev * dev_qset dev))) h) as Hpost.
    destruct (scull_follow K dev _ h) as [[dptr chain1] h1].
    destruct Hpost as (_ & [m Hm] & Hr & _).
    destruct dptr as [i|]; [|eauto]. destruct Hr as (-> & Hlen & _).
    destruct (lookup_lt_is_Some_2 _ _ Hlen) as [qs Hqs]. rewrite Hqs. simpl.
    destruct (qs_data qs) as [arr|] eqn:Harr; [|eauto].
    assert (Hwf1 : wf_chain (dev_quantum dev) (dev_qset dev) chain1).
    { rewrite Hm. by apply wf_chain_grow. }
    destruct (wf_chain_lookup _ _ _ _ _ _ Hwf1 Hqs Harr) as [Hal _].
    destruct (zlookup_in_range arr
      (f_pos `mod` (dev_quantum dev * dev_qset dev) / dev_quantum dev)
      ltac:(lia)) as [slot Hslot].
    rewrite Hslot. simpl. destruct slot; eauto. }
  destruct Hst as [st Hst].
  destruct (read_upto_copy_frame K _ _ _ _ _ _ Hst)
    as (HQ & HS & Hsize & [m Hm] & Hh).
  assert (Hwfd : wf_dev (rs_dev st)).
  { unfold wf_dev. rewrite HQ, HS, Hsize, Hm.
    split; [done|]. split; [done|]. by apply wf_chain_grow. }
  assert (Hkeep : forall i j b, get_quantum (dev_data dev) i j = Some b ->
                    get_quantum (dev_data (rs_dev st)) i j = Some b).
  { intros i j b Hb. rewrite Hm. by apply get_quantum_grow. }
  unfold scull_read. rewrite Hst. simpl.
  destruct st as [rv d h'|q q_pos n d h']; simpl in *; [eauto 10|].
  destruct (read_copy_inv K _ _ _ _ _ _ _ _ _ _ Hst)
    as (_ & _ & item & s_pos & Htr & Hq & ->).
  rewrite (translate_good _ _ Hgeo _ Hpos) in Htr. injection Htr as _ _ <-.
  pose proof (intra_range _ _ Hgeo f_pos) as Hqp.
  pose proof Hwfd as (_ & _ & Hwfc). rewrite HQ, HS in Hwfc.
  pose proof (wf_chain_quantum _ _ _ _ _ _ Hwfc Hq) as Hql.
  destruct Hgeo as (HQ0 & HS0 & HQS).
  assert (HQmax : dev_quantum dev <= INT_MAX) by nia.
  rewrite clamp_to_quantum_min by
    (done || (destruct (to_ulong (f_pos + count) >? dev_size dev);
              [apply to_ulong_size_t|done])).
  match goal with |- context [Z.min ?c _] => set (c0 := c);
    assert (Hc0 : is_size_t c0)
      by (unfold c0; destruct (to_ulong (f_pos + count) >? dev_size dev);
          [apply to_ulong_size_t|done]) end.
  destruct (copy_to_user_fits cap q
    ((f_pos `mod` (dev_quantum dev * dev_qset dev)) `mod` dev_quantum dev)
    (Z.min c0 (dev_quantum dev -
       (f_pos `mod` (dev_quantum dev * dev_qset dev)) `mod` dev_quantum dev)))
    as (data & missed & Hcopy); [unfold is_size_t in Hc0; lia..|].
  rewrite Hcopy. simpl.
  destruct (missed =? 0); eauto 10.
Qed.

(** A read inside the data whose quantum is there copies from it up to
    the end of the data or of the quantum and touches nothing. *)
Lemma scull_read_present dev cap count f_pos h item s_pos q_pos q :
  wf_dev dev -> is_file_pos f_pos -> 0 <= count <= LONG_MAX ->
  f_pos < dev_size dev ->
  translate f_pos (dev_quantum dev) (dev_qset dev) = Some (item, s_pos, q_pos) ->
  get_quantum (dev_data dev) (node_index item) s_pos = Some q ->
  let n := Z.min (Z.min count (dev_size dev - f_pos)) (dev_quantum dev - q_pos) in
  n <= Z.max 0 cap ->
  scull_read K false dev cap count f_pos h =
    Some (Call n (to_long (f_pos + n)) dev h
            (take (Z.to_nat n) (drop (Z.to_nat q_pos) q))).
Proof.
  intros Hwf Hpos Hcount Hin Htr Hq n Hcap.
  pose proof Hwf as (Hgeo & Hsz & Hchain).
  pose proof Htr as Htr'.
  rewrite (translate_good _ _ Hgeo _ Hpos) in Htr'. injection Htr' as _ _ Hqp.
  pose proof (intra_range _ _ Hgeo f_pos) as Hqr. rewrite Hqp in Hqr.
  pose proof (wf_chain_quantum _ _ _ _ _ _ Hchain Hq) as Hql.
  destruct Hgeo as (HQ0 & HS0 & HQS).
  assert (HQmax : dev_quantum dev <= INT_MAX) by nia.
  apply get_quantum_Some in Hq as (qs & arr & Hqs & Harr & Hsl).
  unfold scull_read, read_upto_copy.
  rewrite (to_ulong_id f_pos) by (by apply is_file_pos_size_t).
  destruct (f_pos >=? dev_size dev) eqn:Hge; [lia|].
  rewrite Htr. simpl.
  pose proof (scull_follow_post K dev item h) as Hpost.
  destruct (scull_follow K dev item h) as [[dptr chain1] h1].
  destruct Hpost as (_ & _ & _ & Hhere).
  destruct (Hhere (lookup_lt_Some _ _ _ Hqs)) as (-> & -> & ->).
  rewrite Hqs. simpl. rewrite Harr, Hsl. simpl.
  rewrite set_chain_same.
  assert (Hc' : (if to_ulong (f_pos + count) >? dev_size dev
                 then to_ulong (dev_size dev - f_pos) else count)
                = Z.min count (dev_size dev - f_pos)).
  { rewrite !to_ulong_id by
      (unfold is_file_pos, is_size_t, LONG_MAX, ULONG_MAX in *; lia).
    destruct (f_pos + count >? dev_size dev) eqn:E; lia. }
  rewrite Hc'.
  rewrite clamp_to_quantum_min
    by (done || unfold is_file_pos, is_size_t, LONG_MAX, ULONG_MAX in *; lia).
  fold n.
  assert (Hn : 0 <= n <= dev_quantum dev - q_pos) by (unfold n; lia).
  unfold copy_to_user.
  destruct (q_pos <? 0) eqn:E1; [lia|]. destruct (n <? 0) eqn:E2; [lia|].
  destruct (Z.of_nat (length q) <? q_pos + n) eqn:E3; [lia|].
  destruct (n <=? Z.max 0 cap) eqn:E4; [|lia]. simpl.
  rewrite (to_long_id n)
    by (unfold is_file_pos, LONG_MIN, LONG_MAX, INT_MAX in *; lia).
  done.
Qed.

End ReadingCalls.

(** ** Writing then reading a sequence of bytes *)

Section RoundTrip.

Variable K : kmalloc_oracle.
Hypothesis Hplenty : kmalloc_succeeds K.
Variables quantum qset : Z.
Hypothesis Hgeo : good_geometry quantum qset.

Local Abbreviation limit := (offset_limit quantum qset).
Local Abbreviation node := (node_of quantum qset).
Local Abbreviation slot := (slot_of quantum qset).
Local Abbreviation intra := (intra_of quantum qset).

Lemma below_limit p :
  0 <= p < limit ->
  is_file_pos p /\ 0 <= p / (quantum * qset) <= INT_MAX.
Proof.
  intros Hp. destruct Hgeo as (HQ & HS & HQS). unfold offset_limit in Hp.
  assert (0 < quantum * qset) by nia.
  split; [unfold is_file_pos, LONG_MAX, INT_MAX in *; lia|].
  split; [apply Z.div_pos; lia|].
  enough (p / (quantum * qset) < INT_MAX + 1) by lia.
  apply Z.div_lt_upper_bound; lia.
Qed.

Lemma translate_below_limit p :
  0 <= p < limit ->
  exists item,
    translate p quantum qset = Some (item, slot p, intra p)
    /\ node_index item = node p.
Proof.
  intros Hp. destruct (below_limit p Hp) as [Hpos Hitem].
  exists (to_int (p / (quantum * qset))). split.
  - by apply translate_good.
  - unfold node_index, node_of.
    rewrite to_int_id by (unfold INT_MIN, INT_MAX in *; lia).
    rewrite to_uint_id by lia. done.
Qed.

Lemma byte_at_coords dev p :
  dev_quantum dev = quantum -> dev_qset dev = qset -> 0 <= p < limit ->
  byte_at dev p = get_byte (dev_data dev) (node p) (slot p) (intra p).
Proof.
  intros HQ HS Hp. unfold byte_at. rewrite HQ, HS.
  destruct (translate_below_limit p Hp) as (item & -> & Hi). simpl.
  by rewrite Hi.
Qed.

(** Two offsets of the same quantum differ as their places in it. *)
Lemma same_coords p p' :
  0 <= p -> 0 <= p' -> node p = node p' -> slot p = slot p' ->
  p - p' = intra p - intra p'.
Proof.
  intros Hp Hp' Hn Hs. destruct Hgeo as (HQ & HS & HQS).
  assert (0 < quantum * qset) by nia.
  pose proof (recompose _ _ Hgeo p) as R. pose proof (recompose _ _ Hgeo p') as R'.
  assert (p / (quantum * qset) = p' / (quantum * qset)) as E.
  { unfold node_of in Hn.
    pose proof (Z.div_pos p (quantum * qset)).
    pose proof (Z.div_pos p' (quantum * qset)). lia. }
  unfold slot_of in Hs. unfold intra_of. rewrite E, Hs in R. lia.
Qed.

Lemma get_byte_Some chain i j k x :
  get_byte chain i j k = Some x ->
  exists b, get_quantum chain i j = Some b /\ zlookup b k = Some x.
Proof.
  unfold get_byte. intros H.
  destruct (get_quantum chain i j) as [b|]; [|done]. eauto.
Qed.

Lemma zlookup_nat {A} (l : list A) k : 0 <= k -> zlookup l k = l !! Z.to_nat k.
Proof. intros H. unfold zlookup. destruct (k <? 0) eqn:E; [lia|done]. Qed.

(** One call of [write] in the caller's loop: the device holds [pre],
    [buf] is offered behind it. *)
Lemma write_step dev pre (buf : list byte) h :
  wf_dev dev -> dev_quantum dev = quantum -> dev_qset dev = qset ->
  dev_size dev = Z.of_nat (length pre) ->
  buf <> [] -> Z.of_nat (length pre + length buf) <= limit ->
  (forall p, 0 <= p < Z.of_nat (length pre) ->
             byte_at dev p = pre !! Z.to_nat p) ->
  exists r n,
    scull_write K false dev buf (Z.of_nat (length buf))
                (Z.of_nat (length pre)) h = Some r
    /\ 1 <= n <= Z.of_nat (length buf)
    /\ retval r = n
    /\ pos_after r = Z.of_nat (length pre) + n
    /\ wf_dev (dev_after r)
    /\ dev_quantum (dev_after r) = quantum
    /\ dev_qset (dev_after r) = qset
    /\ dev_size (dev_after r) = Z.of_nat (length pre) + n
    /\ (forall p, 0 <= p < Z.of_nat (length pre) + n ->
                  byte_at (dev_after r) p = (pre ++ buf) !! Z.to_nat p).
Proof.
  intros Hwf HQ HS Hsize Hbuf Hlim Hpre.
  set (P := Z.of_nat (length pre)) in *.
  assert (Hlen : (0 < length buf)%nat) by (destruct buf; [done|simpl; lia]).
  assert (HP : 0 <= P < limit) by lia.
  destruct (below_limit P HP) as [HPpos _].
  destruct (scull_write_spec K false dev buf (Z.of_nat (length buf)) P h)
    as (r & Hr & Hpost); [done|done|
    unfold is_size_t, ULONG_MAX; unfold offset_limit, INT_MAX in *;
    destruct Hgeo as (? & ? & ?); unfold INT_MAX in *; lia|].
  destruct Hpost as (Hwf' & HQ' & HS' & Hh & [Herr|Hok]).
  { destruct Herr as (_ & _ & [[_ ?]|[(_ & k & _ & Hk)|(_ & ? & _)]]);
      [done| |lia]. by rewrite Hplenty in Hk. }
  destruct Hok as (_ & _ & item & s_pos & q_pos & n & q' & Htr & Hs & Hq & Hn
                   & Hnb & Hret & Hposa & Hsz & Htarget & Hnew & Hold & Hother).
  rewrite HQ, HS in *.
  destruct (translate_below_limit P HP) as (item' & Htr' & Hnode).
  rewrite Htr in Htr'. injection Htr' as <- -> ->.
  exists r, n. split; [done|]. split; [lia|]. split; [done|].
  assert (HPn : P + n <= limit) by lia.
  split.
  { rewrite Hposa. apply to_long_id.
    unfold offset_limit, LONG_MIN, LONG_MAX, INT_MAX in *. destruct Hgeo as (? & ? & ?).
    unfold INT_MAX in *. lia. }
  split; [done|]. split; [done|]. split; [done|]. split; [lia|].
  intros p Hp. rewrite byte_at_coords by (done || lia).
  destruct (decide (p < P)) as [Hlt|Hge].
  - (* a byte written by an earlier call *)
    rewrite lookup_app_l by lia.
    destruct (lookup_lt_is_Some_2 pre (Z.to_nat p) ltac:(lia)) as [x Hx].
    rewrite Hx. specialize (Hpre p ltac:(lia)).
    rewrite byte_at_coords, Hx in Hpre by (done || lia).
    apply get_byte_Some in Hpre as (b & Hb & Hbx).
    pose proof (intra_range _ _ Hgeo p) as Hip. fold (intra p) in Hip.
    unfold get_byte.
    destruct (decide ((node p, slot p) = (node P, slot P))) as [Heq|Hne].
    + injection Heq as En Es.
      pose proof (same_coords p P ltac:(lia) ltac:(lia) En Es) as Hd.
      rewrite En, Es, <- Hnode, Htarget. simpl.
      rewrite <- Hnode in En. rewrite En, Es in Hb.
      rewrite zlookup_nat in * by lia.
      rewrite (Hold b (Z.to_nat (intra p)) Hb); [done|]. left. lia.
    + rewrite (Hother (node p) (slot p) b); [done| |done].
      by rewrite Hnode.
  - (* a byte of this call *)
    set (k := p - P).
    destruct (same_quantum _ _ Hgeo P k) as (E1 & E2 & E3);
      [lia|lia|fold (intra P); lia|].
    replace (P + k) with p in * by lia.
    assert (En : node p = node P) by (unfold node_of; by rewrite E1).
    fold (slot p) (slot P) in E2. fold (intra p) (intra P) in E3.
    rewrite En, E2, E3. unfold get_byte. rewrite <- Hnode, Htarget. simpl.
    rewrite zlookup_nat by lia.
    rewrite lookup_app_r by lia.
    replace (Z.to_nat (intra P + k)) with (Z.to_nat (intra P) + Z.to_nat k)%nat
      by lia.
    rewrite Hnew by lia. f_equal. lia.
Qed.

(** The caller's loop around [write] stores the whole buffer. *)
Lemma write_all_correct fuel : forall dev pre (buf : list byte) h,
  wf_dev dev -> dev_quantum dev = quantum -> dev_qset dev = qset ->
  dev_size dev = Z.of_nat (length pre) ->
  (length buf <= fuel)%nat -> Z.of_nat (length pre + length buf) <= limit ->
  (forall p, 0 <= p < Z.of_nat (length pre) ->
             byte_at dev p = pre !! Z.to_nat p) ->
  exists dev' h',
    write_all K fuel dev buf (Z.of_nat (length pre)) h
      = Some (dev', Z.of_nat (length (pre ++ buf)), h')
    /\ wf_dev dev' /\ dev_quantum dev' = quantum /\ dev_qset dev' = qset
    /\ dev_size dev' = Z.of_nat (length (pre ++ buf))
    /\ (forall p, 0 <= p < Z.of_nat (length (pre ++ buf)) ->
                  byte_at dev' p = (pre ++ buf) !! Z.to_nat p).
Proof.
  induction fuel as [|fuel IH]; intros dev pre buf h Hwf HQ HS Hsize Hfuel Hlim Hpre.
  - destruct buf; [|simpl in Hfuel; lia]. rewrite app_nil_r.
    exists dev, h. repeat (split; [done|]); done.
  - destruct buf as [|b buf].
    { rewrite app_nil_r. exists dev, h. repeat (split; [done|]); done. }
    destruct (write_step dev pre (b :: buf) h)
      as (r & n & Hr & Hn & Hret & Hpos & Hwf' & HQ' & HS' & Hsize' & Hbytes);
      try done.
    cbn [write_all]. rewrite Hr. simpl mbind.
    destruct (retval r <? 0) eqn:Hneg; [lia|].
    set (pre' := pre ++ take (Z.to_nat n) (b :: buf)).
    set (buf' := drop (Z.to_nat n) (b :: buf)).
    assert (Hpb : pre' ++ buf' = pre ++ b :: buf).
    { unfold pre', buf'. by rewrite <- app_assoc, take_drop. }
    assert (Hlpre : Z.of_nat (length pre') = Z.of_nat (length pre) + n).
    { unfold pre'. rewrite length_app, length_take. lia. }
    assert (Hlbuf : (length buf' <= fuel)%nat).
    { unfold buf'. rewrite length_drop. simpl in *. lia. }
    destruct (IH (dev_after r) pre' buf' (heap_after r))
      as (dev' & h' & Hw & Hrest); try done.
    + lia.
    + rewrite <- length_app, Hpb, length_app. lia.
    + intros p Hp. rewrite Hbytes by lia. rewrite <- Hpb.
      apply lookup_app_l. lia.
    + exists dev', h'. rewrite Hret. fold buf'.
      rewrite Hpos, <- Hlpre, Hw, <- Hpb. done.
Qed.

(** One call of [read] in the caller's loop. *)
Lemma read_step dev (bytes : list byte) P h :
  wf_dev dev -> dev_quantum dev = quantum -> dev_qset dev = qset ->
  dev_size dev = Z.of_nat (length bytes) ->
  Z.of_nat (length bytes) <= limit -> 0 <= P < Z.of_nat (length bytes) ->
  (forall p, 0 <= p < Z.of_nat (length bytes) ->
             byte_at dev p = bytes !! Z.to_nat p) ->
  exists n,
    1 <= n <= Z.of_nat (length bytes) - P
    /\ scull_read K false dev (Z.of_nat (length bytes) - P)
                  (Z.of_nat (length bytes) - P) P h
       = Some (Call n (P + n) dev h
                 (take (Z.to_nat n) (drop (Z.to_nat P) bytes))).
Proof.
  intros Hwf HQ HS Hsize Hlim HP Hbytes.
  set (L := Z.of_nat (length bytes)) in *.
  assert (HPl : 0 <= P < limit) by lia.
  destruct (below_limit P HPl) as [HPpos _].
  destruct (translate_below_limit P HPl) as (item & Htr & Hnode).
  destruct (lookup_lt_is_Some_2 bytes (Z.to_nat P) ltac:(lia)) as [x Hx].
  pose proof (Hbytes P HP) as HbP.
  rewrite byte_at_coords, Hx in HbP by done.
  apply get_byte_Some in HbP as (q & Hq & _).
  pose proof (intra_range _ _ Hgeo P) as Hip. fold (intra P) in Hip.
  pose proof (wf_chain_quantum _ _ _ _ _ _ (proj2 (proj2 Hwf)) Hq) as Hql.
  rewrite HQ in Hql.
  set (n := Z.min (L - P) (quantum - intra P)).
  exists n. split; [lia|].
  rewrite (scull_read_present K dev (L - P) (L - P) P h item (slot P) (intra P) q);
    try done.
  2: { unfold LONG_MAX. unfold offset_limit, INT_MAX in *.
       destruct Hgeo as (? & ? & ?). unfold INT_MAX in *. lia. }
  2: lia. 2: by rewrite HQ, HS. 2: by rewrite Hnode. 2: lia.
  rewrite Hsize, HQ.
  replace (Z.min (Z.min (L - P) (L - P)) (quantum - intra P)) with n by lia.
  f_equal. f_equal.
  { apply to_long_id. unfold LONG_MIN, LONG_MAX, offset_limit, INT_MAX in *.
    destruct Hgeo as (? & ? & ?). unfold INT_MAX in *. lia. }
  apply list_eq. intros k.
  destruct (decide (k < Z.to_nat n)%nat) as [Hk|Hk].
  2: { rewrite !lookup_take_ge by lia. done. }
  rewrite !lookup_take_lt, !lookup_drop by done.
  specialize (Hbytes (P + Z.of_nat k) ltac:(lia)).
  rewrite byte_at_coords in Hbytes by (done || lia).
  destruct (same_quantum _ _ Hgeo P (Z.of_nat k)) as (E1 & E2 & E3);
    [lia|lia|fold (intra P); lia|].
  assert (En : node (P + Z.of_nat k) = node P) by (unfold node_of; by rewrite E1).
  fold (slot (P + Z.of_nat k)) (slot P) in E2.
  fold (intra (P + Z.of_nat k)) (intra P) in E3.
  rewrite En, E2, E3 in Hbytes. unfold get_byte in Hbytes.
  rewrite Hq in Hbytes. simpl in Hbytes.
  rewrite zlookup_nat in Hbytes by lia.
  replace (Z.to_nat (P + Z.of_nat k)) with (Z.to_nat P + k)%nat in Hbytes by lia.
  replace (Z.to_nat (intra P + Z.of_nat k)) with (Z.to_nat (intra P) + k)%nat
    in Hbytes by lia.
  done.
Qed.

(** The caller's loop around [read] returns what is stored from the
    position on. *)
Lemma read_all_correct dev (bytes : list byte) h fuel : forall P,
  wf_dev dev -> dev_quantum dev = quantum -> dev_qset dev = qset ->
  dev_size dev = Z.of_nat (length bytes) ->
  Z.of_nat (length bytes) <= limit -> 0 <= P <= Z.of_nat (length bytes) ->
  Z.of_nat (length bytes) - P <= Z.of_nat fuel ->
  (forall p, 0 <= p < Z.of_nat (length bytes) ->
             byte_at dev p = bytes !! Z.to_nat p) ->
  read_all K fuel dev (Z.of_nat (length bytes) - P) P h
    = Some (drop (Z.to_nat P) bytes).
Proof.
  induction fuel as [|fuel IH]; intros P Hwf HQ HS Hsize Hlim HP Hfuel Hbytes.
  - simpl. destruct (Z.of_nat (length bytes) - P <=? 0) eqn:E; [|lia].
    rewrite drop_ge by lia. done.
  - cbn [read_all].
    destruct (Z.of_nat (length bytes) - P <=? 0) eqn:E.
    { rewrite drop_ge by lia. done. }
    destruct (read_step dev bytes P h) as (n & Hn & Hr); try done; [lia|].
    rewrite Hr. simpl.
    destruct (n <? 0) eqn:Hneg; [lia|].
    replace (Z.of_nat (length bytes) - P - n)
      with (Z.of_nat (length bytes) - (P + n)) by lia.
    rewrite IH by (done || lia). simpl. f_equal.
    replace (Z.to_nat (P + n)) with (Z.to_nat P + Z.to_nat n)%nat by lia.
    rewrite <- drop_drop. apply take_drop.
Qed.

End RoundTrip.

(** ** Trimming *)

Section Trimming.

Lemma kfree_slots_count arr todo : forall i,
  (i + todo <= length arr)%nat ->
  kfree_slots arr i todo
    = Some (blocks_of_slots (take todo (drop i arr))).
Proof.
  induction todo as [|todo IH]; intros i Hlen; [done|].
  cbn [kfree_slots].
  destruct (lookup_lt_is_Some_2 arr i ltac:(lia)) as [slot Hslot].
  rewrite Hslot. simpl. rewrite IH by lia. simpl. f_equal.
  rewrite (drop_S _ _ _ Hslot). simpl. unfold blocks_of_slots.
  rewrite filter_cons. by destruct slot.
Qed.

Lemma trim_chain_count quantum qset chain :
  wf_chain quantum qset chain -> trim_chain qset chain = Some (blocks chain).
Proof.
  induction 1 as [|qs chain Hqs _ IH]; [done|].
  cbn [trim_chain]. rewrite IH. unfold blocks. cbn [fmap list_fmap sum_list].
  fold (blocks chain). unfold qset_ok in Hqs. unfold blocks_of_qset.
  destruct (qs_data qs) as [arr|]; [|simpl; f_equal; lia].
  destruct Hqs as [Hlen _].
  rewrite kfree_slots_count by (simpl; lia). simpl.
  rewrite drop_0, take_ge by lia. f_equal. lia.
Qed.

Lemma scull_trim_spec SCULL_QUANTUM SCULL_QSET dev :
  wf_chain (dev_quantum dev) (dev_qset dev) (dev_data dev) ->
  scull_trim SCULL_QUANTUM SCULL_QSET dev
    = Some (blocks (dev_data dev), scull_init_dev SCULL_QUANTUM SCULL_QSET).
Proof.
  intros Hwf. unfold scull_trim. by rewrite (trim_chain_count _ _ _ Hwf).
Qed.

Lemma wf_init_dev quantum qset :
  good_geometry quantum qset -> wf_dev (scull_init_dev quantum qset).
Proof.
  intros Hgeo. split; [done|]. split; [|by apply Forall_nil].
  simpl. unfold is_size_t, ULONG_MAX. lia.
Qed.

End Trimming.

(** ** Sequences of operations *)

Section Histories.

Variable K : kmalloc_oracle.
Variables SCULL_QUANTUM SCULL_QSET : Z.
Hypothesis Hdefault : good_geometry SCULL_QUANTUM SCULL_QSET.

(** Every operation with well-typed arguments returns on a well-formed
    device, leaves it well-formed, and keeps the size equal to the largest
    end position of a successful write since the last trim. *)
Lemma step_keeps st o :
  op_ok o -> wf_dev (h_dev st) -> dev_size (h_dev st) = h_high st ->
  exists st', step K SCULL_QUANTUM SCULL_QSET st o = Some st'
              /\ wf_dev (h_dev st') /\ dev_size (h_dev st') = h_high st'.
Proof.
  intros Hop Hwf Hsize. destruct o as [intr cap count f_pos|intr buf count f_pos|];
    simpl in *.
  - destruct Hop as [Hc Hp].
    destruct (scull_read_spec K intr (h_dev st) cap count f_pos (h_heap st))
      as (r & Hr & Hwf' & _ & _ & Hsz & _); [done..|].
    rewrite Hr. simpl. eexists. split; [done|]. simpl. split; [done|]. lia.
  - destruct Hop as [Hc Hp].
    destruct (scull_write_spec K intr (h_dev st) buf count f_pos (h_heap st))
      as (r & Hr & Hwf' & _ & _ & _ & Hcase); [done..|].
    rewrite Hr. simpl.
    destruct Hcase as [(_ & Hsz & Hret)|Hok].
    + assert (retval r < 0) as Hneg
        by (unfold ERESTARTSYS, ENOMEM, EFAULT in Hret;
            destruct Hret as [[-> _]|[[-> _]|[-> _]]]; lia).
      destruct (retval r <? 0) eqn:E; [|lia].
      eexists. split; [done|]. simpl. split; [done|]. lia.
    + destruct Hok as (_ & _ & item & s_pos & q_pos & n & q' & _ & _ & Hq & Hn
                       & _ & Hret & _ & Hsz & _).
      assert (0 <= retval r) as Hpos by (unfold is_size_t in Hc; lia).
      destruct (retval r <? 0) eqn:E; [lia|].
      eexists. split; [done|]. simpl. split; [done|]. lia.
  - destruct Hwf as (_ & _ & Hchain).
    rewrite (scull_trim_spec _ _ _ Hchain). simpl.
    eexists. split; [done|]. simpl. split; [|done]. by apply wf_init_dev.
Qed.

Lemma run_keeps ops : forall st,
  Forall op_ok ops -> wf_dev (h_dev st) -> dev_size (h_dev st) = h_high st ->
  exists st', run K SCULL_QUANTUM SCULL_QSET st ops = Some st'
              /\ wf_dev (h_dev st') /\ dev_size (h_dev st') = h_high st'.
Proof.
  induction ops as [|o ops IH]; intros st Hops Hwf Hsize; [by exists st|].
  apply Forall_cons in Hops as [Ho Hops].
  destruct (step_keeps st o Ho Hwf Hsize) as (st1 & Hst1 & Hwf1 & Hsize1).
  cbn [run]. rewrite Hst1. simpl. by apply IH.
Qed.

End Histories.

(** ** More on single calls *)

Section Calls.

Variable K : kmalloc_oracle.

(** Up to the copy, a write leaves the size alone. *)
Lemma write_upto_copy_size intr dev count f_pos h st :
  write_upto_copy K intr dev count f_pos h = Some st ->
  dev_size (ws_dev st) = dev_size dev.
Proof.
  unfold write_upto_copy. intros H. crunch; simpl; done.
Qed.

Lemma clamp_to_quantum_size_t count quantum q_pos :
  is_size_t count -> is_size_t (clamp_to_quantum count quantum q_pos).
Proof.
  intros Hc. unfold clamp_to_quantum.
  destruct (count >? _); [apply to_ulong_size_t|done].
Qed.

(** Only a count of 0 reads back as 0 once converted to [ssize_t]. *)
Lemma to_long_zero n : is_size_t n -> to_long n = 0 -> n = 0.
Proof.
  unfold is_size_t, ULONG_MAX, to_long, wrap_signed. intros Hn H.
  replace (2 ^ (64 - 1)) with 9223372036854775808 in H by reflexivity.
  replace (2 ^ 64) with 18446744073709551616 in H by reflexivity.
  destruct (Z_lt_le_dec n 9223372036854775808) as [Hlt|Hge].
  - rewrite Z.mod_small in H by lia. lia.
  - replace (n + 9223372036854775808)
      with (n - 9223372036854775808 + 1 * 18446744073709551616) in H by lia.
    rewrite Z_mod_plus_full, Z.mod_small in H by lia. lia.
Qed.

(** A read whose node is missing grows the chain when memory is there. *)
Lemma read_missing_node_grows dev cap count f_pos h item s_pos q_pos r :
  kmalloc_succeeds K ->
  to_ulong f_pos < dev_size dev ->
  translate f_pos (dev_quantum dev) (dev_qset dev) = Some (item, s_pos, q_pos) ->
  (length (dev_data dev) <= node_index item)%nat ->
  scull_read K false dev cap count f_pos h = Some r ->
  (length (dev_data dev) < length (dev_data (dev_after r)))%nat.
Proof.
  intros Hplenty Hin Htr Hmiss Hr.
  unfold scull_read, read_upto_copy in Hr.
  destruct (to_ulong f_pos >=? dev_size dev) eqn:Hge; [lia|].
  rewrite Htr in Hr. simpl in Hr.
  pose proof (scull_follow_post K dev item h) as Hpost.
  destruct (scull_follow K dev item h) as [[dptr chain] h1].
  destruct Hpost as (_ & _ & Hdptr & _).
  destruct dptr as [i|].
  2: { destruct Hdptr as (k & _ & Hk). by rewrite Hplenty in Hk. }
  destruct Hdptr as (-> & Hlen & _).
  assert (Hgrown : (length (dev_data dev) < length chain)%nat) by lia.
  crunch; simpl; done.
Qed.

End Calls.

Section Lengths.

Variable K : kmalloc_oracle.

Lemma write_upto_copy_length intr dev count f_pos h st :
  write_upto_copy K intr dev count f_pos h = Some st ->
  (length (dev_data dev) <= length (dev_data (ws_dev st)))%nat.
Proof.
  unfold write_upto_copy. intros H.
  destruct intr; [injection H as <-; simpl; lia|].
  destruct (translate f_pos (dev_quantum dev) (dev_qset dev))
    as [[[item s_pos] q_pos]|]; [|done].
  simpl in H.
  pose proof (scull_follow_post K dev item h) as Hpost.
  destruct (scull_follow K dev item h) as [[dptr chain] h1].
  destruct Hpost as (_ & [m Hm] & _).
  assert (Hlen : (length (dev_data dev) <= length chain)%nat)
    by (rewrite Hm, length_app; lia).
  clear Hm.
  crunch; simpl; unfold set_slots; rewrite ?length_insert; lia.
Qed.

(** A write never shortens the chain. *)
Lemma scull_write_length intr dev buf count f_pos h r :
  scull_write K intr dev buf count f_pos h = Some r ->
  (length (dev_data dev) <= length (dev_data (dev_after r)))%nat.
Proof.
  unfold scull_write. intros H.
  destruct (write_upto_copy K intr dev count f_pos h) as [st|] eqn:Hst; [|done].
  pose proof (write_upto_copy_length _ _ _ _ _ _ Hst) as Hlen.
  simpl in H. destruct st as [rv d h'|i arr s_pos q q_pos n d h']; simpl in *.
  { by injection H as <-. }
  destruct (copy_from_user q q_pos buf n) as [[q' missed]|]; [|done].
  simpl in H.
  destruct (missed =? 0); injection H as <-; simpl;
    rewrite ?dev_data_grow_size; simpl; unfold set_slots;
    rewrite length_insert; done.
Qed.

(** A read never shortens the chain. *)
Lemma scull_read_length intr dev cap count f_pos h r :
  scull_read K intr dev cap count f_pos h = Some r ->
  (length (dev_data dev) <= length (dev_data (dev_after r)))%nat.
Proof.
  unfold scull_read. intros H.
  destruct (read_upto_copy K intr dev count f_pos h) as [st|] eqn:Hst; [|done].
  destruct (read_upto_copy_frame K _ _ _ _ _ _ Hst) as (_ & _ & _ & [m Hm] & _).
  assert (Hlen : (length (dev_data dev) <= length (dev_data (rs_dev st)))%nat)
    by (rewrite Hm, length_app; lia).
  simpl in H. destruct st; simpl in *; crunch; simpl; done.
Qed.

End Lengths.

(** ** Reachable stores cover their size *)

Section Reachable.

Variable K : kmalloc_oracle.
Variables SCULL_QUANTUM SCULL_QSET scull_quantum scull_qset : Z.
Hypothesis Hdefault : good_geometry SCULL_QUANTUM SCULL_QSET.
Hypothesis Hinit : good_geometry scull_quantum scull_qset.

Local Abbreviation known_geometry :=
  (known_geometry SCULL_QUANTUM SCULL_QSET scull_quantum scull_qset).
Local Abbreviation reached :=
  (reached SCULL_QUANTUM SCULL_QSET scull_quantum scull_qset).

Lemma write_keeps_covered intr dev buf count f_pos h r :
  wf_dev dev -> covered dev -> is_file_pos f_pos -> is_size_t count ->
  f_pos < offset_limit (dev_quantum dev) (dev_qset dev) ->
  scull_write K intr dev buf count f_pos h = Some r ->
  covered (dev_after r).
Proof.
  intros Hwf [Hcov Hlim] Hpos Hcount Haddr Hr.
  pose proof (scull_write_length K _ _ _ _ _ _ _ Hr) as Hlen.
  destruct (scull_write_spec K intr dev buf count f_pos h Hwf Hpos Hcount)
    as (r' & Hr' & Hpost).
  rewrite Hr in Hr'. injection Hr' as <-.
  pose proof Hwf as (Hgeo & _ & _). pose proof Hgeo as (HQ0 & HS0 & HQS).
  assert (HQS0 : 0 < dev_quantum dev * dev_qset dev) by nia.
  destruct Hpost as (_ & HQ & HS & _ & [(_ & Hsize & _)|Hok]);
    unfold covered; rewrite HQ, HS.
  { rewrite Hsize. split; [nia|done]. }
  destruct Hok as (_ & _ & item & s_pos & q_pos & n & q' & Htr & Hs & Hq & Hn
                   & _ & _ & _ & Hsize & Htarget & _).
  destruct (translate_below_limit _ _ Hgeo f_pos) as (item' & Htr' & Hnode);
    [destruct Hpos; lia|].
  rewrite Htr in Htr'. injection Htr' as <- -> ->.
  apply get_quantum_Some in Htarget as (qs & _ & Hqs & _).
  apply lookup_lt_Some in Hqs. rewrite Hnode in Hqs. unfold node_of in Hqs.
  destruct (below_limit _ _ Hgeo f_pos) as [_ Hitem]; [destruct Hpos; lia|].
  pose proof (recompose _ _ Hgeo f_pos) as Hre.
  unfold slot_of, intra_of, offset_limit in *.
  set (i := f_pos / (dev_quantum dev * dev_qset dev)) in *.
  set (j := f_pos `mod` (dev_quantum dev * dev_qset dev) / dev_quantum dev) in *.
  set (k := (f_pos `mod` (dev_quantum dev * dev_qset dev)) `mod` dev_quantum dev) in *.
  assert (Hend : f_pos + n <= (i + 1) * (dev_quantum dev * dev_qset dev))
    by (unfold is_size_t in Hcount; nia).
  rewrite Hsize. split.
  - assert (i + 1 <= Z.of_nat (length (dev_data (dev_after r)))) by lia. nia.
  - nia.
Qed.

Lemma step_reached st o :
  op_ok o -> op_addressable scull_quantum scull_qset o ->
  op_addressable SCULL_QUANTUM SCULL_QSET o ->
  reached st ->
  exists st', step K SCULL_QUANTUM SCULL_QSET st o = Some st' /\ reached st'.
Proof.
  intros Hop Ha0 Ha1 (Hwf & Hcov & Hknown).
  destruct o as [intr cap count f_pos|intr buf count f_pos|]; simpl in *.
  - destruct Hop as [Hc Hp].
    destruct (scull_read_spec K intr (h_dev st) cap count f_pos (h_heap st))
      as (r & Hr & Hwf' & HQ & HS & Hsz & _); [done..|].
    pose proof (scull_read_length K _ _ _ _ _ _ _ Hr) as Hlen.
    rewrite Hr. simpl. eexists. split; [done|]. split; [done|]. simpl. split.
    + destruct Hcov as [Hcov Hlim]. unfold covered. rewrite HQ, HS, Hsz.
      destruct Hwf as ((? & ? & ?) & _). split; [nia|done].
    + unfold known_geometry. by rewrite HQ, HS.
  - destruct Hop as [Hc Hp].
    destruct (scull_write_spec K intr (h_dev st) buf count f_pos (h_heap st))
      as (r & Hr & Hwf' & HQ & HS & _); [done..|].
    assert (Haddr : f_pos < offset_limit (dev_quantum (h_dev st))
                                         (dev_qset (h_dev st))).
    { by destruct Hknown as [[-> ->]|[-> ->]]. }
    pose proof (write_keeps_covered _ _ _ _ _ _ _ Hwf Hcov Hp Hc Haddr Hr) as Hc'.
    rewrite Hr. simpl.
    destruct (retval r <? 0); eexists; (split; [done|]);
      (split; [done|]); simpl; (split; [done|]);
      unfold known_geometry; by rewrite HQ, HS.
  - destruct Hwf as (_ & _ & Hchain).
    rewrite (scull_trim_spec _ _ _ Hchain). simpl.
    eexists. split; [done|]. split; [by apply wf_init_dev|]. simpl. split.
    + unfold covered, offset_limit. simpl. destruct Hdefault as (? & ? & ?).
      unfold INT_MAX. nia.
    + by right.
Qed.

Lemma run_reached ops : forall st,
  Forall op_ok ops ->
  Forall (op_addressable scull_quantum scull_qset) ops ->
  Forall (op_addressable SCULL_QUANTUM SCULL_QSET) ops ->
  reached st ->
  exists st', run K SCULL_QUANTUM SCULL_QSET st ops = Some st' /\ reached st'.
Proof.
  induction ops as [|o ops IH]; intros st Hops Ha0 Ha1 Hst; [by exists st|].
  apply Forall_cons in Hops as [Ho Hops].
  apply Forall_cons in Ha0 as [Ho0 Ha0].
  apply Forall_cons in Ha1 as [Ho1 Ha1].
  destruct (step_reached st o Ho Ho0 Ho1 Hst) as (st1 & Hst1 & Hr1).
  cbn [run]. rewrite Hst1. simpl. by apply IH.
Qed.

(** On a device that covers its size, every position below the size has
    its node on the chain. *)
Lemma covered_node_present dev f_pos :
  wf_dev dev -> covered dev -> 0 <= f_pos < dev_size dev ->
  exists item s_pos q_pos,
    translate f_pos (dev_quantum dev) (dev_qset dev) = Some (item, s_pos, q_pos)
    /\ (node_index item < length (dev_data dev))%nat.
Proof.
  intros (Hgeo & _ & _) [Hcov Hlim] Hp.
  pose proof Hgeo as (HQ0 & HS0 & HQS).
  assert (HQS0 : 0 < dev_quantum dev * dev_qset dev) by nia.
  destruct (translate_below_limit _ _ Hgeo f_pos) as (item & Htr & Hnode);
    [lia|].
  exists item, (slot_of (dev_quantum dev) (dev_qset dev) f_pos),
         (intra_of (dev_quantum dev) (dev_qset dev) f_pos).
  split; [done|]. rewrite Hnode. unfold node_of.
  assert (f_pos / (dev_quantum dev * dev_qset dev)
          < Z.of_nat (length (dev_data dev))).
  { apply Z.div_lt_upper_bound; [done|]. nia. }
  pose proof (Z.div_pos f_pos (dev_quantum dev * dev_qset dev)). lia.
Qed.

End Reachable.

(** ** Writes on any device *)

Section AnyDevice.

Variable K : kmalloc_oracle.

Lemma zlookup_blank_slots_inv qset j (slot : option (list byte)) :
  zlookup (blank_slots qset) j = Some slot -> slot = None.
Proof.
  intros H. apply zlookup_Some in H as [_ H].
  unfold blank_slots in H. apply lookup_replicate in H. tauto.
Qed.

(** Where a write that got the semaphore stands before the copy, whatever
    the device: it has left with [-ENOMEM] after a failed allocation, or
    every allocation succeeded and the quantum of the position is at hand.
    The quanta the device held are kept. *)
Lemma write_upto_copy_inv dev count f_pos h st :
  write_upto_copy K false dev count f_pos h = Some st ->
  (forall i j b, get_quantum (dev_data dev) i j = Some b ->
                 get_quantum (dev_data (ws_dev st)) i j = Some b)
  /\ match st with
     | WLeave rv d h' =>
         rv = - ENOMEM /\ exists k, (h <= k < h')%nat /\ km_null K k = true
     | WCopy i arr s_pos q q_pos n d h' =>
         (exists item,
            translate f_pos (dev_quantum dev) (dev_qset dev)
              = Some (item, s_pos, q_pos)
            /\ i = node_index item)
         /\ dev_data d !! i = Some {| qs_data := Some arr |}
         /\ n = clamp_to_quantum count (dev_quantum dev) q_pos
         /\ (zlookup arr s_pos = Some (Some q) \/ zlookup arr s_pos = Some None)
         /\ (forall k, (h <= k < h')%nat -> km_null K k = false)
     end.
Proof.
  unfold write_upto_copy. intros H.
  destruct (translate f_pos (dev_quantum dev) (dev_qset dev))
    as [[[item s_pos] q_pos]|] eqn:Htr; [|done].
  simpl in H.
  pose proof (scull_follow_post K dev item h) as Hpost.
  destruct (scull_follow K dev item h) as [[dptr chain1] h1].
  destruct Hpost as (Hh & [m Hm] & Hr & _).
  assert (Hkeep1 : forall i j b, get_quantum (dev_data dev) i j = Some b ->
                                 get_quantum chain1 i j = Some b).
  { intros i j b Hb. rewrite Hm. by apply get_quantum_grow. }
  destruct dptr as [i|]; [|by injection H as <-].
  destruct Hr as (-> & Hlen & Hok).
  destruct (chain1 !! node_index item) as [qs|] eqn:Hqs; [|done]. simpl in H.
  (* the slot array: the one of the node, or a first one *)
  assert (Harr : (exists arr h2,
             (forall i j b, get_quantum (dev_data dev) i j = Some b ->
                get_quantum (set_slots chain1 (node_index item) arr) i j = Some b)
             /\ (h1 <= h2)%nat
             /\ (forall k, (h <= k < h2)%nat -> km_null K k = false)
             /\ (slot ← zlookup arr s_pos;
                 let '(quant, h3) :=
                   match slot with
                   | Some q => (Some q, h2)
                   | None =>
                       match kmalloc K h2 with
                       | (None, h') => (None, h')
                       | (Some junk, h') =>
                           (Some (fresh_quantum junk (dev_quantum dev)), h')
                       end
                   end in
                 match quant with
                 | None =>
                     Some (WLeave (- ENOMEM)
                             (set_chain (set_chain dev chain1)
                                (set_slots chain1 (node_index item) arr)) h3)
                 | Some q =>
                     Some (WCopy (node_index item) arr s_pos q q_pos
                             (clamp_to_quantum count (dev_quantum dev) q_pos)
                             (set_chain (set_chain dev chain1)
                                (set_slots chain1 (node_index item) arr)) h3)
                 end) = Some st)
             \/ (st = WLeave (- ENOMEM) (set_chain dev chain1) (S h1)
                 /\ km_null K h1 = true)).
  { destruct (qs_data qs) as [arr|] eqn:Hdata.
    - left. exists arr, h1. split; [|done].
      intros i j b Hb. eapply get_quantum_set_slots_keep; [done|by left|auto].
    - unfold kmalloc in H. destruct (km_null K h1) eqn:Hnull.
      + right. by injection H as <-.
      + left. exists (blank_slots (dev_qset dev)), (S h1). split.
        { intros i j b Hb.
          eapply get_quantum_set_slots_keep; [done|by right|auto]. }
        split; [lia|]. split; [|done].
        intros k Hk. destruct (decide (k = h1)) as [->|Hne]; [done|].
        apply Hok. lia. }
  clear H.
  destruct Harr as [(arr & h2 & Hkeep & Hh2 & Hok2 & H)|[-> Hnull]].
  2: { simpl. split; [done|]. split; [done|]. exists h1. split; [lia|done]. }
  destruct (zlookup arr s_pos) as [slot|] eqn:Hslot; [|done]. simpl in H.
  assert (Hnode : set_slots chain1 (node_index item) arr !! node_index item
                  = Some {| qs_data := Some arr |}).
  { unfold set_slots. by apply list_lookup_insert_eq. }
  destruct slot as [q|].
  { injection H as <-. simpl. split; [done|]. split; [eauto|].
    split; [done|]. split; [done|]. split; [by left|done]. }
  unfold kmalloc in H. destruct (km_null K h2) eqn:Hnull; injection H as <-; simpl.
  - split; [done|]. split; [done|]. exists h2. split; [lia|done].
  - split; [done|]. split; [eauto|]. split; [done|]. split; [done|].
    split; [by right|].
    intros k Hk. destruct (decide (k = h2)) as [->|Hne]; [done|].
    apply Hok2. lia.
Qed.

(** A write of no byte, on any device: if it returns and none of its
    allocations failed, it returned 0, moved neither the position nor any
    stored byte, made sure the quantum of the position exists and raised
    the size to the position. *)
Lemma scull_write_nothing dev buf f_pos h r :
  is_file_pos f_pos ->
  scull_write K false dev buf 0 f_pos h = Some r ->
  (forall k, (h <= k < heap_after r)%nat -> km_null K k = false) ->
  retval r = 0
  /\ pos_after r = f_pos
  /\ dev_size (dev_after r) = Z.max (dev_size dev) f_pos
  /\ (forall i j b, get_quantum (dev_data dev) i j = Some b ->
        get_quantum (dev_data (dev_after r)) i j = Some b)
  /\ exists item s_pos q_pos qs arr q,
       translate f_pos (dev_quantum dev) (dev_qset dev)
         = Some (item, s_pos, q_pos)
       /\ dev_data (dev_after r) !! node_index item = Some qs
       /\ qs_data qs = Some arr
       /\ zlookup arr s_pos = Some (Some q).
Proof.
  intros Hpos Hr Hnofail. unfold scull_write in Hr.
  destruct (write_upto_copy K false dev 0 f_pos h) as [st|] eqn:Hst; [|done].
  pose proof (write_upto_copy_size K _ _ _ _ _ _ Hst) as Hsize.
  destruct (write_upto_copy_inv _ _ _ _ _ Hst) as [Hkeep Hcase].
  simpl in Hr. destruct st as [rv d h'|i arr s_pos q q_pos n d h']; simpl in *.
  { injection Hr as <-. simpl in *. destruct Hcase as (_ & k & Hk & Hfail).
    by rewrite Hnofail in Hfail. }
  destruct Hcase as ((item & Htr & ->) & Hnode & Hn & Hslot & _).
  assert (n = 0) as ->.
  { rewrite Hn. unfold clamp_to_quantum.
    pose proof (to_ulong_size_t (to_int (dev_quantum dev - q_pos))) as [? _].
    destruct (0 >? _) eqn:E; lia. }
  destruct (copy_from_user q q_pos buf 0) as [[q' missed]|] eqn:Hcopy; [|done].
  simpl in Hr.
  destruct (copy_from_user_inv _ _ _ _ _ _ Hcopy)
    as (Hoff & _ & Hfit & _ & Hmiss & Hbefore & Hafter & _).
  assert (missed = 0) as -> by (apply Hmiss; lia).
  assert (q' = q) as ->.
  { apply list_eq. intros k. rewrite Z.add_0_r in Hafter.
    destruct (decide (k < Z.to_nat q_pos)%nat); [by apply Hbefore|].
    apply Hafter. lia. }
  assert (Hin : 0 <= s_pos < Z.of_nat (length arr)).
  { destruct Hslot as [Hs|Hs]; apply zlookup_Some in Hs; tauto. }
  assert (Hilen : (node_index item < length (dev_data d))%nat)
    by (by eapply lookup_lt_Some).
  simpl in Hr. rewrite Z.add_0_r in Hr.
  rewrite to_long_id in Hr
    by (unfold is_file_pos, LONG_MIN, ULONG_MAX in *; lia).
  rewrite (to_long_id f_pos) in Hr
    by (unfold is_file_pos, LONG_MIN in *; lia).
  rewrite (to_ulong_id f_pos) in Hr by (by apply is_file_pos_size_t).
  injection Hr as <-. simpl. rewrite dev_data_grow_size. simpl.
  split; [done|]. split; [done|]. split.
  { rewrite <- Hsize. destruct (dev_size d <? f_pos) eqn:E; simpl; lia. }
  split.
  - intros i j b Hb. apply Hkeep in Hb.
    destruct (decide (node_index item = i)) as [<-|Hi].
    + rewrite get_quantum_set_slots_eq by done.
      rewrite (get_quantum_lookup _ _ _ _ _ Hnode eq_refl) in Hb.
      destruct (decide (s_pos = j)) as [<-|Hj].
      * rewrite zlookup_insert_eq by done.
        destruct Hslot as [Hs|Hs]; rewrite Hs in Hb; simpl in *; congruence.
      * rewrite zlookup_insert_ne by (done || lia). done.
    + by rewrite get_quantum_set_slots_ne.
  - exists item, s_pos, q_pos, {| qs_data := Some (<[Z.to_nat s_pos := Some q]> arr) |},
           (<[Z.to_nat s_pos := Some q]> arr), q.
    split; [done|]. split.
    { unfold set_slots. by apply list_lookup_insert_eq. }
    split; [done|]. by apply zlookup_insert_eq.
Qed.

End AnyDevice.

(** * The properties of the specification *)

(** ** Offset translation *)

(** C2, as amended: for every offset [0 <= offset] and every positive
    quantum [Q] and node capacity [S] such that [Q * S] and the node index
    [offset / (Q * S)] fit an [int], the triple the code computes is
    [node_index = offset / (Q * S)], [slot_index = (offset mod (Q * S)) / Q],
    [intra_offset = (offset mod (Q * S)) mod Q], and
    [node_index * Q * S + slot_index * Q + intra_offset = offset]. *)
Theorem translate_recompose (offset Q S : Z) :
  0 <= offset -> 0 < Q -> 0 < S ->
  Q * S <= INT_MAX -> offset / (Q * S) <= INT_MAX ->
  exists node_index slot_index intra_offset,
    translate offset Q S = Some (node_index, slot_index, intra_offset)
    /\ node_index = offset / (Q * S)
    /\ slot_index = (offset mod (Q * S)) / Q
    /\ intra_offset = (offset mod (Q * S)) mod Q
    /\ node_index * Q * S + slot_index * Q + intra_offset = offset.
Proof.
  intros Hoff HQ HS HQS Hitem.
  assert (Hgeo : good_geometry Q S) by done.
  assert (HQS0 : 0 < Q * S) by nia.
  assert (Hpos : is_file_pos offset).
  { split; [done|].
    assert (offset < (INT_MAX + 1) * (Q * S)).
    { pose proof (Z.mul_succ_div_gt offset (Q * S) HQS0). nia. }
    unfold LONG_MAX, INT_MAX in *. nia. }
  exists (offset / (Q * S)), ((offset mod (Q * S)) / Q), ((offset mod (Q * S)) mod Q).
  split.
  - rewrite (translate_good _ _ Hgeo _ Hpos). do 3 f_equal.
    apply to_int_id. pose proof (Z.div_pos offset (Q * S)).
    unfold INT_MIN. lia.
  - repeat split; try done. by apply recompose.
Qed.

(** C2, the claim as stated fails: with [Q = S = 1] the offset [2^32] is
    translated to node 0, slot 0, offset 0, because [item] is an [int]. *)
Lemma translate_truncates :
  exists node_index slot_index intra_offset,
    translate (2 ^ 32) 1 1 = Some (node_index, slot_index, intra_offset)
    /\ node_index * 1 * 1 + slot_index * 1 + intra_offset <> 2 ^ 32.
Proof. exists 0, 0, 0. split; [by vm_compute|done]. Qed.

(** ** Round trip *)

(** C1, as amended: for every byte sequence of length [L], every positive
    quantum [Q] and node capacity [S] with [Q * S <= INT_MAX] and
    [L <= 2^31 * Q * S], on an allocator that does not fail, writing from
    position 0 until all [L] bytes are accepted and then reading from
    position 0 until [L] bytes are returned gives the original bytes;
    [L] calls of each kind are enough. *)
Theorem round_trip (K : kmalloc_oracle) (Q S : Z) (bytes : list byte) (fuel : nat) :
  kmalloc_succeeds K ->
  0 < Q -> 0 < S -> Q * S <= INT_MAX ->
  Z.of_nat (length bytes) <= (INT_MAX + 1) * (Q * S) ->
  (length bytes <= fuel)%nat ->
  exists dev h,
    write_all K fuel (scull_init_dev Q S) bytes 0 0
      = Some (dev, Z.of_nat (length bytes), h)
    /\ dev_size dev = Z.of_nat (length bytes)
    /\ read_all K fuel dev (Z.of_nat (length bytes)) 0 h = Some bytes.
Proof.
  intros Hplenty HQ HS HQS Hlen Hfuel.
  assert (Hgeo : good_geometry Q S) by done.
  destruct (write_all_correct K Hplenty Q S Hgeo fuel
              (scull_init_dev Q S) [] bytes 0%nat)
    as (dev & h & Hw & Hwf & HQ' & HS' & Hsize & Hbytes); try done.
  { by apply wf_init_dev. }
  { simpl. intros p Hp. lia. }
  simpl in *. exists dev, h. split; [done|]. split; [done|].
  pose proof (read_all_correct K Q S Hgeo dev bytes h fuel 0) as Hr.
  rewrite Z.sub_0_r in Hr. rewrite Hr; try done; lia.
Qed.

(** C1, the claim as stated fails: with [Q = S = 65536] the product
    [Q * S] is 0 in [int], the first write divides by it, and no byte is
    ever accepted. *)
Lemma round_trip_overflow :
  ~ exists fuel dev h,
      write_all kmalloc_ok fuel (scull_init_dev 65536 65536) ["A"%byte] 0 0
        = Some (dev, 1, h)
      /\ read_all kmalloc_ok fuel dev 1 0 h = Some ["A"%byte].
Proof.
  intros (fuel & dev & h & Hw & _).
  assert (Htrap : scull_write kmalloc_ok false (scull_init_dev 65536 65536)
                    ["A"%byte] 1 0 0 = None) by (by vm_compute).
  destruct fuel; [done|]. cbn [write_all] in Hw. simpl length in Hw.
  change (Z.of_nat 1) with 1 in Hw. by rewrite Htrap in Hw.
Qed.

(** C5: with quantum 4 and two slots per node, writing "ABCDEFGHIJ" from
    position 0 takes three calls, which return 4, 4 and 2 (two calls are
    not enough); the size is then 10 and reading from position 0 until 10
    bytes are returned gives "ABCDEFGHIJ". *)
Theorem ten_bytes_scenario (junk : nat -> nat -> byte) :
  let K := plentiful junk in
  exists r1 r2 r3,
    scull_write K false (scull_init_dev 4 2) alphabet 10 0 0 = Some r1
    /\ retval r1 = 4 /\ pos_after r1 = 4
    /\ scull_write K false (dev_after r1) (drop 4 alphabet) 6 4 (heap_after r1)
       = Some r2
    /\ retval r2 = 4 /\ pos_after r2 = 8
    /\ scull_write K false (dev_after r2) (drop 8 alphabet) 2 8 (heap_after r2)
       = Some r3
    /\ retval r3 = 2 /\ pos_after r3 = 10
    /\ dev_size (dev_after r3) = 10
    /\ write_all K 3 (scull_init_dev 4 2) alphabet 0 0
       = Some (dev_after r3, 10, heap_after r3)
    /\ write_all K 2 (scull_init_dev 4 2) alphabet 0 0 = None
    /\ read_all K 3 (dev_after r3) 10 0 (heap_after r3) = Some alphabet.
Proof.
  intros K. do 3 eexists.
  split; [by vm_compute|]. split; [done|]. split; [done|].
  split; [by vm_compute|]. split; [done|]. split; [done|].
  split; [by vm_compute|]. split; [done|]. split; [done|].
  split; [done|]. split; [by vm_compute|]. split; [by vm_compute|].
  by vm_compute.
Qed.

(** ** Reads and the chain *)

(** What a read does to the chain: it appends blank nodes at most, and
    changes nothing of the device when it does not have to look for a
    missing node. *)
Lemma scull_read_chain (K : kmalloc_oracle) (intr : bool) (dev : scull_dev)
    (cap count f_pos : Z) (h : nat) (r : call) :
  scull_read K intr dev cap count f_pos h = Some r ->
  (exists m, dev_data (dev_after r) = dev_data dev ++ replicate m blank_qset)
  /\ (intr = true \/ dev_size dev <= to_ulong f_pos
      \/ (exists item s_pos q_pos,
            translate f_pos (dev_quantum dev) (dev_qset dev)
              = Some (item, s_pos, q_pos)
            /\ (node_index item < length (dev_data dev))%nat) ->
      dev_after r = dev /\ heap_after r = h).
Proof.
  intros Hr. unfold scull_read in Hr.
  destruct (read_upto_copy K intr dev count f_pos h) as [st|] eqn:Hst; [|done].
  split.
  - destruct (read_upto_copy_frame K _ _ _ _ _ _ Hst) as (_ & _ & _ & Hm & _).
    simpl in Hr. destruct st; simpl in *; crunch; simpl; done.
  - intros Hcase.
    destruct (read_untouched K _ _ _ _ _ _ Hst Hcase) as [Hdev Hheap].
    simpl in Hr. destruct st; simpl in *; crunch; simpl; done.
Qed.

(** C3, as amended: a read changes the node chain at most by appending
    blank nodes, never a slot array or a quantum; it leaves the device,
    hence its node chain, and the allocator as they are whenever the wait
    for the semaphore is interrupted, or the position is at or past the
    size, or the node the position translates to is already on the chain. *)
Theorem read_keeps_chain (K : kmalloc_oracle) (intr : bool) (dev : scull_dev)
    (cap count f_pos : Z) (h : nat) (r : call) :
  scull_read K intr dev cap count f_pos h = Some r ->
  (exists m, dev_data (dev_after r) = dev_data dev ++ replicate m blank_qset)
  /\ (intr = true \/ dev_size dev <= to_ulong f_pos
      \/ (exists item s_pos q_pos,
            translate f_pos (dev_quantum dev) (dev_qset dev)
              = Some (item, s_pos, q_pos)
            /\ (node_index item < length (dev_data dev))%nat) ->
      dev_data (dev_after r) = dev_data dev
      /\ dev_after r = dev /\ heap_after r = h).
Proof.
  intros Hr. destruct (scull_read_chain K _ _ _ _ _ _ _ Hr) as [Hgrow Hsame].
  split; [done|]. intros Hcase. destruct (Hsame Hcase) as [Hdev Hheap].
  split; [by rewrite Hdev|done].
Qed.

(** In every state reached from the empty store by reads, trims and writes
    at offsets whose node index fits an [int], the node of every position
    below the size is on the chain: there a read changes nothing of the
    device. *)
Lemma reachable_read_keeps_chain (K : kmalloc_oracle)
    (SCULL_QUANTUM SCULL_QSET scull_quantum scull_qset : Z) (ops : list op)
    (intr : bool) (cap count f_pos : Z) :
  good_geometry SCULL_QUANTUM SCULL_QSET ->
  good_geometry scull_quantum scull_qset ->
  Forall op_ok ops ->
  Forall (op_addressable scull_quantum scull_qset) ops ->
  Forall (op_addressable SCULL_QUANTUM SCULL_QSET) ops ->
  is_size_t count -> is_file_pos f_pos ->
  exists st r,
    run K SCULL_QUANTUM SCULL_QSET (start scull_quantum scull_qset) ops = Some st
    /\ scull_read K intr (h_dev st) cap count f_pos (h_heap st) = Some r
    /\ dev_after r = h_dev st /\ heap_after r = h_heap st.
Proof.
  intros Hdefault Hinit Hops Ha0 Ha1 Hcount Hpos.
  destruct (run_reached K SCULL_QUANTUM SCULL_QSET scull_quantum scull_qset
              Hdefault ops (start scull_quantum scull_qset))
    as (st & Hst & Hwf & Hcov & _);
    try done.
  { split; [by apply wf_init_dev|]. split; [|by left].
    unfold covered, offset_limit. simpl. destruct Hinit as (? & ? & ?).
    unfold INT_MAX. nia. }
  destruct (scull_read_spec K intr (h_dev st) cap count f_pos (h_heap st))
    as (r & Hr & _); [done..|].
  exists st, r. split; [done|]. split; [done|].
  apply (scull_read_chain _ _ _ _ _ _ _ _ Hr).
  destruct (decide (dev_size (h_dev st) <= f_pos)) as [Hge|Hlt].
  - right. left. rewrite to_ulong_id by (by apply is_file_pos_size_t). done.
  - right. right. apply covered_node_present; [done|done|].
    destruct Hpos. lia.
Qed.

(** C3, the claim as stated fails.  On a device whose size is 1 and whose
    chain is empty, a read at position 0 puts a node on the chain.  Such a
    device is also reached from the empty store: with quantum 1 and one
    slot per node, a write of one byte at position [2^32] lands in node 0
    ([item] is an [int]) and sets the size to [2^32 + 1]; the read at
    position 1 that follows adds node 1. *)
Lemma read_grows_chain :
  (exists r,
     scull_read kmalloc_ok false unbacked 1 1 0 0 = Some r
     /\ dev_data unbacked = []
     /\ dev_data (dev_after r) = [blank_qset])
  /\ (exists r1 r2,
        scull_write kmalloc_ok false (scull_init_dev 1 1) ["A"%byte] 1 (2 ^ 32) 0
          = Some r1
        /\ scull_read kmalloc_ok false (dev_after r1) 1 1 1 (heap_after r1)
           = Some r2
        /\ length (dev_data (dev_after r1)) = 1%nat
        /\ length (dev_data (dev_after r2)) = 2%nat).
Proof.
  split.
  - eexists. split; [by vm_compute|]. done.
  - do 2 eexists. split; [by vm_compute|]. split; [by vm_compute|]. done.
Qed.

(** ** The size *)

(** C4, as amended: in every state reached from the empty store by reads,
    writes and trims, the size equals the largest end position (position
    plus bytes transferred) of a successful write since the last trim, and
    0 when there was none.  Every such sequence of operations runs to its
    end. *)
Theorem size_is_high_water (K : kmalloc_oracle)
    (SCULL_QUANTUM SCULL_QSET scull_quantum scull_qset : Z) (ops : list op) :
  good_geometry SCULL_QUANTUM SCULL_QSET ->
  good_geometry scull_quantum scull_qset ->
  Forall op_ok ops ->
  exists st,
    run K SCULL_QUANTUM SCULL_QSET (start scull_quantum scull_qset) ops = Some st
    /\ dev_size (h_dev st) = h_high st.
Proof.
  intros Hdefault Hinit Hops.
  destruct (run_keeps K _ _ Hdefault ops (start scull_quantum scull_qset))
    as (st & Hst & _ & Hsize); try done.
  - by apply wf_init_dev.
  - by exists st.
Qed.

(** C4, the claim as stated fails: one write of one byte at position 5 of
    the empty store leaves the size at 6, with 1 byte transferred. *)
Lemma size_exceeds_written :
  exists st,
    run kmalloc_ok 4000 1000 (start 4 2) [OpWrite false ["A"%byte] 1 5] = Some st
    /\ h_written st = 1
    /\ dev_size (h_dev st) = 6
    /\ ~ dev_size (h_dev st) <= h_written st.
Proof. eexists. split; [by vm_compute|]. simpl. repeat split; lia. Qed.

(** ** Faults *)

(** C6: when [copy_to_user] in a read, or [copy_from_user] in a write, does
    not copy everything, the call returns [-EFAULT] and the position and
    the size are what they were; the read hands over no byte. *)
Theorem fault_changes_nothing (K : kmalloc_oracle) (intr : bool)
    (dev : scull_dev) (count f_pos : Z) (h : nat) :
  (forall cap q q_pos n d h' data missed,
      read_upto_copy K intr dev count f_pos h = Some (RCopy q q_pos n d h') ->
      copy_to_user cap q q_pos n = Some (data, missed) ->
      missed <> 0 ->
      exists r, scull_read K intr dev cap count f_pos h = Some r
                /\ retval r = - EFAULT
                /\ pos_after r = f_pos
                /\ dev_size (dev_after r) = dev_size dev
                /\ out r = [])
  /\ (forall buf i arr s_pos q q_pos n d h' q' missed,
         write_upto_copy K intr dev count f_pos h
           = Some (WCopy i arr s_pos q q_pos n d h') ->
         copy_from_user q q_pos buf n = Some (q', missed) ->
         missed <> 0 ->
         exists r, scull_write K intr dev buf count f_pos h = Some r
                   /\ retval r = - EFAULT
                   /\ pos_after r = f_pos
                   /\ dev_size (dev_after r) = dev_size dev).
Proof.
  split.
  - intros cap q q_pos n d h' data missed Hst Hcopy Hmiss.
    destruct (read_upto_copy_frame K _ _ _ _ _ _ Hst) as (_ & _ & Hsize & _).
    unfold scull_read. rewrite Hst. simpl. rewrite Hcopy. simpl.
    apply Z.eqb_neq in Hmiss. rewrite Hmiss. eexists. by split.
  - intros buf i arr s_pos q q_pos n d h' q' missed Hst Hcopy Hmiss.
    pose proof (write_upto_copy_size K _ _ _ _ _ _ Hst) as Hsize.
    unfold scull_write. rewrite Hst. simpl. rewrite Hcopy. simpl.
    apply Z.eqb_neq in Hmiss. rewrite Hmiss. eexists. by split.
Qed.

(** ** Holes *)

(** C7: a read (the semaphore acquired) at a position below the size
    whose node is not on the chain, or has no slot array, or has no quantum
    in the slot of the position, returns 0, which is no error, and hands
    over no byte. *)
Theorem hole_reads_nothing (K : kmalloc_oracle) (dev : scull_dev)
    (cap count f_pos : Z) (h : nat) (item s_pos q_pos : Z) :
  0 <= f_pos < dev_size dev ->
  translate f_pos (dev_quantum dev) (dev_qset dev) = Some (item, s_pos, q_pos) ->
  dev_data dev !! node_index item = None
  \/ (exists qs, dev_data dev !! node_index item = Some qs
                 /\ qs_data qs = None)
  \/ (exists qs arr, dev_data dev !! node_index item = Some qs
                     /\ qs_data qs = Some arr
                     /\ zlookup arr s_pos = Some None) ->
  exists r, scull_read K false dev cap count f_pos h = Some r
            /\ retval r = 0 /\ out r = [] /\ pos_after r = f_pos.
Proof.
  intros _ Htr Hhole.
  assert (Hh : hole (dev_data dev) (node_index item) s_pos).
  { unfold hole.
    destruct Hhole as [->|[(qs & -> & ->)|(qs & arr & -> & -> & Hs)]]; done. }
  destruct (read_hole K dev count f_pos h item s_pos q_pos Htr Hh)
    as (d & h' & Hst).
  unfold scull_read. rewrite Hst. simpl. eexists. by split.
Qed.

(** C10: a read that returns 0 leaves the position and the size as they
    were. *)
Theorem empty_read_stays (K : kmalloc_oracle) (intr : bool) (dev : scull_dev)
    (cap count f_pos : Z) (h : nat) (r : call) :
  is_size_t count -> is_file_pos f_pos ->
  scull_read K intr dev cap count f_pos h = Some r ->
  retval r = 0 ->
  pos_after r = f_pos /\ dev_size (dev_after r) = dev_size dev.
Proof.
  intros Hcount Hpos Hr Hret. unfold scull_read in Hr.
  destruct (read_upto_copy K intr dev count f_pos h) as [st|] eqn:Hst; [|done].
  destruct (read_upto_copy_frame K _ _ _ _ _ _ Hst) as (_ & _ & Hsize & _).
  simpl in Hr. destruct st as [rv d h'|q q_pos n d h']; simpl in *.
  { injection Hr as <-. by split. }
  destruct (read_copy_inv K _ _ _ _ _ _ _ _ _ _ Hst) as (_ & _ & _ & _ & _ & _ & Hn).
  assert (Hnt : is_size_t n).
  { rewrite Hn. apply clamp_to_quantum_size_t.
    destruct (to_ulong (f_pos + count) >? dev_size dev);
      [apply to_ulong_size_t|done]. }
  destruct (copy_to_user cap q q_pos n) as [[data missed]|]; [|done].
  simpl in Hr. destruct (missed =? 0); injection Hr as <-; simpl in *.
  - apply (to_long_zero n Hnt) in Hret. rewrite Hret, Z.add_0_r.
    split; [|done].
    apply to_long_id. unfold is_file_pos, LONG_MIN in *. lia.
  - unfold EFAULT in Hret. lia.
Qed.

(** ** Trim *)

(** C8: whenever trim returns, it leaves an empty chain, size 0 and the
    default quantum and node capacity, and trimming again gives that same
    state; it returns on every store whose slot arrays have the size they
    were allocated with, having released every node, slot array and
    quantum; on a store whose chain is empty it releases nothing and leaves
    that same empty state. *)
Theorem trim_resets (SCULL_QUANTUM SCULL_QSET : Z) (dev : scull_dev) :
  (forall freed dev',
      scull_trim SCULL_QUANTUM SCULL_QSET dev = Some (freed, dev') ->
      dev_data dev' = [] /\ blocks (dev_data dev') = 0%nat
      /\ dev_size dev' = 0
      /\ dev_quantum dev' = SCULL_QUANTUM /\ dev_qset dev' = SCULL_QSET
      /\ scull_trim SCULL_QUANTUM SCULL_QSET dev' = Some (0%nat, dev'))
  /\ (wf_chain (dev_quantum dev) (dev_qset dev) (dev_data dev) ->
      scull_trim SCULL_QUANTUM SCULL_QSET dev
        = Some (blocks (dev_data dev), scull_init_dev SCULL_QUANTUM SCULL_QSET))
  /\ (dev_data dev = [] ->
      scull_trim SCULL_QUANTUM SCULL_QSET dev
        = Some (0%nat, scull_init_dev SCULL_QUANTUM SCULL_QSET)).
Proof.
  split; [|split].
  - intros freed dev' H. unfold scull_trim in H.
    destruct (trim_chain (dev_qset dev) (dev_data dev)); [|done].
    simpl in H. injection H as _ <-. by repeat split.
  - apply scull_trim_spec.
  - intros Hempty. unfold scull_trim. by rewrite Hempty.
Qed.

(** ** Writes of no byte *)

(** C9: a write of length 0 at a position [P] (the semaphore acquired)
    that returns, none of the allocations it makes having failed, returns 0
    and leaves [P] alone;
    every quantum the store held is unchanged; the node, the slot array and
    the quantum [P] translates to are there afterwards; and the size is the
    larger of the old size and [P].  On a well-formed store the write does
    return. *)
Theorem empty_write_allocates (K : kmalloc_oracle) (dev : scull_dev)
    (buf : list byte) (P : Z) (h : nat) :
  is_file_pos P ->
  (forall r,
      scull_write K false dev buf 0 P h = Some r ->
      (forall k, (h <= k < heap_after r)%nat -> km_null K k = false) ->
      retval r = 0
      /\ pos_after r = P
      /\ dev_size (dev_after r) = Z.max (dev_size dev) P
      /\ (forall i j b, get_quantum (dev_data dev) i j = Some b ->
            get_quantum (dev_data (dev_after r)) i j = Some b)
      /\ exists item s_pos q_pos qs arr q,
           translate P (dev_quantum dev) (dev_qset dev)
             = Some (item, s_pos, q_pos)
           /\ dev_data (dev_after r) !! node_index item = Some qs
           /\ qs_data qs = Some arr
           /\ zlookup arr s_pos = Some (Some q))
  /\ (wf_dev dev -> exists r, scull_write K false dev buf 0 P h = Some r).
Proof.
  intros HP. split.
  - intros r Hr Hnofail. by apply (scull_write_nothing K dev buf P h r).
  - intros Hwf.
    destruct (scull_write_spec K false dev buf 0 P h) as (r & Hr & _);
      [done|done|unfold is_size_t, ULONG_MAX; lia|].
    by exists r.
Qed.

(** * Instances *)

Lemma translate_recompose_witness :
  (0 <= 21 /\ 0 < 4 /\ 0 < 2 /\ 4 * 2 <= INT_MAX /\ 21 / (4 * 2) <= INT_MAX)
  /\ exists node_index slot_index intra_offset,
       translate 21 4 2 = Some (node_index, slot_index, intra_offset)
       /\ node_index = 21 / (4 * 2)
       /\ slot_index = (21 mod (4 * 2)) / 4
       /\ intra_offset = (21 mod (4 * 2)) mod 4
       /\ node_index * 4 * 2 + slot_index * 4 + intra_offset = 21.
Proof.
  split; [by vm_compute|].
  apply (translate_recompose 21 4 2); by vm_compute.
Defined.

Lemma round_trip_witness :
  (kmalloc_succeeds kmalloc_ok /\ 0 < 4 /\ 0 < 2 /\ 4 * 2 <= INT_MAX
   /\ Z.of_nat (length alphabet) <= (INT_MAX + 1) * (4 * 2)
   /\ (length alphabet <= 10)%nat)
  /\ exists dev h,
       write_all kmalloc_ok 10 (scull_init_dev 4 2) alphabet 0 0
         = Some (dev, Z.of_nat (length alphabet), h)
       /\ dev_size dev = Z.of_nat (length alphabet)
       /\ read_all kmalloc_ok 10 dev (Z.of_nat (length alphabet)) 0 h
          = Some alphabet.
Proof.
  assert (Hok : kmalloc_succeeds kmalloc_ok) by (intros k; reflexivity).
  assert (Hfuel : (length alphabet <= 10)%nat) by (simpl; lia).
  split; [by vm_compute|].
  apply (round_trip kmalloc_ok 4 2 alphabet 10); done || by vm_compute.
Defined.

Lemma read_keeps_chain_witness :
  scull_read kmalloc_ok false holed 1 1 5 0
    = Some (Call 1 6 holed 0 ["A"%byte])
  /\ (exists m, dev_data (dev_after (Call 1 6 holed 0 ["A"%byte]))
                = dev_data holed ++ replicate m blank_qset)
  /\ (false = true \/ dev_size holed <= to_ulong 5
      \/ (exists item s_pos q_pos,
            translate 5 (dev_quantum holed) (dev_qset holed)
              = Some (item, s_pos, q_pos)
            /\ (node_index item < length (dev_data holed))%nat) ->
      dev_data (dev_after (Call 1 6 holed 0 ["A"%byte])) = dev_data holed
      /\ dev_after (Call 1 6 holed 0 ["A"%byte]) = holed
      /\ heap_after (Call 1 6 holed 0 ["A"%byte]) = 0%nat).
Proof.
  assert (Hr : scull_read kmalloc_ok false holed 1 1 5 0
               = Some (Call 1 6 holed 0 ["A"%byte])) by (by vm_compute).
  split; [done|].
  exact (read_keeps_chain kmalloc_ok false holed 1 1 5 0 _ Hr).
Defined.

Lemma size_is_high_water_witness :
  (good_geometry 4000 1000 /\ good_geometry 4 2
   /\ Forall op_ok [OpWrite false alphabet 10 0; OpRead false 4 4 0; OpTrim;
                    OpWrite false ["A"%byte] 1 5])
  /\ exists st,
       run kmalloc_ok 4000 1000 (start 4 2)
           [OpWrite false alphabet 10 0; OpRead false 4 4 0; OpTrim;
            OpWrite false ["A"%byte] 1 5] = Some st
       /\ dev_size (h_dev st) = h_high st.
Proof.
  assert (Hdefault : good_geometry 4000 1000) by (by vm_compute).
  assert (Hinit : good_geometry 4 2) by (by vm_compute).
  assert (Hops : Forall op_ok [OpWrite false alphabet 10 0; OpRead false 4 4 0;
                               OpTrim; OpWrite false ["A"%byte] 1 5]).
  { repeat constructor; by vm_compute. }
  split; [done|].
  by apply (size_is_high_water kmalloc_ok 4000 1000 4 2).
Defined.

Lemma fault_changes_nothing_witness :
  (exists r, scull_read kmalloc_ok false holed 0 1 5 0 = Some r
             /\ retval r = - EFAULT /\ pos_after r = 5
             /\ dev_size (dev_after r) = dev_size holed /\ out r = [])
  /\ (exists r, scull_write kmalloc_ok false holed [] 1 5 0 = Some r
                /\ retval r = - EFAULT /\ pos_after r = 5
                /\ dev_size (dev_after r) = dev_size holed).
Proof.
  split.
  - eapply (proj1 (fault_changes_nothing kmalloc_ok false holed 1 5 0) 0);
      [by vm_compute|by vm_compute|done].
  - eapply (proj2 (fault_changes_nothing kmalloc_ok false holed 1 5 0) []);
      [by vm_compute|by vm_compute|done].
Defined.

Lemma hole_reads_nothing_witness :
  (0 <= 0 < dev_size holed
   /\ translate 0 (dev_quantum holed) (dev_qset holed) = Some (0, 0, 0))
  /\ exists r, scull_read kmalloc_ok false holed 4 4 0 0 = Some r
               /\ retval r = 0 /\ out r = [] /\ pos_after r = 0.
Proof.
  split; [by vm_compute|].
  apply (hole_reads_nothing kmalloc_ok holed 4 4 0 0 0 0 0);
    [by vm_compute|by vm_compute|].
  right. right. eexists _, _. split; [by vm_compute|]. by split.
Defined.

Lemma empty_read_stays_witness :
  (is_size_t 4 /\ is_file_pos 0
   /\ scull_read kmalloc_ok false holed 4 4 0 0 = Some (Call 0 0 holed 0 [])
   /\ retval (Call 0 0 holed 0 []) = 0)
  /\ pos_after (Call 0 0 holed 0 []) = 0
  /\ dev_size (dev_after (Call 0 0 holed 0 [])) = dev_size holed.
Proof.
  split; [by vm_compute|].
  apply (empty_read_stays kmalloc_ok false holed 4 4 0 0); by vm_compute.
Defined.

Lemma trim_resets_witness :
  wf_chain (dev_quantum holed) (dev_qset holed) (dev_data holed)
  /\ scull_trim 4000 1000 holed = Some (3%nat, scull_init_dev 4000 1000)
  /\ (forall freed dev',
        scull_trim 4000 1000 holed = Some (freed, dev') ->
        dev_data dev' = [] /\ blocks (dev_data dev') = 0%nat
        /\ dev_size dev' = 0
        /\ dev_quantum dev' = 4000 /\ dev_qset dev' = 1000
        /\ scull_trim 4000 1000 dev' = Some (0%nat, dev')).
Proof.
  assert (Hwf : wf_chain (dev_quantum holed) (dev_qset holed) (dev_data holed)).
  { repeat constructor. }
  destruct (trim_resets 4000 1000 holed) as (Hany & Hreturns & _).
  split; [done|]. split; [exact (Hreturns Hwf)|exact Hany].
Defined.

Lemma empty_write_allocates_witness :
  (is_file_pos 5 /\ wf_dev (scull_init_dev 4 2))
  /\ exists r,
       scull_write kmalloc_ok false (scull_init_dev 4 2) [] 0 5 0 = Some r
       /\ retval r = 0
       /\ pos_after r = 5
       /\ dev_size (dev_after r) = Z.max (dev_size (scull_init_dev 4 2)) 5
       /\ (forall i j b,
             get_quantum (dev_data (scull_init_dev 4 2)) i j = Some b ->
             get_quantum (dev_data (dev_after r)) i j = Some b)
       /\ exists item s_pos q_pos qs arr q,
            translate 5 (dev_quantum (scull_init_dev 4 2))
                        (dev_qset (scull_init_dev 4 2))
              = Some (item, s_pos, q_pos)
            /\ dev_data (dev_after r) !! node_index item = Some qs
            /\ qs_data qs = Some arr
            /\ zlookup arr s_pos = Some (Some q).
Proof.
  assert (Hwf : wf_dev (scull_init_dev 4 2)).
  { split; [by vm_compute|]. split; [by vm_compute|]. constructor. }
  assert (Hpos : is_file_pos 5) by (by vm_compute).
  split; [done|].
  destruct (empty_write_allocates kmalloc_ok (scull_init_dev 4 2) [] 5 0 Hpos)
    as [Hany Hreturns].
  destruct (Hreturns Hwf) as [r Hr]. exists r. split; [done|].
  apply (Hany r Hr). intros k _. reflexivity.
Defined.

(** * Further properties of the driver *)

(** ** The exact effect of following the chain *)

Section FollowExact.

Variable K : kmalloc_oracle.

Lemma follow_loop_exact n : forall qs chain h,
  (qs < length chain)%nat ->
  follow_exact K chain h (qs + n) (follow_loop K n qs chain h).
Proof.
  induction n as [|n IH]; intros qs chain h Hqs; simpl.
  - unfold follow_exact. replace (qs + 0 + 1 - length chain)%nat with O by lia.
    simpl. rewrite app_nil_r. repeat split; try lia.
  - destruct (decide (S qs < length chain)%nat) as [Hnext|Hlast].
    + specialize (IH (S qs) chain h Hnext).
      by replace (qs + S n)%nat with (S qs + n)%nat by lia.
    + unfold kmalloc. destruct (km_null K h) eqn:Hnull.
      * unfold follow_exact. exists O. simpl. rewrite app_nil_r, Nat.add_0_r.
        split; [lia|]. split; [done|]. split; [lia|]. split; [done|].
        intros; lia.
      * assert (Hqs' : (S qs < length (chain ++ [blank_qset]))%nat).
        { rewrite length_app. simpl. lia. }
        specialize (IH (S qs) (chain ++ [blank_qset]) (S h) Hqs').
        replace (qs + S n)%nat with (S qs + n)%nat by lia.
        unfold follow_exact in *.
        destruct (follow_loop K n (S qs) (chain ++ [blank_qset]) (S h))
          as [[r chain'] h'].
        rewrite length_app in IH. simpl in IH.
        replace (S qs + n + 1 - length chain)%nat
          with (S (S qs + n + 1 - (length chain + 1)))%nat by lia.
        destruct r as [i|].
        -- destruct IH as (-> & -> & -> & Hok).
           split; [done|]. split; [by rewrite <- app_assoc|]. split; [lia|].
           intros k Hk. destruct (decide (k = h)) as [->|Hne]; [done|].
           apply Hok. lia.
        -- destruct IH as (m & Hm & -> & -> & Hfail & Hok).
           exists (S m). split; [lia|]. split; [by rewrite <- app_assoc|].
           split; [lia|]. split.
           { by replace (h + S m)%nat with (S h + m)%nat by lia. }
           intros k Hk. destruct (decide (k = h)) as [->|Hne]; [done|].
           apply Hok. lia.
Qed.

Lemma scull_follow_exact dev n h :
  follow_exact K (dev_data dev) h (node_index n) (scull_follow K dev n h).
Proof.
  unfold scull_follow, node_index.
  destruct (dev_data dev) as [|qs0 chain] eqn:Hdata.
  - unfold kmalloc. destruct (km_null K h) eqn:Hnull.
    + unfold follow_exact. exists O. simpl. rewrite Nat.add_0_r.
      split; [lia|]. split; [done|]. split; [lia|]. split; [done|].
      intros; lia.
    + pose proof (follow_loop_exact (Z.to_nat (to_uint n)) 0 [blank_qset] (S h))
        as Hex.
      simpl in Hex. specialize (Hex ltac:(lia)). unfold follow_exact in *.
      destruct (follow_loop K (Z.to_nat (to_uint n)) 0 [blank_qset] (S h))
        as [[r chain'] h'].
      simpl in *.
      replace (Z.to_nat (to_uint n) + 1 - 0)%nat
        with (S (Z.to_nat (to_uint n) + 1 - 1))%nat by lia.
      destruct r as [i|].
      * destruct Hex as (-> & -> & -> & Hok).
        split; [done|]. split; [done|]. split; [lia|].
        intros k Hk. destruct (decide (k = h)) as [->|Hne]; [done|].
        apply Hok. lia.
      * destruct Hex as (m & Hm & -> & -> & Hfail & Hok).
        exists (S m). split; [lia|]. split; [done|]. split; [lia|]. split.
        { by replace (h + S m)%nat with (S h + m)%nat by lia. }
        intros k Hk. destruct (decide (k = h)) as [->|Hne]; [done|].
        apply Hok. lia.
  - apply (follow_loop_exact (Z.to_nat (to_uint n)) 0 (qs0 :: chain) h).
    simpl. lia.
Qed.

End FollowExact.

(** ** Counting blocks *)

Section Blocks.

Variable K : kmalloc_oracle.

Lemma successes_none h : successes K h h = O.
Proof. unfold successes. by rewrite Nat.sub_diag. Qed.

Lemma successes_split h m h' :
  (h <= m <= h')%nat ->
  successes K h h' = (successes K h m + successes K m h')%nat.
Proof.
  intros Hm. unfold successes.
  replace (h' - h)%nat with ((m - h) + (h' - m))%nat by lia.
  rewrite seq_app, filter_app, length_app.
  by replace (h + (m - h))%nat with m by lia.
Qed.

Lemma successes_all h h' :
  (forall k, (h <= k < h')%nat -> km_null K k = false) ->
  successes K h h' = (h' - h)%nat.
Proof.
  intros Hok. unfold successes.
  assert (Hall : forall n a, (h <= a)%nat -> (a + n <= h')%nat ->
            length (filter (fun k => km_null K k = false) (seq a n)) = n).
  { induction n as [|n IH]; intros a Ha Hn; [done|].
    simpl. rewrite filter_cons_True by (apply Hok; lia).
    simpl. rewrite IH by lia. done. }
  destruct (decide (h <= h')%nat); [apply Hall; lia|].
  by replace (h' - h)%nat with O by lia.
Qed.

Lemma successes_failed h : km_null K h = true -> successes K h (S h) = O.
Proof.
  intros Hfail. unfold successes.
  replace (S h - h)%nat with 1%nat by lia. simpl.
  rewrite filter_cons. case_decide; [congruence|done].
Qed.

Lemma blocks_cons qs l : blocks (qs :: l) = (blocks_of_qset qs + blocks l)%nat.
Proof. reflexivity. Qed.

Lemma blocks_app l1 l2 : blocks (l1 ++ l2) = (blocks l1 + blocks l2)%nat.
Proof.
  induction l1 as [|qs l1 IH]; [done|].
  rewrite <- app_comm_cons, !blocks_cons, IH. lia.
Qed.

Lemma blocks_blank m : blocks (replicate m blank_qset) = m.
Proof.
  induction m as [|m IH]; [done|].
  change (replicate (S m) blank_qset) with (blank_qset :: replicate m blank_qset).
  by rewrite blocks_cons, IH.
Qed.

Lemma blocks_insert chain i qs qs' :
  chain !! i = Some qs ->
  (blocks (<[i := qs']> chain) + blocks_of_qset qs
   = blocks chain + blocks_of_qset qs')%nat.
Proof.
  intros Hqs. rewrite <- (take_drop_middle chain i qs Hqs) at 2.
  rewrite (insert_take_drop chain i qs') by (by eapply lookup_lt_Some).
  rewrite !blocks_app, !blocks_cons. lia.
Qed.

Lemma blocks_of_slots_insert (arr : list (option (list byte))) j old x :
  arr !! j = Some old ->
  (blocks_of_slots (<[j := x]> arr) + (if old is Some _ then 1 else 0)
   = blocks_of_slots arr + (if x is Some _ then 1 else 0))%nat.
Proof.
  intros Hold. unfold blocks_of_slots.
  rewrite <- (take_drop_middle arr j old Hold) at 2.
  rewrite (insert_take_drop arr j x) by (by eapply lookup_lt_Some).
  rewrite !filter_app, !filter_cons, !length_app.
  destruct old, x; repeat case_decide; simpl; try lia; exfalso;
    repeat match goal with
           | H : is_Some None |- _ => by destruct H
           | H : ~ is_Some (Some _) |- _ => by apply H
           end.
Qed.

Lemma blocks_of_blank_slots qset : blocks_of_slots (blank_slots qset) = O.
Proof.
  unfold blocks_of_slots, blank_slots.
  induction (Z.to_nat qset) as [|n IH]; [done|].
  simpl. rewrite filter_cons. case_decide as H; [|done].
  by destruct H.
Qed.

(** Walking the chain makes one node per successful allocation. *)
Lemma scull_follow_blocks dev n h r chain' h' :
  scull_follow K dev n h = (r, chain', h') ->
  (h <= h')%nat
  /\ blocks chain' = (blocks (dev_data dev) + successes K h h')%nat.
Proof.
  intros H. pose proof (scull_follow_exact K dev n h) as Hex.
  rewrite H in Hex. unfold follow_exact in Hex. destruct r as [i|].
  - destruct Hex as (_ & -> & -> & Hok). split; [lia|].
    rewrite blocks_app, blocks_blank, (successes_all _ _ Hok). lia.
  - destruct Hex as (m & _ & -> & -> & Hfail & Hok). split; [lia|].
    rewrite blocks_app, blocks_blank.
    rewrite (successes_split h (h + m)) by lia.
    rewrite (successes_all _ _ Hok).
    replace (h + m + 1)%nat with (S (h + m)) by lia.
    rewrite (successes_failed _ Hfail). lia.
Qed.

End Blocks.

Section BlockAccounts.

Variable K : kmalloc_oracle.

Lemma successes_succ_ok h h1 :
  (h <= h1)%nat -> km_null K h1 = false ->
  successes K h (S h1) = (successes K h h1 + 1)%nat.
Proof.
  intros Hh Hok. rewrite (successes_split K h h1 (S h1)) by lia. f_equal.
  rewrite successes_all; [lia|]. intros k Hk. by replace k with h1 by lia.
Qed.

Lemma successes_succ_failed h h1 :
  (h <= h1)%nat -> km_null K h1 = true ->
  successes K h (S h1) = successes K h h1.
Proof.
  intros Hh Hfail. rewrite (successes_split K h h1 (S h1)) by lia.
  rewrite (successes_failed K _ Hfail). lia.
Qed.

(** A read makes one node per successful allocation, and nothing else. *)
Lemma scull_read_blocks intr dev cap count f_pos h r :
  scull_read K intr dev cap count f_pos h = Some r ->
  (h <= heap_after r)%nat
  /\ blocks (dev_data (dev_after r))
     = (blocks (dev_data dev) + successes K h (heap_after r))%nat.
Proof.
  unfold scull_read, read_upto_copy. intros H.
  assert (Hsame : (h <= h)%nat
                  /\ blocks (dev_data dev)
                     = (blocks (dev_data dev) + successes K h h)%nat).
  { rewrite successes_none. lia. }
  destruct intr; [simpl in H; by injection H as <-|].
  destruct (to_ulong f_pos >=? dev_size dev); [simpl in H; by injection H as <-|].
  destruct (translate f_pos (dev_quantum dev) (dev_qset dev))
    as [[[item s_pos] q_pos]|]; [|done].
  simpl in H.
  destruct (scull_follow K dev item h) as [[dptr chain] h1] eqn:Hf.
  pose proof (scull_follow_blocks K _ _ _ _ _ _ Hf) as Hb.
  clear Hsame Hf. crunch; simpl; done.
Qed.

(** Where a write stands before the copy, in blocks: what the chain owns,
    and the quantum at hand when it is a fresh one, is what the chain owned
    and one block per successful allocation. *)
Lemma write_upto_copy_blocks intr dev count f_pos h st :
  write_upto_copy K intr dev count f_pos h = Some st ->
  (h <= ws_heap st)%nat
  /\ match st with
     | WLeave _ d h' =>
         blocks (dev_data d) = (blocks (dev_data dev) + successes K h h')%nat
     | WCopy i arr s_pos q _ _ d h' =>
         dev_data d !! i = Some {| qs_data := Some arr |}
         /\ exists old,
              zlookup arr s_pos = Some old
              /\ (blocks (dev_data d) + (if old is Some _ then 0 else 1)
                  = blocks (dev_data dev) + successes K h h')%nat
     end.
Proof.
  unfold write_upto_copy. intros H.
  destruct intr.
  { injection H as <-. simpl. rewrite successes_none. lia. }
  destruct (translate f_pos (dev_quantum dev) (dev_qset dev))
    as [[[item s_pos] q_pos]|]; [|done].
  simpl in H.
  pose proof (scull_follow_post K dev item h) as Hpost.
  destruct (scull_follow K dev item h) as [[dptr chain1] h1] eqn:Hf.
  destruct (scull_follow_blocks K _ _ _ _ _ _ Hf) as [Hh1 Hb1].
  destruct Hpost as (_ & _ & Hr & _).
  destruct dptr as [i|]; [|by injection H as <-].
  destruct Hr as (-> & Hlen & _).
  destruct (chain1 !! node_index item) as [qs|] eqn:Hqs; [|done]. simpl in H.
  (* the slot array *)
  assert (Harr : (exists arr h2,
             (h1 <= h2)%nat
             /\ blocks (set_slots chain1 (node_index item) arr)
                = (blocks (dev_data dev) + successes K h h2)%nat
             /\ (slot ← zlookup arr s_pos;
                 let '(quant, h3) :=
                   match slot with
                   | Some q => (Some q, h2)
                   | None =>
                       match kmalloc K h2 with
                       | (None, h') => (None, h')
                       | (Some junk, h') =>
                           (Some (fresh_quantum junk (dev_quantum dev)), h')
                       end
                   end in
                 match quant with
                 | None =>
                     Some (WLeave (- ENOMEM)
                             (set_chain (set_chain dev chain1)
                                (set_slots chain1 (node_index item) arr)) h3)
                 | Some q =>
                     Some (WCopy (node_index item) arr s_pos q q_pos
                             (clamp_to_quantum count (dev_quantum dev) q_pos)
                             (set_chain (set_chain dev chain1)
                                (set_slots chain1 (node_index item) arr)) h3)
                 end) = Some st)
             \/ (st = WLeave (- ENOMEM) (set_chain dev chain1) (S h1)
                 /\ km_null K h1 = true)).
  { destruct (qs_data qs) as [arr|] eqn:Hdata.
    - left. exists arr, h1. split; [done|]. split; [|done].
      pose proof (blocks_insert chain1 _ _ {| qs_data := Some arr |} Hqs) as Hi.
      unfold set_slots, blocks_of_qset in *. rewrite Hdata in Hi. simpl in Hi.
      lia.
    - unfold kmalloc in H. destruct (km_null K h1) eqn:Hnull.
      + right. by injection H as <-.
      + left. exists (blank_slots (dev_qset dev)), (S h1).
        split; [lia|]. split; [|done].
        pose proof (blocks_insert chain1 _ _
                      {| qs_data := Some (blank_slots (dev_qset dev)) |} Hqs)
          as Hi.
        unfold set_slots, blocks_of_qset in *. rewrite Hdata in Hi.
        simpl in Hi. rewrite blocks_of_blank_slots in Hi.
        rewrite (successes_succ_ok h h1) by done. lia. }
  clear H.
  destruct Harr as [(arr & h2 & Hh2 & Hb2 & H)|[-> Hnull]].
  2: { simpl. split; [lia|]. by rewrite (successes_succ_failed h h1). }
  destruct (zlookup arr s_pos) as [slot|] eqn:Hslot; [|done]. simpl in H.
  assert (Hnode : set_slots chain1 (node_index item) arr !! node_index item
                  = Some {| qs_data := Some arr |}).
  { unfold set_slots. by apply list_lookup_insert_eq. }
  destruct slot as [q|].
  { injection H as <-. simpl. split; [lia|]. split; [done|].
    exists (Some q). split; [done|]. lia. }
  unfold kmalloc in H. destruct (km_null K h2) eqn:Hnull; injection H as <-; simpl.
  - split; [lia|]. rewrite (successes_succ_failed h h2) by (done || lia). done.
  - split; [lia|]. split; [done|]. exists None. split; [done|].
    rewrite (successes_succ_ok h h2) by (done || lia). lia.
Qed.

(** A write makes one block per successful allocation, and nothing else. *)
Lemma scull_write_blocks intr dev buf count f_pos h r :
  scull_write K intr dev buf count f_pos h = Some r ->
  (h <= heap_after r)%nat
  /\ blocks (dev_data (dev_after r))
     = (blocks (dev_data dev) + successes K h (heap_after r))%nat.
Proof.
  unfold scull_write. intros H.
  destruct (write_upto_copy K intr dev count f_pos h) as [st|] eqn:Hst; [|done].
  destruct (write_upto_copy_blocks _ _ _ _ _ _ Hst) as [Hh Hb].
  simpl in H. destruct st as [rv d h'|i arr s_pos q q_pos n d h']; simpl in *.
  { by injection H as <-. }
  destruct Hb as (Hnode & old & Hold & Hb).
  destruct (copy_from_user q q_pos buf n) as [[q' missed]|]; [|done].
  simpl in H.
  apply zlookup_Some in Hold as [_ Hold].
  pose proof (blocks_insert (dev_data d) i _
                {| qs_data := Some (<[Z.to_nat s_pos := Some q']> arr) |} Hnode)
    as Hi.
  pose proof (blocks_of_slots_insert arr _ _ (Some q') Hold) as Hj.
  unfold blocks_of_qset in Hi. simpl in Hi.
  assert (Hfinal : blocks (set_slots (dev_data d) i
                             (<[Z.to_nat s_pos := Some q']> arr))
                   = (blocks (dev_data dev) + successes K h h')%nat).
  { unfold set_slots. destruct old; lia. }
  destruct (missed =? 0); injection H as <-; simpl;
    rewrite ?dev_data_grow_size; simpl; done.
Qed.

End BlockAccounts.

Section Balance.

Variable K : kmalloc_oracle.
Variables SCULL_QUANTUM SCULL_QSET : Z.
Hypothesis Hdefault : good_geometry SCULL_QUANTUM SCULL_QSET.

Lemma step_balance st o :
  op_ok o -> wf_dev (h_dev st) ->
  exists st' now,
    step K SCULL_QUANTUM SCULL_QSET st o = Some st'
    /\ match o with
       | OpTrim => fst <$> scull_trim SCULL_QUANTUM SCULL_QSET (h_dev st)
       | _ => Some O
       end = Some now
    /\ wf_dev (h_dev st')
    /\ (h_heap st <= h_heap st')%nat
    /\ (blocks (dev_data (h_dev st')) + now
        = blocks (dev_data (h_dev st))
          + successes K (h_heap st) (h_heap st'))%nat.
Proof.
  intros Hop Hwf. destruct o as [intr cap count f_pos|intr buf count f_pos|];
    simpl in *.
  - destruct Hop as [Hc Hp].
    destruct (scull_read_spec K intr (h_dev st) cap count f_pos (h_heap st))
      as (r & Hr & Hwf' & _); [done..|].
    destruct (scull_read_blocks K _ _ _ _ _ _ _ Hr) as [Hh Hb].
    rewrite Hr. simpl. eexists _, O. split; [done|]. split; [done|]. simpl.
    split; [done|]. split; [done|]. lia.
  - destruct Hop as [Hc Hp].
    destruct (scull_write_spec K intr (h_dev st) buf count f_pos (h_heap st))
      as (r & Hr & Hwf' & _); [done..|].
    destruct (scull_write_blocks K _ _ _ _ _ _ _ Hr) as [Hh Hb].
    rewrite Hr. simpl.
    destruct (retval r <? 0); eexists _, O; (split; [done|]);
      (split; [done|]); simpl; (split; [done|]); (split; [done|]); lia.
  - destruct Hwf as (_ & _ & Hchain).
    rewrite (scull_trim_spec _ _ _ Hchain). simpl.
    eexists _, _. split; [done|]. split; [done|]. simpl.
    split; [by apply wf_init_dev|]. split; [done|].
    rewrite successes_none. simpl. by rewrite Nat.add_0_r.
Qed.

Lemma run_balance ops : forall st,
  Forall op_ok ops -> wf_dev (h_dev st) ->
  exists st' freed,
    run K SCULL_QUANTUM SCULL_QSET st ops = Some st'
    /\ freed_by K SCULL_QUANTUM SCULL_QSET st ops = Some freed
    /\ (h_heap st <= h_heap st')%nat
    /\ (blocks (dev_data (h_dev st')) + freed
        = blocks (dev_data (h_dev st))
          + successes K (h_heap st) (h_heap st'))%nat.
Proof.
  induction ops as [|o ops IH]; intros st Hops Hwf.
  - exists st, O. simpl. rewrite successes_none. repeat split; lia.
  - apply Forall_cons in Hops as [Ho Hops].
    destruct (step_balance st o Ho Hwf) as (st1 & now & Hst1 & Hnow & Hwf1 & Hh1 & Hb1).
    destruct (IH st1 Hops Hwf1) as (st' & later & Hrun & Hfreed & Hh & Hb).
    exists st', (now + later)%nat. cbn [run freed_by].
    rewrite Hst1. simpl. rewrite Hrun, Hnow. simpl. rewrite Hfreed. simpl.
    split; [done|]. split; [done|]. split; [lia|].
    rewrite (successes_split K (h_heap st) (h_heap st1) (h_heap st')) by lia.
    lia.
Qed.

End Balance.

(** ** Bytes read and written *)

Section Bytes.

Variable K : kmalloc_oracle.

Lemma get_quantum_grown chain m i j :
  get_quantum (chain ++ replicate m blank_qset) i j = get_quantum chain i j.
Proof.
  unfold get_quantum.
  destruct (decide (i < length chain)%nat) as [Hlt|Hge].
  - by rewrite lookup_app_l.
  - rewrite (lookup_ge_None_2 chain i) by lia.
    destruct ((chain ++ replicate m blank_qset) !! i) as [qs|] eqn:Hqs; [|done].
    rewrite lookup_app_r in Hqs by lia.
    apply lookup_replicate in Hqs as [-> _]. done.
Qed.

(** What a read leaves of the device: all but blank nodes at the end of
    the chain. *)
Lemma scull_read_frame intr dev cap count f_pos h r :
  scull_read K intr dev cap count f_pos h = Some r ->
  dev_quantum (dev_after r) = dev_quantum dev
  /\ dev_qset (dev_after r) = dev_qset dev
  /\ dev_size (dev_after r) = dev_size dev
  /\ exists m, dev_data (dev_after r) = dev_data dev ++ replicate m blank_qset.
Proof.
  unfold scull_read. intros H.
  destruct (read_upto_copy K intr dev count f_pos h) as [st|] eqn:Hst; [|done].
  destruct (read_upto_copy_frame K _ _ _ _ _ _ Hst) as (HQ & HS & Hsz & Hm & _).
  simpl in H. destruct st; simpl in *; crunch; simpl; done.
Qed.

Lemma scull_read_byte_at intr dev cap count f_pos h r p :
  scull_read K intr dev cap count f_pos h = Some r ->
  byte_at (dev_after r) p = byte_at dev p.
Proof.
  intros H. destruct (scull_read_frame _ _ _ _ _ _ _ H) as (HQ & HS & _ & m & Hm).
  unfold byte_at, get_byte. rewrite HQ, HS, Hm.
  destruct (translate p (dev_quantum dev) (dev_qset dev)) as [[[i s] q]|]; [|done].
  simpl. by rewrite get_quantum_grown.
Qed.

(** A read that returns bytes: where they come from and how many. *)
Lemma scull_read_success intr dev cap count f_pos h r :
  wf_dev dev -> is_file_pos f_pos ->
  0 <= count -> f_pos + count <= LONG_MAX ->
  scull_read K intr dev cap count f_pos h = Some r ->
  0 < retval r ->
  let q_pos := intra_of (dev_quantum dev) (dev_qset dev) f_pos in
  exists item q,
    translate f_pos (dev_quantum dev) (dev_qset dev)
      = Some (item, slot_of (dev_quantum dev) (dev_qset dev) f_pos, q_pos)
    /\ get_quantum (dev_data dev) (node_index item)
         (slot_of (dev_quantum dev) (dev_qset dev) f_pos) = Some q
    /\ Z.of_nat (length q) = dev_quantum dev
    /\ f_pos < dev_size dev
    /\ retval r
       = Z.min (Z.min count (dev_size dev - f_pos)) (dev_quantum dev - q_pos)
    /\ retval r <= Z.max 0 cap
    /\ pos_after r = f_pos + retval r
    /\ dev_after r = dev /\ heap_after r = h
    /\ out r = take (Z.to_nat (retval r)) (drop (Z.to_nat q_pos) q).
Proof.
  intros Hwf Hpos Hc0 Hc1 Hr Hret q_pos.
  pose proof Hwf as (Hgeo & Hsz & Hchain).
  pose proof Hgeo as (HQ0 & HS0 & HQS).
  assert (HQmax : dev_quantum dev <= INT_MAX) by nia.
  pose proof (intra_range _ _ Hgeo f_pos) as Hq. fold q_pos in Hq.
  unfold intra_of in q_pos.
  unfold scull_read in Hr.
  destruct (read_upto_copy K intr dev count f_pos h) as [st|] eqn:Hst; [|done].
  simpl in Hr. destruct st as [rv d h'|q q_pos' n d h'].
  { injection Hr as <-. simpl in Hret.
    destruct (read_leave_value K _ _ _ _ _ _ _ _ Hst) as [->|[-> _]];
      unfold ERESTARTSYS in *; lia. }
  destruct (read_copy_inv K _ _ _ _ _ _ _ _ _ _ Hst)
    as (-> & Hin & item & s_pos & Htr & Hq' & Hn).
  destruct (read_upto_copy_frame K _ _ _ _ _ _ Hst) as (_ & _ & _ & [m Hm] & _).
  simpl in Hm. rewrite Hm, get_quantum_grown in Hq'.
  pose proof Htr as Htr'.
  rewrite (translate_good _ _ Hgeo _ Hpos) in Htr'.
  injection Htr' as Hitem Hs Hqp. fold q_pos in Hqp. subst q_pos'.
  rewrite to_ulong_id in Hin by (by apply is_file_pos_size_t).
  assert (Hnode : (node_index item < length (dev_data dev))%nat).
  { apply get_quantum_Some in Hq' as (qs & _ & Hqs & _).
    by eapply lookup_lt_Some. }
  destruct (read_untouched K _ _ _ _ _ _ Hst) as [Hd Hh]; [eauto 10|].
  simpl in Hd, Hh. subst d h'.
  pose proof (wf_chain_quantum _ _ _ _ _ _ Hchain Hq') as Hql.
  assert (Hc' : (if to_ulong (f_pos + count) >? dev_size dev
                 then to_ulong (dev_size dev - f_pos) else count)
                = Z.min count (dev_size dev - f_pos)).
  { rewrite !to_ulong_id by
      (unfold is_file_pos, is_size_t, LONG_MAX, ULONG_MAX in *; lia).
    destruct (f_pos + count >? dev_size dev) eqn:E; lia. }
  rewrite Hc', clamp_to_quantum_min in Hn
    by (done || unfold is_file_pos, is_size_t, LONG_MAX, ULONG_MAX in *; lia).
  destruct (copy_to_user cap q q_pos n) as [[data missed]|] eqn:Hcopy; [|done].
  simpl in Hr.
  destruct (copy_to_user_inv _ _ _ _ _ _ Hcopy) as (_ & _ & _ & Hmiss & Hdata & _).
  destruct (missed =? 0) eqn:Hm0; injection Hr as <-; simpl in *;
    [|unfold EFAULT in Hret; lia].
  apply Z.eqb_eq in Hm0.
  assert (Hn0 : 0 <= n <= dev_quantum dev - q_pos) by lia.
  rewrite (to_long_id n) in *
    by (unfold LONG_MIN, LONG_MAX, INT_MAX in *; lia).
  exists item, q. unfold slot_of. rewrite Hs.
  split; [done|]. split; [done|]. split; [done|]. split; [done|].
  split; [done|]. split; [by apply Hmiss|]. split.
  { apply to_long_id. unfold is_file_pos, LONG_MIN, LONG_MAX in *. lia. }
  split; [done|]. split; [done|]. by apply Hdata.
Qed.

End Bytes.

Section WrittenBytes.

Variable K : kmalloc_oracle.

Lemma scull_write_outcome intr dev buf count f_pos h r :
  wf_dev dev -> is_file_pos f_pos -> is_size_t count ->
  scull_write K intr dev buf count f_pos h = Some r ->
  write_post K intr dev buf count f_pos h r.
Proof.
  intros Hwf Hpos Hcount Hr.
  destruct (scull_write_spec K intr dev buf count f_pos h Hwf Hpos Hcount)
    as (r' & Hr' & Hpost).
  rewrite Hr in Hr'. by injection Hr' as <-.
Qed.

Lemma byte_at_kept dev dev' p b :
  dev_quantum dev' = dev_quantum dev -> dev_qset dev' = dev_qset dev ->
  (forall i j q, get_quantum (dev_data dev) i j = Some q ->
                 get_quantum (dev_data dev') i j = Some q) ->
  byte_at dev p = Some b -> byte_at dev' p = Some b.
Proof.
  intros HQ HS Hkeep. unfold byte_at. rewrite HQ, HS.
  destruct (translate p (dev_quantum dev) (dev_qset dev)) as [[[i s] q]|]; [|done].
  simpl. intros Hb. apply get_byte_Some in Hb as (qb & Hqb & Hx).
  unfold get_byte. by rewrite (Hkeep _ _ _ Hqb).
Qed.

(** A write that returns a count: how many bytes, and where they are. *)
Lemma scull_write_success intr dev buf count f_pos h r :
  wf_dev dev -> is_file_pos f_pos -> is_size_t count ->
  scull_write K intr dev buf count f_pos h = Some r ->
  0 <= retval r ->
  let s_pos := slot_of (dev_quantum dev) (dev_qset dev) f_pos in
  let q_pos := intra_of (dev_quantum dev) (dev_qset dev) f_pos in
  exists item q',
    translate f_pos (dev_quantum dev) (dev_qset dev) = Some (item, s_pos, q_pos)
    /\ retval r = Z.min count (dev_quantum dev - q_pos)
    /\ retval r <= Z.of_nat (length buf)
    /\ pos_after r = to_long (f_pos + retval r)
    /\ dev_size (dev_after r) = Z.max (dev_size dev) (f_pos + retval r)
    /\ get_quantum (dev_data (dev_after r)) (node_index item) s_pos = Some q'
    /\ (forall k, (k < Z.to_nat (retval r))%nat ->
          q' !! (Z.to_nat q_pos + k)%nat = buf !! k)
    /\ (forall b k,
          get_quantum (dev_data dev) (node_index item) s_pos = Some b ->
          (k < Z.to_nat q_pos)%nat \/ (Z.to_nat (q_pos + retval r) <= k)%nat ->
          q' !! k = b !! k)
    /\ (forall i j b,
          (i, j) <> (node_index item, s_pos) ->
          get_quantum (dev_data dev) i j = Some b ->
          get_quantum (dev_data (dev_after r)) i j = Some b).
Proof.
  intros Hwf Hpos Hcount Hr Hret s_pos q_pos.
  destruct (scull_write_outcome _ _ _ _ _ _ _ Hwf Hpos Hcount Hr)
    as (_ & _ & _ & _ & [(_ & _ & Herr)|Hok]).
  { unfold ERESTARTSYS, ENOMEM, EFAULT in Herr.
    destruct Herr as [[? _]|[[? _]|[? _]]]; lia. }
  destruct Hok as (_ & _ & item & s & q & n & q' & Htr & _ & _ & Hn & Hnb
                   & Hrv & Hpa & Hsz & Htarget & Hnew & Hold & Hother).
  pose proof Htr as Htr'.
  rewrite (translate_good _ _ (proj1 Hwf) _ Hpos) in Htr'.
  injection Htr' as _ Hs Hq. fold (slot_of (dev_quantum dev) (dev_qset dev) f_pos) in Hs.
  fold (intra_of (dev_quantum dev) (dev_qset dev) f_pos) in Hq.
  fold s_pos in Hs. fold q_pos in Hq. subst s q n. rewrite Hrv.
  by exists item, q'.
Qed.

End WrittenBytes.

(** ** Fresh quanta *)

Section Fresh.

Variable K : kmalloc_oracle.

Lemma fresh_quantum_lookup junk quantum k :
  (k < Z.to_nat quantum)%nat -> fresh_quantum junk quantum !! k = Some (junk k).
Proof.
  intros Hk. unfold fresh_quantum. rewrite list_lookup_fmap.
  rewrite lookup_seq_lt by done. done.
Qed.

(** The quantum a write is about to copy to is the one the store held for
    the position, or, when it held none, the block of the last allocation
    made, as [kmalloc] returned it. *)
Lemma write_upto_copy_quantum dev count f_pos h i arr s_pos q q_pos n d h' :
  write_upto_copy K false dev count f_pos h
    = Some (WCopy i arr s_pos q q_pos n d h') ->
  match get_quantum (dev_data dev) i s_pos with
  | Some b => q = b
  | None => (h < h')%nat
            /\ q = fresh_quantum (km_junk K (h' - 1)) (dev_quantum dev)
  end.
Proof.
  unfold write_upto_copy. intros H.
  destruct (translate f_pos (dev_quantum dev) (dev_qset dev))
    as [[[item s] qp]|]; [|done].
  simpl in H.
  pose proof (scull_follow_post K dev item h) as Hpost.
  destruct (scull_follow K dev item h) as [[dptr chain1] h1].
  destruct Hpost as (Hh & [m Hm] & Hr & _).
  destruct dptr as [i1|]; [|done].
  destruct (chain1 !! i1) as [qs|] eqn:Hqs; [|done]. simpl in H.
  assert (Hold : get_quantum (dev_data dev) i1 s
                 = qs' ← dev_data dev !! i1; arr ← qs_data qs';
                   slot ← zlookup arr s; slot) by done.
  assert (Hnode : dev_data dev !! i1 = Some qs
                  \/ (dev_data dev !! i1 = None /\ qs_data qs = None)).
  { rewrite Hm in Hqs.
    destruct (decide (i1 < length (dev_data dev))%nat) as [Hin|Hout].
    - left. by rewrite lookup_app_l in Hqs.
    - right. split; [apply lookup_ge_None_2; lia|].
      rewrite lookup_app_r in Hqs by lia.
      apply lookup_replicate in Hqs as [-> _]. done. }
  destruct (qs_data qs) as [arr0|] eqn:Harr.
  - destruct Hnode as [Hn|[_ ?]]; [|done].
    destruct (zlookup arr0 s) as [slot|] eqn:Hslot; [|done]. simpl in H.
    assert (Hget : get_quantum (dev_data dev) i1 s = slot).
    { rewrite Hold, Hn. simpl. rewrite Harr. simpl. by rewrite Hslot. }
    destruct slot as [q0|].
    + injection H as <- <- <- <- <- <- <- <-. by rewrite Hget.
    + unfold kmalloc in H. destruct (km_null K h1); [done|].
      injection H as <- <- <- <- <- <- <- <-. rewrite Hget.
      split; [lia|]. f_equal; f_equal; lia.
  - assert (Hnone : get_quantum (dev_data dev) i1 s = None).
    { rewrite Hold. destruct Hnode as [Hn|[Hn _]]; rewrite Hn; simpl; [|done].
      by rewrite Harr. }
    unfold kmalloc in H. destruct (km_null K h1); [done|].
    destruct (zlookup (blank_slots (dev_qset dev)) s) as [slot|] eqn:Hslot; [|done].
    simpl in H.
    assert (slot = None) as ->.
    { apply zlookup_Some in Hslot as [_ Hl]. unfold blank_slots in Hl.
      by apply lookup_replicate in Hl as [-> _]. }
    destruct (km_null K (S h1)); [done|].
    injection H as <- <- <- <- <- <- <- <-. rewrite Hnone.
    split; [lia|]. f_equal; f_equal; lia.
Qed.

(** A write that reaches [copy_from_user]: the quantum it copies to, what
    the copy leaves there, and what the store holds afterwards. *)
Lemma scull_write_target intr dev buf count f_pos h r :
  wf_dev dev -> is_file_pos f_pos -> is_size_t count ->
  scull_write K intr dev buf count f_pos h = Some r ->
  retval r <> - ENOMEM -> retval r <> - ERESTARTSYS ->
  let s_pos := slot_of (dev_quantum dev) (dev_qset dev) f_pos in
  let q_pos := intra_of (dev_quantum dev) (dev_qset dev) f_pos in
  let n := Z.min count (dev_quantum dev - q_pos) in
  exists item q q' missed,
    translate f_pos (dev_quantum dev) (dev_qset dev) = Some (item, s_pos, q_pos)
    /\ match get_quantum (dev_data dev) (node_index item) s_pos with
       | Some b => q = b
       | None => (h < heap_after r)%nat
                 /\ q = fresh_quantum (km_junk K (heap_after r - 1)) (dev_quantum dev)
       end
    /\ Z.of_nat (length q) = dev_quantum dev
    /\ copy_from_user q q_pos buf n = Some (q', missed)
    /\ get_quantum (dev_data (dev_after r)) (node_index item) s_pos = Some q'
    /\ ((retval r = n /\ missed = 0) \/ (retval r = - EFAULT /\ missed <> 0))
    /\ (forall i j b,
          (i, j) <> (node_index item, s_pos) ->
          get_quantum (dev_data dev) i j = Some b ->
          get_quantum (dev_data (dev_after r)) i j = Some b).
Proof.
  intros Hwf Hpos Hcount Hr Hnomem Hnointr s_pos q_pos n.
  destruct (write_upto_copy_spec K intr dev count f_pos h Hwf Hpos)
    as (st & Hst & Hpost).
  unfold scull_write in Hr. rewrite Hst in Hr. simpl in Hr.
  destruct Hpost as (Hwfd & HQ & HS & Hsize & Hh & Hkeep & Hcase).
  destruct st as [rv d h'|i arr s q qp n' d h']; simpl in *.
  { injection Hr as <-. simpl in *.
    destruct Hcase as [(-> & _)|(-> & _)]; done. }
  destruct Hcase as (-> & (item & Htr & ->) & Hs & Hq & Hnode & Harr & Hslots
                     & Hql & -> & Hok & Hslot).
  pose proof (write_upto_copy_quantum _ _ _ _ _ _ _ _ _ _ _ _ Hst) as Hfresh.
  pose proof Htr as Htr'.
  rewrite (translate_good _ _ (proj1 Hwf) _ Hpos) in Htr'.
  injection Htr' as _ Hs' Hq'.
  fold (slot_of (dev_quantum dev) (dev_qset dev) f_pos) in Hs'.
  fold (intra_of (dev_quantum dev) (dev_qset dev) f_pos) in Hq'.
  fold s_pos in Hs'. fold q_pos in Hq'. subst s qp.
  pose proof Hwf as ((HQ0 & HS0 & HQS) & _ & _).
  assert (HQmax : dev_quantum dev <= INT_MAX) by nia.
  rewrite (clamp_to_quantum_min count _ _ Hcount Hq HQmax) in *.
  fold n in Hr.
  assert (Hn : 0 <= n <= dev_quantum dev - q_pos)
    by (unfold is_size_t in Hcount; lia).
  destruct (copy_from_user_fits q q_pos buf n) as (q' & missed & Hcopy);
    [lia..|].
  rewrite Hcopy in Hr. simpl in Hr.
  assert (Hilen : (node_index item < length (dev_data d))%nat)
    by (by eapply lookup_lt_Some).
  exists item, q, q', missed.
  assert (Hdata : dev_data (dev_after r)
                  = set_slots (dev_data d) (node_index item)
                      (<[Z.to_nat s_pos := Some q']> arr)).
  { destruct (missed =? 0); injection Hr as <-; simpl;
      by rewrite ?dev_data_grow_size. }
  assert (Hin : 0 <= s_pos < Z.of_nat (length arr)) by lia.
  split; [done|]. split.
  { destruct (get_quantum (dev_data dev) (node_index item) s_pos); [done|].
    destruct Hfresh as [Hlt ->].
    assert (heap_after r = h') as ->; [|done].
    destruct (missed =? 0); by injection Hr as <-. }
  split; [done|]. split; [done|]. split.
  { rewrite Hdata, get_quantum_set_slots_eq by done.
    by rewrite zlookup_insert_eq. }
  split.
  { destruct (missed =? 0) eqn:Hm; injection Hr as <-; simpl.
    - left. apply Z.eqb_eq in Hm. split; [|done].
      apply to_long_id. unfold LONG_MIN, LONG_MAX, INT_MAX in *. lia.
    - right. apply Z.eqb_neq in Hm. done. }
  intros i j b Hne Hb. apply Hkeep in Hb. rewrite Hdata.
  destruct (decide (node_index item = i)) as [<-|Hi].
  - rewrite get_quantum_set_slots_eq by done.
    rewrite (get_quantum_lookup _ _ _ _ _ Hnode eq_refl) in Hb.
    rewrite zlookup_insert_ne; [done|lia|congruence].
  - by rewrite get_quantum_set_slots_ne.
Qed.

(** A write that leaves before the copy keeps every quantum. *)
Lemma scull_write_left intr dev buf count f_pos h r :
  wf_dev dev -> is_file_pos f_pos ->
  scull_write K intr dev buf count f_pos h = Some r ->
  retval r = - ENOMEM \/ retval r = - ERESTARTSYS ->
  forall i j b, get_quantum (dev_data dev) i j = Some b ->
                get_quantum (dev_data (dev_after r)) i j = Some b.
Proof.
  intros Hwf Hpos Hr Hret.
  destruct (write_upto_copy_spec K intr dev count f_pos h Hwf Hpos)
    as (st & Hst & Hpost).
  unfold scull_write in Hr. rewrite Hst in Hr. simpl in Hr.
  destruct Hpost as (Hwfd & HQ & HS & Hsize & Hh & Hkeep & Hcase).
  destruct st as [rv d h'|i arr s q qp n' d h']; simpl in *.
  { by injection Hr as <-. }
  destruct Hcase as (-> & (item & Htr & ->) & Hs & Hq & Hnode & Harr & Hslots
                     & Hql & -> & Hok & Hslot).
  pose proof Hwf as ((HQ0 & HS0 & HQS) & _ & _).
  destruct (copy_from_user q qp buf
              (clamp_to_quantum count (dev_quantum dev) qp))
    as [[q' missed]|] eqn:Hcopy; [|done].
  simpl in Hr.
  destruct (copy_from_user_inv _ _ _ _ _ _ Hcopy) as (_ & Hn0 & _).
  destruct (missed =? 0); injection Hr as <-; simpl in *;
    unfold ENOMEM, ERESTARTSYS, EFAULT in *; [|lia].
  pose proof (to_long_id (clamp_to_quantum count (dev_quantum dev) qp)) as Hid.
  assert (Hle : clamp_to_quantum count (dev_quantum dev) qp <= dev_quantum dev).
  { destruct (copy_from_user_inv _ _ _ _ _ _ Hcopy) as (? & ? & ? & _). lia. }
  rewrite Hid in Hret by (unfold LONG_MIN, LONG_MAX, INT_MAX in *; nia). lia.
Qed.

End Fresh.

(** ** Offsets of one quantum *)

Section Span.

Variables quantum qset : Z.
Hypothesis Hgeo : good_geometry quantum qset.

Local Abbreviation slot := (slot_of quantum qset).
Local Abbreviation intra := (intra_of quantum qset).

(** The offsets that share the quantum of [p]. *)
Lemma same_quantum_span p k :
  0 <= p -> 0 <= intra p + k < quantum ->
  (p + k) / (quantum * qset) = p / (quantum * qset)
  /\ slot (p + k) = slot p /\ intra (p + k) = intra p + k.
Proof.
  unfold slot_of, intra_of.
  intros Hp Hfit. destruct Hgeo as (Hq & Hs & Hqs).
  assert (Hqs0 : 0 < quantum * qset) by nia.
  set (i := p / (quantum * qset)).
  set (j := (p mod (quantum * qset)) / quantum).
  set (q := (p mod (quantum * qset)) mod quantum) in *.
  pose proof (recompose _ _ Hgeo p) as Hre. fold i j q in Hre.
  pose proof (slot_range _ _ Hgeo p Hp) as Hj. fold j in Hj.
  pose proof (intra_range _ _ Hgeo p) as Hq'. fold q in Hq'.
  assert (Hrest : (p + k) mod (quantum * qset) = j * quantum + (q + k)).
  { symmetry. apply (Z.mod_unique_pos _ _ i); nia. }
  assert (Hitem : (p + k) / (quantum * qset) = i).
  { symmetry. apply (Z.div_unique_pos _ _ i (j * quantum + (q + k))); nia. }
  rewrite Hitem, Hrest. split; [reflexivity|]. split.
  - symmetry. apply (Z.div_unique_pos _ _ j (q + k)); lia.
  - symmetry. apply (Z.mod_unique_pos _ _ j); lia.
Qed.

Lemma byte_at_span dev p k item :
  dev_quantum dev = quantum -> dev_qset dev = qset ->
  is_file_pos p -> p + k <= LONG_MAX ->
  translate p quantum qset = Some (item, slot p, intra p) ->
  0 <= intra p + k < quantum ->
  byte_at dev (p + k)
  = get_byte (dev_data dev) (node_index item) (slot p) (intra p + k).
Proof.
  intros HQ HS Hp Hmax Htr Hk. unfold byte_at. rewrite HQ, HS.
  pose proof (intra_range _ _ Hgeo p) as Hin. fold (intra p) in Hin.
  destruct (same_quantum_span p k) as (Hi & Hs & Hq); [by destruct Hp|done|].
  assert (Hle : intra p <= p).
  { destruct Hgeo as (Hq0 & Hs0 & _). unfold intra_of.
    assert (0 < quantum * qset) by nia.
    pose proof (Z.mod_pos_bound p (quantum * qset)).
    pose proof (Z.mod_le p (quantum * qset)).
    pose proof (Z.mod_le (p mod (quantum * qset)) quantum).
    destruct Hp. lia. }
  assert (Hpk : is_file_pos (p + k)).
  { unfold is_file_pos in *. lia. }
  rewrite (translate_good _ _ Hgeo _ Hpk).
  rewrite (translate_good _ _ Hgeo _ Hp) in Htr. injection Htr as Hitem.
  fold (slot (p + k)). fold (intra (p + k)).
  by rewrite Hi, Hitem, Hs, Hq.
Qed.

End Span.

(** ** The geometry along a sequence of operations *)

Section Geometry.

Variable K : kmalloc_oracle.
Variables SCULL_QUANTUM SCULL_QSET : Z.
Hypothesis Hdefault : good_geometry SCULL_QUANTUM SCULL_QSET.
Variables scull_quantum scull_qset : Z.

Local Abbreviation known :=
  (known_geometry SCULL_QUANTUM SCULL_QSET scull_quantum scull_qset).

Lemma step_known st o st' :
  op_ok o -> wf_dev (h_dev st) -> known (h_dev st) ->
  step K SCULL_QUANTUM SCULL_QSET st o = Some st' ->
  known (h_dev st').
Proof.
  intros Ho Hwf Hknown Hstep. unfold known_geometry in *.
  destruct o as [intr cap count f_pos|intr buf count f_pos|]; simpl in *.
  - destruct (scull_read K intr (h_dev st) cap count f_pos (h_heap st))
      as [r|] eqn:Hr; [|done].
    simpl in Hstep. injection Hstep as <-. simpl.
    destruct (scull_read_frame K _ _ _ _ _ _ _ Hr) as (-> & -> & _). done.
  - destruct Ho as [Hcount Hpos].
    destruct (scull_write K intr (h_dev st) buf count f_pos (h_heap st))
      as [r|] eqn:Hr; [|done].
    destruct (scull_write_outcome K _ _ _ _ _ _ _ Hwf Hpos Hcount Hr)
      as (_ & HQ & HS & _).
    simpl in Hstep.
    destruct (retval r <? 0); injection Hstep as <-; simpl; by rewrite HQ, HS.
  - unfold scull_trim in Hstep.
    destruct (trim_chain (dev_qset (h_dev st)) (dev_data (h_dev st))); [|done].
    simpl in Hstep. injection Hstep as <-. simpl. by right.
Qed.

Lemma run_known ops : forall st,
  Forall op_ok ops -> wf_dev (h_dev st) -> dev_size (h_dev st) = h_high st ->
  known (h_dev st) ->
  exists st', run K SCULL_QUANTUM SCULL_QSET st ops = Some st'
              /\ wf_dev (h_dev st') /\ known (h_dev st').
Proof.
  induction ops as [|o ops IH]; intros st Hops Hwf Hsize Hknown.
  - by exists st.
  - apply Forall_cons in Hops as [Ho Hops].
    destruct (step_keeps K SCULL_QUANTUM SCULL_QSET Hdefault st o Ho Hwf Hsize)
      as (st1 & Hst1 & Hwf1 & Hsize1).
    pose proof (step_known st o st1 Ho Hwf Hknown Hst1) as Hknown1.
    destruct (IH st1 Hops Hwf1 Hsize1 Hknown1) as (st' & Hrun & Hwf' & Hknown').
    exists st'. simpl. rewrite Hst1. simpl. done.
Qed.

End Geometry.

(** ** Loading and unloading the module *)

Section Loading.

Variable E : kernel.
Variable K : kmalloc_oracle.
Variables SCULL_QUANTUM SCULL_QSET : Z.

Lemma blocks_of_devices_app l1 l2 :
  blocks_of_devices (l1 ++ l2)
  = (blocks_of_devices l1 + blocks_of_devices l2)%nat.
Proof.
  unfold blocks_of_devices. induction l1 as [|d l1 IH]; csimpl; [done|].
  rewrite IH. lia.
Qed.

Lemma blocks_of_devices_empty n quantum qset :
  blocks_of_devices (replicate n (scull_init_dev quantum qset)) = O.
Proof. unfold blocks_of_devices. induction n as [|n IH]; csimpl; done. Qed.

Lemma blocks_of_devices_insert devs i d d' :
  devs !! i = Some d ->
  (blocks_of_devices (<[i := d']> devs) + blocks (dev_data d)
   = blocks_of_devices devs + blocks (dev_data d'))%nat.
Proof.
  unfold blocks_of_devices. revert i.
  induction devs as [|d0 devs IH]; intros [|i] Hi; csimpl in *; try done.
  - injection Hi as ->. lia.
  - specialize (IH i Hi). lia.
Qed.

(** The loop of [scull_init_module] gives every device the load-time
    geometry and adds its character device. *)
Lemma init_loop_spec m todo : forall ready,
  init_loop E m (ready ++ replicate todo zeroed_dev) (length ready) todo
  = Some (ready ++ replicate todo (scull_init_dev (load_quantum m) (load_qset m)),
          flat_map (scull_setup_cdev E m) (seq (length ready) todo)).
Proof.
  induction todo as [|todo IH]; intros ready; simpl.
  - done.
  - rewrite lookup_app_r by lia. rewrite Nat.sub_diag. simpl.
    rewrite insert_app_r_alt by lia. rewrite Nat.sub_diag. simpl.
    specialize (IH (ready ++ [scull_init_dev (load_quantum m) (load_qset m)])).
    rewrite length_app in IH. simpl in IH. rewrite Nat.add_1_r in IH.
    rewrite <- app_assoc in IH. simpl in IH.
    unfold scull_init_dev in *. simpl. rewrite IH. simpl.
    by rewrite <- app_assoc.
Qed.

(** The loop of [scull_cleanup_module] trims every device and deletes its
    character device. *)
Lemma cleanup_loop_spec rest : forall ready,
  Forall (fun dev => wf_chain (dev_quantum dev) (dev_qset dev) (dev_data dev))
         rest ->
  cleanup_loop SCULL_QUANTUM SCULL_QSET (ready ++ rest) (length ready)
    (length rest)
  = Some (blocks_of_devices rest,
          ready ++ replicate (length rest)
                     (scull_init_dev SCULL_QUANTUM SCULL_QSET),
          CallCdevDel <$> seq (length ready) (length rest)).
Proof.
  induction rest as [|dev rest IH]; intros ready Hwf; simpl.
  - done.
  - apply Forall_cons in Hwf as [Hdev Hrest].
    rewrite lookup_app_r by lia. rewrite Nat.sub_diag. simpl.
    rewrite (scull_trim_spec _ _ _ Hdev). simpl.
    rewrite insert_app_r_alt by lia. rewrite Nat.sub_diag. simpl.
    specialize (IH (ready ++ [scull_init_dev SCULL_QUANTUM SCULL_QSET]) Hrest).
    rewrite length_app in IH. simpl in IH. rewrite Nat.add_1_r in IH.
    rewrite <- app_assoc in IH. simpl in IH. rewrite IH. simpl.
    rewrite <- app_assoc. simpl. done.
Qed.

Hypothesis Hdefault : good_geometry SCULL_QUANTUM SCULL_QSET.

(** One call on one device of the module. *)
Lemma dev_step_balance devs h i o :
  Forall wf_dev devs -> (i < length devs)%nat -> op_ok o ->
  exists devs' h' freed,
    dev_step K SCULL_QUANTUM SCULL_QSET devs h i o = Some (devs', h', freed)
    /\ Forall wf_dev devs' /\ length devs' = length devs
    /\ (h <= h')%nat
    /\ (blocks_of_devices devs' + freed
        = blocks_of_devices devs + successes K h h')%nat.
Proof.
  intros Hwf Hi Ho.
  destruct (lookup_lt_is_Some_2 _ _ Hi) as [dev Hdev].
  pose proof (proj1 (Forall_lookup _ _) Hwf _ _ Hdev) as Hwfd.
  destruct (step_balance K SCULL_QUANTUM SCULL_QSET Hdefault
              {| h_dev := dev; h_heap := h; h_written := 0; h_high := 0 |} o
              Ho Hwfd)
    as (st' & now & Hstep & Hnow & Hwf' & Hh & Hb).
  simpl in *.
  exists (<[i := h_dev st']> devs), (h_heap st'), now.
  pose proof (blocks_of_devices_insert devs i dev (h_dev st') Hdev) as Hins.
  split.
  { unfold dev_step. rewrite Hdev. simpl.
    destruct o as [intr cap count f_pos|intr buf count f_pos|]; simpl in *.
    - destruct (scull_read K intr dev cap count f_pos h) as [r|]; [|done].
      simpl in *. injection Hstep as <-. by injection Hnow as <-.
    - destruct (scull_write K intr dev buf count f_pos h) as [r|]; [|done].
      simpl in *. injection Hnow as <-.
      by destruct (retval r <? 0); injection Hstep as <-.
    - destruct (scull_trim SCULL_QUANTUM SCULL_QSET dev) as [[freed dev']|];
        [|done].
      simpl in *. injection Hstep as <-. by injection Hnow as <-. }
  split; [by apply Forall_insert|]. split; [by rewrite length_insert|].
  split; [done|]. lia.
Qed.

(** A sequence of calls on the devices of the module. *)
Lemma dev_run_balance calls : forall devs h,
  Forall wf_dev devs ->
  Forall (fun c => (c.1 < length devs)%nat /\ op_ok c.2) calls ->
  exists devs' h' freed,
    dev_run K SCULL_QUANTUM SCULL_QSET devs h calls = Some (devs', h', freed)
    /\ Forall wf_dev devs' /\ length devs' = length devs
    /\ (h <= h')%nat
    /\ (blocks_of_devices devs' + freed
        = blocks_of_devices devs + successes K h h')%nat.
Proof.
  induction calls as [|[i o] calls IH]; intros devs h Hwf Hcalls.
  - exists devs, h, O. simpl. rewrite successes_none.
    repeat (split; [done|]). lia.
  - apply Forall_cons in Hcalls as [[Hi Ho] Hcalls]. simpl in Hi, Ho.
    destruct (dev_step_balance devs h i o Hwf Hi Ho)
      as (devs1 & h1 & now & Hstep & Hwf1 & Hlen1 & Hh1 & Hb1).
    rewrite <- Hlen1 in Hcalls.
    destruct (IH devs1 h1 Hwf1 Hcalls)
      as (devs2 & h2 & later & Hrun & Hwf2 & Hlen2 & Hh2 & Hb2).
    exists devs2, h2, (now + later)%nat. simpl. rewrite Hstep. simpl.
    rewrite Hrun. simpl. split; [done|]. split; [done|].
    split; [congruence|]. split; [lia|].
    rewrite (successes_split K h h1 h2) by lia. lia.
Qed.

(** What a load that returns 0 has done. *)
Lemma scull_init_module_zero m h m' h' log :
  scull_init_module E K SCULL_QUANTUM SCULL_QSET m h = Some (0, m', h', log) ->
  km_null K h = false /\ h' = S h /\ 0 <= scull_nr_devs m
  /\ exists first,
       log = first :: flat_map (scull_setup_cdev E m')
                        (seq 0 (Z.to_nat (scull_nr_devs m)))
       /\ (scull_major m <> 0 ->
           first = CallRegister (to_uint (MKDEV E (scull_major m) (scull_minor m)))
                     (to_uint (scull_nr_devs m))
           /\ scull_major m' = scull_major m)
       /\ (scull_major m = 0 ->
           first = CallAlloc (to_uint (scull_minor m)) (to_uint (scull_nr_devs m)))
       /\ scull_minor m' = scull_minor m
       /\ scull_nr_devs m' = scull_nr_devs m
       /\ scull_devices m'
          = Some (replicate (Z.to_nat (scull_nr_devs m))
                    (scull_init_dev (load_quantum m) (load_qset m))).
Proof.
  unfold scull_init_module. intros H.
  set (count := to_uint (scull_nr_devs m)) in *.
  destruct (if scull_major m =? 0
            then let '(result, dev) :=
                   alloc_chrdev_region E (to_uint (scull_minor m)) count in
                 (to_int result, to_int (MAJOR E dev),
                  [CallAlloc (to_uint (scull_minor m)) count])
            else (to_int (register_chrdev_region E
                            (to_uint (MKDEV E (scull_major m) (scull_minor m)))
                            count),
                  scull_major m,
                  [CallRegister
                     (to_uint (MKDEV E (scull_major m) (scull_minor m))) count]))
    as [[result major] log0] eqn:Hreg.
  destruct (result <? 0) eqn:Hres.
  { apply Z.ltb_lt in Hres. injection H as Hz _ _ _. lia. }
  unfold kmalloc in H. destruct (km_null K h) eqn:Hnull.
  { simpl in H. injection H as Hz _ _ _. by vm_compute in Hz. }
  simpl in H.
  destruct (scull_nr_devs m <? 0) eqn:Hnr; [done|]. apply Z.ltb_ge in Hnr.
  pose proof (init_loop_spec (set_major m major) (Z.to_nat (scull_nr_devs m)) [])
    as Hloop.
  simpl in Hloop, H. rewrite Hloop in H. simpl in H.
  injection H as <- <- <-. split; [done|]. split; [done|]. split; [done|].
  destruct (scull_major m =? 0) eqn:Hmaj.
  - apply Z.eqb_eq in Hmaj.
    destruct (alloc_chrdev_region E (to_uint (scull_minor m)) count)
      as [res dev].
    injection Hreg as _ _ <-. eexists. split; [done|]. split; [done|].
    done.
  - apply Z.eqb_neq in Hmaj. injection Hreg as _ <- <-.
    eexists. split; [done|]. split; [done|]. done.
Qed.

End Loading.

(** ** Conversions between [int] and [unsigned] *)

Lemma to_uint_to_int x : to_uint (to_int x) = to_uint x.
Proof.
  unfold to_uint, to_int, wrap_signed.
  replace (32 - 1) with 31 by lia.
  rewrite Zminus_mod, Zmod_mod, <- Zminus_mod.
  f_equal. lia.
Qed.

Lemma to_int_wraps x : to_int (x + 2 ^ 32) = to_int x.
Proof.
  unfold to_int, wrap_signed.
  replace (x + 2 ^ 32 + 2 ^ (32 - 1)) with (x + 2 ^ (32 - 1) + 1 * 2 ^ 32) by lia.
  by rewrite Z_mod_plus_full.
Qed.

(** * Further properties: statements *)

(** ** scull_follow *)

(** X1: a walk to a node that is on the chain allocates nothing, cannot
    fail, and leaves the chain as it is. *)
Theorem follow_present (K : kmalloc_oracle) (dev : scull_dev) (n : Z) (h : nat) :
  (node_index n < length (dev_data dev))%nat ->
  scull_follow K dev n h = (Some (node_index n), dev_data dev, h).
Proof.
  intros Hn. pose proof (scull_follow_post K dev n h) as Hpost.
  destruct (scull_follow K dev n h) as [[r chain'] h'].
  destruct Hpost as (_ & _ & _ & Hhere).
  by destruct (Hhere Hn) as (-> & -> & ->).
Qed.

(** X2: [scull_follow] returns NULL exactly when one of the allocations it
    has to make fails: these are the calls [h], ..., [h + need - 1] of
    [kmalloc], [need] being the number of nodes missing up to the target. *)
Theorem follow_null_iff (K : kmalloc_oracle) (dev : scull_dev) (n : Z) (h : nat) :
  let need := (node_index n + 1 - length (dev_data dev))%nat in
  (scull_follow K dev n h).1.1 = None
  <-> exists k, (h <= k < h + need)%nat /\ km_null K k = true.
Proof.
  intros need. pose proof (scull_follow_exact K dev n h) as Hex.
  destruct (scull_follow K dev n h) as [[[i|] chain'] h']; simpl in *.
  - destruct Hex as (_ & _ & -> & Hok). split; [done|].
    intros (k & Hk & Hnull). rewrite Hok in Hnull; [done|]. fold need. lia.
  - destruct Hex as (m & Hm & _ & _ & Hnull & _). split; [|done].
    intros _. exists (h + m)%nat. split; [|done]. fold need in Hm. lia.
Qed.

(** X3: when [scull_follow] returns a node, it is the node asked for, the
    chain has grown by exactly the missing nodes, all blank and at the end,
    and exactly that many allocations were made. *)
Theorem follow_success_appends (K : kmalloc_oracle) (dev : scull_dev) (n : Z)
    (h : nat) (i : nat) (chain' : list scull_qset) (h' : nat) :
  scull_follow K dev n h = (Some i, chain', h') ->
  let need := (node_index n + 1 - length (dev_data dev))%nat in
  i = node_index n
  /\ chain' = dev_data dev ++ replicate need blank_qset
  /\ h' = (h + need)%nat
  /\ chain' !! i = Some (default blank_qset (dev_data dev !! i)).
Proof.
  intros H need. pose proof (scull_follow_exact K dev n h) as Hex.
  rewrite H in Hex. destruct Hex as (-> & -> & -> & _). fold need.
  repeat (split; [done|]).
  destruct (decide (node_index n < length (dev_data dev))%nat) as [Hin|Hout].
  - rewrite lookup_app_l by done.
    destruct (lookup_lt_is_Some_2 _ _ Hin) as [qs Hqs]. by rewrite Hqs.
  - rewrite lookup_app_r by lia.
    rewrite (lookup_ge_None_2 (dev_data dev)) by lia. simpl.
    apply lookup_replicate_2. unfold need. lia.
Qed.

(** X4: when [scull_follow] returns NULL, the nodes it allocated before the
    failed allocation stay on the chain: nothing is rolled back, and the
    chain still stops short of the target. *)
Theorem follow_failure_keeps_nodes (K : kmalloc_oracle) (dev : scull_dev)
    (n : Z) (h : nat) (chain' : list scull_qset) (h' : nat) :
  scull_follow K dev n h = (None, chain', h') ->
  exists m : nat,
    chain' = dev_data dev ++ replicate m blank_qset
    /\ h' = (h + m + 1)%nat
    /\ km_null K (h + m)%nat = true
    /\ (forall k, (h <= k < h + m)%nat -> km_null K k = false)
    /\ (length chain' <= node_index n)%nat
    /\ blocks chain' = (blocks (dev_data dev) + m)%nat.
Proof.
  intros H. pose proof (scull_follow_exact K dev n h) as Hex.
  rewrite H in Hex. destruct Hex as (m & Hm & -> & -> & Hnull & Hok).
  exists m. repeat (split; [done|]). split.
  - rewrite length_app, length_replicate. lia.
  - by rewrite blocks_app, blocks_blank.
Qed.

(** ** Allocation *)

(** X5: no block is lost.  Along every sequence of reads, writes and trims
    from the empty store, the blocks the device holds (nodes, slot arrays
    and quanta) together with the blocks the trims have handed to [kfree]
    are exactly the successful allocations, whatever allocations fail. *)
Theorem blocks_balance (K : kmalloc_oracle)
    (SCULL_QUANTUM SCULL_QSET scull_quantum scull_qset : Z) (ops : list op) :
  good_geometry SCULL_QUANTUM SCULL_QSET ->
  good_geometry scull_quantum scull_qset ->
  Forall op_ok ops ->
  exists st' freed,
    run K SCULL_QUANTUM SCULL_QSET (start scull_quantum scull_qset) ops = Some st'
    /\ freed_by K SCULL_QUANTUM SCULL_QSET (start scull_quantum scull_qset) ops
       = Some freed
    /\ (blocks (dev_data (h_dev st')) + freed = successes K 0 (h_heap st'))%nat.
Proof.
  intros Hdefault Hinit Hops.
  destruct (run_balance K SCULL_QUANTUM SCULL_QSET Hdefault ops
              (start scull_quantum scull_qset) Hops (wf_init_dev _ _ Hinit))
    as (st' & freed & Hrun & Hfreed & _ & Hb).
  exists st', freed. by repeat (split; [done|]).
Qed.

(** ** scull_read *)

(** X6: a read stores nothing: whatever it returns, the size, the geometry
    and the byte held for every offset are as before. *)
Theorem read_stores_nothing (K : kmalloc_oracle) (intr : bool) (dev : scull_dev)
    (cap count f_pos : Z) (h : nat) (r : call) :
  scull_read K intr dev cap count f_pos h = Some r ->
  dev_size (dev_after r) = dev_size dev
  /\ dev_quantum (dev_after r) = dev_quantum dev
  /\ dev_qset (dev_after r) = dev_qset dev
  /\ forall p, byte_at (dev_after r) p = byte_at dev p.
Proof.
  intros H. destruct (scull_read_frame K _ _ _ _ _ _ _ H) as (HQ & HS & Hsz & _).
  repeat (split; [done|]). intros p. by apply (scull_read_byte_at K _ _ _ _ _ _ _ _ H).
Qed.

(** X7: a read that returns [n > 0] has returned at most [count] bytes,
    none from the size on, none from beyond the quantum of its position;
    the bytes handed over are those the store holds for the offsets
    [f_pos], ..., [f_pos + n - 1], and the position has advanced by [n]. *)
Theorem read_returns_stored (K : kmalloc_oracle) (intr : bool) (dev : scull_dev)
    (cap count f_pos : Z) (h : nat) (r : call) :
  wf_dev dev -> is_file_pos f_pos -> 0 <= count -> f_pos + count <= LONG_MAX ->
  scull_read K intr dev cap count f_pos h = Some r ->
  0 < retval r ->
  retval r <= count
  /\ f_pos + retval r <= dev_size dev
  /\ intra_of (dev_quantum dev) (dev_qset dev) f_pos + retval r <= dev_quantum dev
  /\ pos_after r = f_pos + retval r
  /\ Z.of_nat (length (out r)) = retval r
  /\ forall k, 0 <= k < retval r ->
       is_Some (byte_at dev (f_pos + k))
       /\ out r !! Z.to_nat k = byte_at dev (f_pos + k).
Proof.
  intros Hwf Hpos Hc0 Hc1 Hr Hret.
  destruct (scull_read_success K _ _ _ _ _ _ _ Hwf Hpos Hc0 Hc1 Hr Hret)
    as (item & q & Htr & Hq & Hlen & Hlt & Hn & _ & Hpa & _ & _ & Hout).
  pose proof Hwf as (Hgeo & _ & _).
  pose proof (intra_range _ _ Hgeo f_pos) as Hin.
  fold (intra_of (dev_quantum dev) (dev_qset dev) f_pos) in Hin.
  set (q_pos := intra_of (dev_quantum dev) (dev_qset dev) f_pos) in *.
  split; [lia|]. split; [lia|]. split; [lia|]. split; [done|].
  assert (Hlo : Z.of_nat (length (out r)) = retval r).
  { rewrite Hout, length_take, length_drop. lia. }
  split; [done|]. intros k Hk.
  assert (Hbyte : byte_at dev (f_pos + k) = q !! Z.to_nat (q_pos + k)).
  { unfold byte_at.
    assert (Hpk : is_file_pos (f_pos + k)).
    { unfold is_file_pos in *. lia. }
    rewrite (translate_good _ _ Hgeo _ Hpk).
    destruct (same_quantum _ _ Hgeo f_pos k) as (Hi & Hs & Hq').
    { unfold is_file_pos in Hpos. lia. } { lia. }
    { fold (intra_of (dev_quantum dev) (dev_qset dev) f_pos). fold q_pos. lia. }
    rewrite Hi, Hs, Hq'. simpl.
    rewrite (translate_good _ _ Hgeo _ Hpos) in Htr. injection Htr as Hitem.
    rewrite Hitem. unfold get_byte.
    fold (slot_of (dev_quantum dev) (dev_qset dev) f_pos). rewrite Hq. simpl.
    fold (intra_of (dev_quantum dev) (dev_qset dev) f_pos). fold q_pos.
    apply zlookup_nat. lia. }
  rewrite Hbyte. split.
  - apply lookup_lt_is_Some. lia.
  - rewrite Hout, lookup_take_lt by lia. rewrite lookup_drop. f_equal. lia.
Qed.

(** ** scull_write *)

(** X8: the bytes a successful write transfers are the bytes the store
    holds afterwards for the offsets [f_pos], ..., [f_pos + n - 1]. *)
Theorem write_stores_bytes (K : kmalloc_oracle) (intr : bool) (dev : scull_dev)
    (buf : list byte) (count f_pos : Z) (h : nat) (r : call) :
  wf_dev dev -> is_file_pos f_pos -> is_size_t count ->
  f_pos + count <= LONG_MAX ->
  scull_write K intr dev buf count f_pos h = Some r ->
  0 <= retval r ->
  forall k, 0 <= k < retval r ->
    is_Some (buf !! Z.to_nat k)
    /\ byte_at (dev_after r) (f_pos + k) = buf !! Z.to_nat k.
Proof.
  intros Hwf Hpos Hcount Hmax Hr Hret k Hk.
  destruct (scull_write_outcome K _ _ _ _ _ _ _ Hwf Hpos Hcount Hr)
    as (_ & HQ & HS & _).
  destruct (scull_write_success K _ _ _ _ _ _ _ Hwf Hpos Hcount Hr Hret)
    as (item & q' & Htr & Hn & Hbuf & _ & _ & Hq' & Hnew & _).
  pose proof Hwf as (Hgeo & _).
  pose proof (intra_range _ _ Hgeo f_pos) as Hin.
  fold (intra_of (dev_quantum dev) (dev_qset dev) f_pos) in Hin.
  split; [apply lookup_lt_is_Some; lia|].
  rewrite (byte_at_span _ _ Hgeo _ _ _ item HQ HS Hpos); [|lia|done|lia].
  unfold get_byte. rewrite Hq'. simpl. rewrite zlookup_nat by lia.
  rewrite <- Hnew by lia. f_equal. lia.
Qed.

(** X9: whatever a write returns, a byte the store held stays as it was
    unless its offset lies in the range the write copies to, which starts
    at [f_pos] and stops at [f_pos + count] or at the end of the quantum;
    this for offsets whose node index fits an [int]. *)
Theorem write_keeps_other_bytes (K : kmalloc_oracle) (intr : bool)
    (dev : scull_dev) (buf : list byte) (count f_pos : Z) (h : nat) (r : call) :
  wf_dev dev -> is_file_pos f_pos -> is_size_t count ->
  f_pos < offset_limit (dev_quantum dev) (dev_qset dev) ->
  scull_write K intr dev buf count f_pos h = Some r ->
  let n := Z.min count
             (dev_quantum dev - intra_of (dev_quantum dev) (dev_qset dev) f_pos) in
  forall p b,
    0 <= p < offset_limit (dev_quantum dev) (dev_qset dev) ->
    ~ (f_pos <= p < f_pos + n) ->
    byte_at dev p = Some b -> byte_at (dev_after r) p = Some b.
Proof.
  intros Hwf Hpos Hcount Hlim Hr n p b Hp Hout Hb.
  destruct (scull_write_outcome K _ _ _ _ _ _ _ Hwf Hpos Hcount Hr)
    as (_ & HQ & HS & _).
  pose proof Hwf as (Hgeo & _).
  destruct (decide (retval r = - ENOMEM \/ retval r = - ERESTARTSYS))
    as [Hleft|Hcopy].
  { eapply byte_at_kept; [done..| |done].
    by apply (scull_write_left K _ _ _ _ _ _ _ Hwf Hpos Hr). }
  destruct (scull_write_target K _ _ _ _ _ _ _ Hwf Hpos Hcount Hr)
    as (item & q & q' & missed & Htr & Hq & Hlen & Hcp & Hq' & _ & Hother);
    [tauto..|].
  fold n in Hcp.
  destruct (translate_below_limit _ _ Hgeo f_pos) as (item' & Htr' & Hnode);
    [destruct Hpos; lia|].
  rewrite Htr in Htr'. injection Htr' as <-.
  rewrite (byte_at_coords _ _ Hgeo dev p eq_refl eq_refl Hp) in Hb.
  rewrite (byte_at_coords _ _ Hgeo (dev_after r) p HQ HS Hp).
  apply get_byte_Some in Hb as (qb & Hqb & Hx). unfold get_byte.
  destruct (decide ((node_of (dev_quantum dev) (dev_qset dev) p,
                     slot_of (dev_quantum dev) (dev_qset dev) p)
                    = (node_index item,
                       slot_of (dev_quantum dev) (dev_qset dev) f_pos)))
    as [Heq|Hne].
  - injection Heq as Hi Hs. rewrite Hi, Hs, Hq'. simpl.
    rewrite Hi, Hs in Hqb. rewrite Hqb in Hq. subst q.
    pose proof (same_coords _ _ Hgeo p f_pos (proj1 Hp) (proj1 Hpos)
                  ltac:(by rewrite Hi) Hs) as Hsame.
    pose proof (intra_range _ _ Hgeo p) as Hip.
    pose proof (intra_range _ _ Hgeo f_pos) as Hif.
    fold (intra_of (dev_quantum dev) (dev_qset dev) p) in Hip.
    fold (intra_of (dev_quantum dev) (dev_qset dev) f_pos) in Hif.
    destruct (copy_from_user_inv _ _ _ _ _ _ Hcp)
      as (_ & Hn0 & _ & _ & _ & Hbefore & Hafter & _).
    rewrite zlookup_nat in * by lia. rewrite <- Hx.
    destruct (decide (p < f_pos)); [apply Hbefore|apply Hafter]; lia.
  - rewrite (Hother _ _ qb Hne Hqb). done.
Qed.

(** X10: reading back.  After a write that has transferred [n > 0] bytes at
    [f_pos], a read of [n] bytes at [f_pos] into a buffer that can take
    them returns these [n] bytes, advances the position by [n], and
    changes nothing. *)
Theorem write_then_read (K : kmalloc_oracle) (intr : bool) (dev : scull_dev)
    (buf : list byte) (count f_pos cap : Z) (h : nat) (r : call) :
  wf_dev dev -> is_file_pos f_pos -> is_size_t count ->
  f_pos + count <= LONG_MAX ->
  scull_write K intr dev buf count f_pos h = Some r ->
  0 < retval r -> retval r <= cap ->
  scull_read K false (dev_after r) cap (retval r) f_pos (heap_after r)
  = Some (Call (retval r) (f_pos + retval r) (dev_after r) (heap_after r)
            (take (Z.to_nat (retval r)) buf)).
Proof.
  intros Hwf Hpos Hcount Hmax Hr Hret Hcap.
  destruct (scull_write_outcome K _ _ _ _ _ _ _ Hwf Hpos Hcount Hr)
    as (Hwf' & HQ & HS & _).
  destruct (scull_write_success K _ _ _ _ _ _ _ Hwf Hpos Hcount Hr)
    as (item & q' & Htr & Hn & Hbuf & _ & Hsize & Hq' & Hnew & _); [lia|].
  pose proof Hwf as (Hgeo & _).
  pose proof (intra_range _ _ Hgeo f_pos) as Hin.
  fold (intra_of (dev_quantum dev) (dev_qset dev) f_pos) in Hin.
  set (q_pos := intra_of (dev_quantum dev) (dev_qset dev) f_pos) in *.
  pose proof (wf_chain_quantum _ _ _ _ _ _ (proj2 (proj2 Hwf')) Hq') as Hlen.
  rewrite HQ in Hlen.
  assert (Hmin : Z.min (Z.min (retval r) (dev_size (dev_after r) - f_pos))
                   (dev_quantum dev - q_pos) = retval r) by lia.
  pose proof (scull_read_present K (dev_after r) cap (retval r) f_pos
                (heap_after r) item
                (slot_of (dev_quantum dev) (dev_qset dev) f_pos) q_pos q'
                Hwf' Hpos) as Hread.
  simpl in Hread. rewrite HQ, HS, Hmin in Hread.
  rewrite Hread;
    [|unfold is_file_pos, is_size_t, LONG_MAX, ULONG_MAX in *; lia
     |lia|done|done|lia].
  rewrite to_long_id by (unfold is_file_pos, LONG_MIN in *; lia).
  do 2 f_equal. apply list_eq. intros k.
  destruct (decide (k < Z.to_nat (retval r))%nat) as [Hk|Hk].
  - rewrite !lookup_take_lt by done. rewrite lookup_drop. by apply Hnew.
  - rewrite !lookup_take_ge by lia. done.
Qed.

(** X11: what a write returns.  On a well-formed device it returns
    [-ERESTARTSYS], [-ENOMEM] or [-EFAULT], the position and the size being
    untouched, or else the count cut at the end of the quantum of the
    position: then it has transferred at least one byte when asked for one,
    never more than asked, never across the end of a quantum, and the size
    is the larger of the old size and the new position. *)
Theorem write_progress (K : kmalloc_oracle) (intr : bool) (dev : scull_dev)
    (buf : list byte) (count f_pos : Z) (h : nat) (r : call) :
  wf_dev dev -> is_file_pos f_pos -> is_size_t count ->
  scull_write K intr dev buf count f_pos h = Some r ->
  let q_pos := intra_of (dev_quantum dev) (dev_qset dev) f_pos in
  ((retval r = - ERESTARTSYS \/ retval r = - ENOMEM \/ retval r = - EFAULT)
   /\ pos_after r = f_pos /\ dev_size (dev_after r) = dev_size dev)
  \/ (retval r = Z.min count (dev_quantum dev - q_pos)
      /\ 0 <= retval r <= count
      /\ (1 <= count -> 1 <= retval r)
      /\ q_pos + retval r <= dev_quantum dev
      /\ retval r <= Z.of_nat (length buf)
      /\ pos_after r = to_long (f_pos + retval r)
      /\ dev_size (dev_after r) = Z.max (dev_size dev) (f_pos + retval r)).
Proof.
  intros Hwf Hpos Hcount Hr q_pos.
  pose proof Hwf as (Hgeo & _).
  pose proof (intra_range _ _ Hgeo f_pos) as Hin.
  fold (intra_of (dev_quantum dev) (dev_qset dev) f_pos) in Hin. fold q_pos in Hin.
  destruct (decide (0 <= retval r)) as [Hret|Hneg].
  - right.
    destruct (scull_write_success K _ _ _ _ _ _ _ Hwf Hpos Hcount Hr Hret)
      as (item & q' & _ & Hn & Hbuf & Hpa & Hsize & _).
    fold q_pos in Hn. unfold is_size_t in Hcount.
    repeat (split; [done || lia|]). done.
  - left.
    destruct (scull_write_outcome K _ _ _ _ _ _ _ Hwf Hpos Hcount Hr)
      as (_ & _ & _ & _ & [(Hpa & Hsize & Herr)|Hok]).
    + split; [|done]. destruct Herr as [[? _]|[[? _]|[? _]]]; tauto.
    + destruct Hok as (_ & _ & item & s & q & n & q' & _ & _ & Hq & Hn & _ & Hrv & _).
      unfold is_size_t in Hcount. lia.
Qed.

(** X12: a write returns [-ENOMEM] exactly when one of the allocations it
    made failed; it has then touched neither the position nor the size nor
    any byte the store held. *)
Theorem write_enomem_iff (K : kmalloc_oracle) (intr : bool) (dev : scull_dev)
    (buf : list byte) (count f_pos : Z) (h : nat) (r : call) :
  wf_dev dev -> is_file_pos f_pos -> is_size_t count ->
  scull_write K intr dev buf count f_pos h = Some r ->
  (retval r = - ENOMEM
   <-> exists k, (h <= k < heap_after r)%nat /\ km_null K k = true)
  /\ (retval r = - ENOMEM ->
      pos_after r = f_pos /\ dev_size (dev_after r) = dev_size dev
      /\ forall p b, byte_at dev p = Some b -> byte_at (dev_after r) p = Some b).
Proof.
  intros Hwf Hpos Hcount Hr.
  destruct (scull_write_outcome K _ _ _ _ _ _ _ Hwf Hpos Hcount Hr)
    as (_ & HQ & HS & _ & Hcase).
  assert (Hwhen : retval r = - ENOMEM ->
                  (exists k, (h <= k < heap_after r)%nat /\ km_null K k = true)
                  /\ pos_after r = f_pos /\ dev_size (dev_after r) = dev_size dev).
  { intros Hret. unfold ENOMEM, ERESTARTSYS, EFAULT in *.
    destruct Hcase as [(Hpa & Hsize & Herr)|Hok].
    - destruct Herr as [[? _]|[[_ Hk]|[? _]]]; [lia|done|lia].
    - destruct Hok as (_ & _ & item & s & q & n & q' & _ & _ & Hq & Hn & _ & Hrv & _).
      unfold is_size_t in Hcount. lia. }
  split; [split|].
  - intros Hret. by destruct (Hwhen Hret).
  - intros (k & Hk & Hnull).
    destruct Hcase as [(_ & _ & Herr)|Hok].
    + destruct Herr as [[_ ->]|[[? _]|(_ & _ & Hnone)]]; [|done|].
      * unfold scull_write, write_upto_copy in Hr. simpl in Hr.
        injection Hr as <-. simpl in Hk. lia.
      * by rewrite (Hnone k Hk) in Hnull.
    + destruct Hok as (_ & Hnone & _). by rewrite (Hnone k Hk) in Hnull.
  - intros Hret. destruct (Hwhen Hret) as (_ & Hpa & Hsize).
    repeat (split; [done|]). intros p b. apply byte_at_kept; [done..|].
    apply (scull_write_left K _ _ _ _ _ _ _ Hwf Hpos Hr). by left.
Qed.

(** X13: a quantum is handed out as [kmalloc] returned it.  When a write
    succeeds at a position for which the store held no quantum, the quantum
    is the block of the last allocation made, and the bytes of it before
    the position, which the write did not set, have the contents the block
    came with; they lie below the size, and a read from the start of the
    quantum returns them. *)
Theorem write_reveals_junk (K : kmalloc_oracle) (intr : bool) (dev : scull_dev)
    (buf : list byte) (count f_pos cap : Z) (h : nat) (r : call) (item : Z) :
  wf_dev dev -> is_file_pos f_pos -> is_size_t count ->
  let s_pos := slot_of (dev_quantum dev) (dev_qset dev) f_pos in
  let q_pos := intra_of (dev_quantum dev) (dev_qset dev) f_pos in
  translate f_pos (dev_quantum dev) (dev_qset dev) = Some (item, s_pos, q_pos) ->
  get_quantum (dev_data dev) (node_index item) s_pos = None ->
  scull_write K intr dev buf count f_pos h = Some r ->
  0 <= retval r ->
  (h < heap_after r)%nat
  /\ (forall p, f_pos - q_pos <= p < f_pos ->
        p < dev_size (dev_after r)
        /\ byte_at (dev_after r) p
           = Some (km_junk K (heap_after r - 1)
                     (Z.to_nat (intra_of (dev_quantum dev) (dev_qset dev) p))))
  /\ (0 < q_pos <= cap ->
      scull_read K false (dev_after r) cap q_pos (f_pos - q_pos) (heap_after r)
      = Some (Call q_pos f_pos (dev_after r) (heap_after r)
                (km_junk K (heap_after r - 1) <$> seq 0 (Z.to_nat q_pos)))).
Proof.
  intros Hwf Hpos Hcount s_pos q_pos Htr Hnone Hr Hret.
  destruct (scull_write_outcome K _ _ _ _ _ _ _ Hwf Hpos Hcount Hr)
    as (Hwf' & HQ & HS & _).
  destruct (scull_write_success K _ _ _ _ _ _ _ Hwf Hpos Hcount Hr Hret)
    as (item0 & q0 & Htr0 & Hn & _ & _ & Hsize & _).
  destruct (scull_write_target K _ _ _ _ _ _ _ Hwf Hpos Hcount Hr)
    as (item' & q & q' & missed & Htr' & Hq & Hlen & Hcp & Hq' & _);
    [unfold ENOMEM; lia|unfold ERESTARTSYS; lia|].
  fold s_pos q_pos in Htr', Hq, Hcp, Hq', Hn.
  rewrite Htr in Htr'. injection Htr' as <-. rewrite Hnone in Hq.
  destruct Hq as [Hh ->].
  pose proof Hwf as (Hgeo & _).
  pose proof (intra_range _ _ Hgeo f_pos) as Hin.
  fold (intra_of (dev_quantum dev) (dev_qset dev) f_pos) in Hin. fold q_pos in Hin.
  destruct (copy_from_user_inv _ _ _ _ _ _ Hcp)
    as (_ & _ & _ & _ & _ & Hbefore & _).
  assert (Hjunk : forall k, (k < Z.to_nat q_pos)%nat ->
            q' !! k = Some (km_junk K (heap_after r - 1) k)).
  { intros k Hk. rewrite Hbefore by done. apply fresh_quantum_lookup. lia. }
  split; [done|]. split.
  - intros p Hp. split; [lia|].
    destruct (same_quantum_span _ _ Hgeo f_pos (p - f_pos)) as (_ & _ & Hip);
      [by destruct Hpos|fold q_pos; lia|].
    replace (f_pos + (p - f_pos)) with p in Hip by lia. fold q_pos in Hip.
    replace p with (f_pos + (p - f_pos)) at 1 by lia.
    rewrite (byte_at_span _ _ Hgeo _ _ _ item HQ HS Hpos);
      [|unfold is_file_pos in Hpos; lia|done|fold q_pos; lia].
    fold s_pos q_pos. unfold get_byte. rewrite Hq'. simpl.
    rewrite zlookup_nat by lia. rewrite Hip.
    rewrite Hjunk by lia. done.
  - intros Hq.
    destruct (same_quantum_span _ _ Hgeo f_pos (- q_pos)) as (Hi0 & Hs0 & Hq0);
      [by destruct Hpos|fold q_pos; lia|].
    fold q_pos s_pos in Hs0, Hq0.
    replace (f_pos + - q_pos) with (f_pos - q_pos) in * by lia.
    assert (Hpos0 : is_file_pos (f_pos - q_pos)).
    { unfold is_file_pos in *. split; [|lia].
      destruct Hgeo as (Hq1 & Hs1 & _). unfold q_pos, intra_of.
      assert (0 < dev_quantum dev * dev_qset dev) by nia.
      pose proof (Z.mod_pos_bound f_pos (dev_quantum dev * dev_qset dev)).
      pose proof (Z.mod_le f_pos (dev_quantum dev * dev_qset dev)).
      pose proof (Z.mod_le (f_pos mod (dev_quantum dev * dev_qset dev))
                    (dev_quantum dev)).
      lia. }
    assert (Htr0' : translate (f_pos - q_pos) (dev_quantum dev) (dev_qset dev)
                    = Some (item, s_pos, 0)).
    { rewrite (translate_good _ _ Hgeo _ Hpos0).
      rewrite (translate_good _ _ Hgeo _ Hpos) in Htr. injection Htr as Hitem.
      fold (slot_of (dev_quantum dev) (dev_qset dev) (f_pos - q_pos)).
      fold (intra_of (dev_quantum dev) (dev_qset dev) (f_pos - q_pos)).
      rewrite Hi0, Hitem, Hs0, Hq0. repeat f_equal. lia. }
    pose proof (scull_read_present K (dev_after r) cap q_pos (f_pos - q_pos)
                  (heap_after r) item s_pos 0 q' Hwf' Hpos0) as Hread.
    simpl in Hread. rewrite HQ, HS in Hread.
    assert (Hmin : Z.min (Z.min q_pos (dev_size (dev_after r) - (f_pos - q_pos)))
                     (dev_quantum dev - 0) = q_pos) by lia.
    rewrite Hmin in Hread.
    rewrite Hread;
      [|unfold is_file_pos, LONG_MAX, INT_MAX in *; destruct Hgeo as (? & ? & ?); nia
       |lia|done|done|lia].
    replace (f_pos - q_pos + q_pos) with f_pos by lia.
    rewrite to_long_id by (unfold is_file_pos, LONG_MIN in *; lia).
    do 2 f_equal. apply list_eq. intros k. simpl. rewrite drop_0.
    destruct (decide (k < Z.to_nat q_pos)%nat) as [Hk|Hk].
    + rewrite lookup_take_lt by done. rewrite Hjunk by done.
      rewrite list_lookup_fmap, lookup_seq_lt by done. done.
    + rewrite lookup_take_ge by lia. symmetry.
      apply lookup_ge_None_2. rewrite length_fmap, length_seq. lia.
Qed.

(** ** Every state the operations reach *)

(** X14: the operations never leave the blocks they allocated.  From the
    empty store, every sequence of reads, writes and trims runs to its end,
    whatever allocations fail, and leaves a device whose geometry is the
    one given at load time or, after a trim, the default one, whose slot
    arrays all have [qset] entries and whose quanta all have [quantum]
    bytes; when the writes went to offsets whose node index fits an [int],
    the chain has a node for every offset below the size. *)
Theorem reachable_well_formed (K : kmalloc_oracle)
    (SCULL_QUANTUM SCULL_QSET scull_quantum scull_qset : Z) (ops : list op) :
  good_geometry SCULL_QUANTUM SCULL_QSET ->
  good_geometry scull_quantum scull_qset ->
  Forall op_ok ops ->
  exists st,
    run K SCULL_QUANTUM SCULL_QSET (start scull_quantum scull_qset) ops = Some st
    /\ wf_dev (h_dev st)
    /\ known_geometry SCULL_QUANTUM SCULL_QSET scull_quantum scull_qset (h_dev st)
    /\ (Forall (op_addressable scull_quantum scull_qset) ops ->
        Forall (op_addressable SCULL_QUANTUM SCULL_QSET) ops ->
        dev_size (h_dev st)
        <= Z.of_nat (length (dev_data (h_dev st)))
           * (dev_quantum (h_dev st) * dev_qset (h_dev st))).
Proof.
  intros Hdefault Hinit Hops.
  pose proof (wf_init_dev _ _ Hinit) as Hwf0.
  destruct (run_known K SCULL_QUANTUM SCULL_QSET Hdefault scull_quantum scull_qset
              ops (start scull_quantum scull_qset) Hops Hwf0 eq_refl)
    as (st & Hrun & Hwf & Hknown); [by left|].
  exists st. repeat (split; [done|]). intros Ha0 Ha1.
  destruct (run_reached K SCULL_QUANTUM SCULL_QSET scull_quantum scull_qset
              Hdefault ops (start scull_quantum scull_qset))
    as (st' & Hst' & _ & [Hcov _] & _); try done.
  { split; [done|]. split; [|by left].
    unfold covered, offset_limit. simpl. destruct Hinit as (? & ? & ?).
    unfold INT_MAX. nia. }
  rewrite Hrun in Hst'. by injection Hst' as <-.
Qed.

(** ** What a read returns *)


(** ** scull_open *)

(** X16: opening write-only empties the device.  The open trims it: the
    device is left without a chain, with size 0 and the default geometry,
    the blocks it held are handed to [kfree], and every read that follows
    returns no byte and allocates nothing.  Any other open leaves the
    device as it is. *)
Theorem open_write_only_empties (SCULL_QUANTUM SCULL_QSET : Z) (dev : scull_dev) :
  wf_chain (dev_quantum dev) (dev_qset dev) (dev_data dev) ->
  scull_open SCULL_QUANTUM SCULL_QSET false dev = Some dev
  /\ exists dev',
       scull_open SCULL_QUANTUM SCULL_QSET true dev = Some dev'
       /\ scull_trim SCULL_QUANTUM SCULL_QSET dev
          = Some (blocks (dev_data dev), dev')
       /\ dev_data dev' = [] /\ dev_size dev' = 0
       /\ dev_quantum dev' = SCULL_QUANTUM /\ dev_qset dev' = SCULL_QSET
       /\ forall K intr cap count f_pos h,
            is_file_pos f_pos ->
            exists rv,
              scull_read K intr dev' cap count f_pos h
                = Some (Call rv f_pos dev' h [])
              /\ (rv = 0 \/ rv = - ERESTARTSYS).
Proof.
  intros Hwf. split; [done|].
  exists (scull_init_dev SCULL_QUANTUM SCULL_QSET).
  pose proof (scull_trim_spec SCULL_QUANTUM SCULL_QSET dev Hwf) as Htrim.
  unfold scull_open. rewrite Htrim. simpl. repeat (split; [done|]).
  intros K intr cap count f_pos h Hpos.
  unfold scull_read, read_upto_copy. destruct intr; simpl.
  { eexists. split; [done|]. by right. }
  rewrite to_ulong_id by (by apply is_file_pos_size_t).
  destruct (f_pos >=? 0) eqn:E; [|destruct Hpos; lia].
  simpl. eexists. split; [done|]. by left.
Qed.

(** ** scull_init_module and scull_cleanup_module *)

(** X17: a load that fails leaves nothing behind.  When
    [scull_init_module] returns a value other than 0, the value is
    negative, there is no array of devices and no character device was
    added; either the device numbers were refused, and nothing was
    allocated, or the allocation of the array failed, the value is
    [-ENOMEM], and the device numbers were given back. *)
Theorem load_failure_leaves_nothing (E : kernel) (K : kmalloc_oracle)
    (SCULL_QUANTUM SCULL_QSET : Z) (m : scull_module) (h : nat)
    (result : Z) (m' : scull_module) (h' : nat) (log : list kcall) :
  scull_devices m = None ->
  scull_init_module E K SCULL_QUANTUM SCULL_QSET m h
    = Some (result, m', h', log) ->
  result <> 0 ->
  result < 0 /\ scull_devices m' = None
  /\ exists first,
       (scull_major m <> 0 ->
        first = CallRegister
                  (to_uint (MKDEV E (scull_major m) (scull_minor m)))
                  (to_uint (scull_nr_devs m)))
       /\ (scull_major m = 0 ->
           first = CallAlloc (to_uint (scull_minor m))
                     (to_uint (scull_nr_devs m)))
       /\ ((h' = h /\ log = [first])
           \/ (h' = S h /\ km_null K h = true /\ result = - ENOMEM
               /\ log = [first;
                         CallUnregister
                           (to_uint (MKDEV E (scull_major m') (scull_minor m)))
                           (to_uint (scull_nr_devs m))])).
Proof.
  unfold scull_init_module. intros Hnone H Hne.
  set (count := to_uint (scull_nr_devs m)) in *.
  assert (Hfirst : exists result0 major first,
    (if scull_major m =? 0
     then let '(result, dev) :=
            alloc_chrdev_region E (to_uint (scull_minor m)) count in
          (to_int result, to_int (MAJOR E dev),
           [CallAlloc (to_uint (scull_minor m)) count])
     else (to_int (register_chrdev_region E
                     (to_uint (MKDEV E (scull_major m) (scull_minor m)))
                     count),
           scull_major m,
           [CallRegister
              (to_uint (MKDEV E (scull_major m) (scull_minor m))) count]))
    = (result0, major, [first])
    /\ (scull_major m <> 0 ->
        first = CallRegister
                  (to_uint (MKDEV E (scull_major m) (scull_minor m))) count)
    /\ (scull_major m = 0 ->
        first = CallAlloc (to_uint (scull_minor m)) count)).
  { destruct (scull_major m =? 0) eqn:Hmaj.
    - apply Z.eqb_eq in Hmaj.
      destruct (alloc_chrdev_region E (to_uint (scull_minor m)) count)
        as [res dev].
      eexists _, _, _. split; [done|]. split; [done|done].
    - apply Z.eqb_neq in Hmaj. eexists _, _, _. split; [done|]. done. }
  destruct Hfirst as (result0 & major & first & Hreg & Hstatic & Hdynamic).
  rewrite Hreg in H.
  destruct (result0 <? 0) eqn:Hres.
  { apply Z.ltb_lt in Hres. injection H as <- <- <- <-. simpl.
    split; [done|]. split; [done|]. exists first.
    split; [done|]. split; [done|]. by left. }
  unfold kmalloc in H. destruct (km_null K h) eqn:Hnull.
  - simpl in H. injection H as <- <- <- <-. simpl.
    split; [by vm_compute|]. split; [done|]. exists first.
    split; [done|]. split; [done|]. right. done.
  - simpl in H.
    destruct (scull_nr_devs m <? 0); [done|].
    pose proof (init_loop_spec E (set_major m major)
                  (Z.to_nat (scull_nr_devs m)) []) as Hloop.
    simpl in Hloop. rewrite Hloop in H. simpl in H. by injection H as <-.
Qed.

(** X18: a load that succeeds.  When the device numbers are granted, the
    array of devices is allocated and the number of devices is not
    negative, [scull_init_module] returns 0, whatever [cdev_add] answers:
    it has made one allocation, every device is empty with the geometry
    given at load time, hence well formed when this geometry is good, and
    one character device was added per device, in order, with the minor
    numbers that follow [scull_minor]. *)
Theorem load_succeeds (E : kernel) (K : kmalloc_oracle)
    (SCULL_QUANTUM SCULL_QSET : Z) (m : scull_module) (h : nat) :
  let count := to_uint (scull_nr_devs m) in
  let granted :=
    if scull_major m =? 0
    then to_int (alloc_chrdev_region E (to_uint (scull_minor m)) count).1
    else to_int (register_chrdev_region E
                   (to_uint (MKDEV E (scull_major m) (scull_minor m))) count) in
  0 <= granted -> km_null K h = false -> 0 <= scull_nr_devs m ->
  exists m' first,
    scull_init_module E K SCULL_QUANTUM SCULL_QSET m h
      = Some (0, m', S h,
              first :: ((fun i =>
                           CallCdevAdd i
                             (to_uint (to_int (MKDEV E (scull_major m')
                                (to_int (scull_minor m + Z.of_nat i))))))
                        <$> seq 0 (Z.to_nat (scull_nr_devs m))))
    /\ scull_devices m'
       = Some (replicate (Z.to_nat (scull_nr_devs m))
                 (scull_init_dev (load_quantum m) (load_qset m)))
    /\ (good_geometry (load_quantum m) (load_qset m) ->
        forall devs, scull_devices m' = Some devs -> Forall wf_dev devs).
Proof.
  intros count granted Hgranted Hnull Hnr.
  unfold scull_init_module. fold count.
  assert (Hfirst : exists major first,
    (if scull_major m =? 0
     then let '(result, dev) :=
            alloc_chrdev_region E (to_uint (scull_minor m)) count in
          (to_int result, to_int (MAJOR E dev),
           [CallAlloc (to_uint (scull_minor m)) count])
     else (to_int (register_chrdev_region E
                     (to_uint (MKDEV E (scull_major m) (scull_minor m)))
                     count),
           scull_major m,
           [CallRegister
              (to_uint (MKDEV E (scull_major m) (scull_minor m))) count]))
    = (granted, major, [first])).
  { unfold granted. destruct (scull_major m =? 0).
    - destruct (alloc_chrdev_region E (to_uint (scull_minor m)) count)
        as [res dev].
      by eexists _, _.
    - by eexists _, _. }
  destruct Hfirst as (major & first & ->).
  destruct (granted <? 0) eqn:Hres; [apply Z.ltb_lt in Hres; lia|].
  unfold kmalloc. rewrite Hnull. simpl.
  destruct (scull_nr_devs m <? 0) eqn:Hneg; [apply Z.ltb_lt in Hneg; lia|].
  pose proof (init_loop_spec E (set_major m major)
                (Z.to_nat (scull_nr_devs m)) []) as Hloop.
  simpl in Hloop. rewrite Hloop. simpl.
  assert (Hlog : forall l,
            flat_map (scull_setup_cdev E (set_major m major)) l
            = (fun i => CallCdevAdd i
                          (to_uint (to_int (MKDEV E major
                             (to_int (scull_minor m + Z.of_nat i)))))) <$> l).
  { intros l. induction l as [|i l IH]; csimpl; [done|]. by rewrite IH. }
  rewrite Hlog.
  exists (set_devices (set_major m major)
            (Some (replicate (Z.to_nat (scull_nr_devs m))
                     (scull_init_dev (load_quantum m) (load_qset m))))), first.
  split; [done|].
  simpl. split; [done|]. intros Hgeo devs [= <-].
  apply Forall_replicate. by apply wf_init_dev.
Qed.

(** X19: unloading releases everything.  With as many well-formed devices
    as [scull_nr_devs], [scull_cleanup_module] hands to [kfree] every block
    the devices hold and the array of devices, deletes the character
    device of each device, in order, and gives back the device numbers
    last. *)
Theorem unload_releases_everything (E : kernel) (SCULL_QUANTUM SCULL_QSET : Z)
    (m : scull_module) (devs : list scull_dev) :
  scull_devices m = Some devs ->
  Z.of_nat (length devs) = scull_nr_devs m ->
  Forall (fun dev => wf_chain (dev_quantum dev) (dev_qset dev) (dev_data dev))
         devs ->
  scull_cleanup_module E SCULL_QUANTUM SCULL_QSET m
  = Some (S (blocks_of_devices devs),
          (CallCdevDel <$> seq 0 (length devs))
          ++ [CallKfreeDevices;
              CallUnregister (to_uint (MKDEV E (scull_major m) (scull_minor m)))
                (to_uint (scull_nr_devs m))]).
Proof.
  intros Hdevs Hlen Hwf. unfold scull_cleanup_module. rewrite Hdevs.
  replace (Z.to_nat (scull_nr_devs m)) with (length devs) by lia.
  pose proof (cleanup_loop_spec SCULL_QUANTUM SCULL_QSET devs [] Hwf) as Hloop.
  simpl in Hloop. rewrite Hloop. done.
Qed.

(** X20: the module leaks no memory.  After a load that returned 0, any
    sequence of reads, writes and write-only opens on the devices of the
    module, whatever allocations fail, and the unloading of the module, the
    blocks handed to [kfree] are exactly the blocks [kmalloc] returned. *)
Theorem module_leaks_nothing (E : kernel) (K : kmalloc_oracle)
    (SCULL_QUANTUM SCULL_QSET : Z) (m : scull_module) (h : nat)
    (m1 : scull_module) (h1 : nat) (log1 : list kcall)
    (calls : list (nat * op)) :
  good_geometry SCULL_QUANTUM SCULL_QSET ->
  good_geometry (load_quantum m) (load_qset m) ->
  scull_init_module E K SCULL_QUANTUM SCULL_QSET m h = Some (0, m1, h1, log1) ->
  Forall (fun c => Z.of_nat c.1 < scull_nr_devs m /\ op_ok c.2) calls ->
  exists devs1 devs2 h2 freed_calls freed_unload log2,
    scull_devices m1 = Some devs1
    /\ dev_run K SCULL_QUANTUM SCULL_QSET devs1 h1 calls
       = Some (devs2, h2, freed_calls)
    /\ scull_cleanup_module E SCULL_QUANTUM SCULL_QSET
         (set_devices m1 (Some devs2)) = Some (freed_unload, log2)
    /\ (freed_calls + freed_unload = successes K h h2)%nat.
Proof.
  intros Hdefault Hload Hinit Hcalls.
  destruct (scull_init_module_zero E K SCULL_QUANTUM SCULL_QSET m h m1 h1 log1
              Hinit)
    as (Hnull & -> & Hnr & first & _ & _ & _ & _ & Hnr1 & Hdevs).
  set (devs1 := replicate (Z.to_nat (scull_nr_devs m))
                  (scull_init_dev (load_quantum m) (load_qset m))) in *.
  assert (Hwf1 : Forall wf_dev devs1).
  { apply Forall_replicate. by apply wf_init_dev. }
  assert (Hlen1 : length devs1 = Z.to_nat (scull_nr_devs m))
    by apply length_replicate.
  destruct (dev_run_balance K SCULL_QUANTUM SCULL_QSET Hdefault calls devs1 (S h)
              Hwf1)
    as (devs2 & h2 & freed & Hrun & Hwf2 & Hlen2 & Hh2 & Hb).
  { eapply Forall_impl; [exact Hcalls|]. intros [i o] [Hi Ho]. simpl in *.
    split; [lia|done]. }
  exists devs1, devs2, h2, freed, (S (blocks_of_devices devs2)).
  eexists. split; [done|]. split; [done|]. split.
  { unfold scull_cleanup_module. simpl. rewrite Hnr1.
    replace (Z.to_nat (scull_nr_devs m)) with (length devs2) by lia.
    pose proof (cleanup_loop_spec SCULL_QUANTUM SCULL_QSET devs2 []) as Hloop.
    simpl in Hloop. rewrite Hloop; [done|].
    eapply Forall_impl; [exact Hwf2|]. by intros dev (_ & _ & ?). }
  unfold devs1 in Hb. rewrite blocks_of_devices_empty in Hb.
  rewrite (successes_split K h (S h) h2) by lia.
  rewrite (successes_succ_ok K h h) by done. rewrite successes_none. lia.
Qed.

(** ** Node indices beyond [int] *)

(** X21: the node a position reaches is its node index modulo [2^32],
    since [item] is an [int] and [scull_follow] counts it down as an
    unsigned number: two positions [2^32] nodes apart address the same
    byte of the store. *)
Theorem node_index_wraps (Q S p : Z) :
  good_geometry Q S -> is_file_pos p ->
  (exists item,
     translate p Q S = Some (item, slot_of Q S p, intra_of Q S p)
     /\ Z.of_nat (node_index item) = (p / (Q * S)) mod 2 ^ 32)
  /\ (is_file_pos (p + 2 ^ 32 * (Q * S)) ->
      translate (p + 2 ^ 32 * (Q * S)) Q S = translate p Q S
      /\ forall dev, dev_quantum dev = Q -> dev_qset dev = S ->
           byte_at dev (p + 2 ^ 32 * (Q * S)) = byte_at dev p).
Proof.
  intros Hgeo Hpos. pose proof (translate_good _ _ Hgeo _ Hpos) as Htr.
  split.
  - eexists. split; [exact Htr|].
    unfold node_index. rewrite to_uint_to_int. unfold to_uint.
    apply Z2Nat.id. apply Z.mod_pos_bound. lia.
  - intros Hfar.
    assert (Hsame : translate (p + 2 ^ 32 * (Q * S)) Q S = translate p Q S).
    { rewrite (translate_good _ _ Hgeo _ Hfar), Htr.
      destruct Hgeo as (HQ & HS & _). assert (HQS : Q * S <> 0) by nia.
      replace (p + 2 ^ 32 * (Q * S)) with (p + 2 ^ 32 * (Q * S)) by lia.
      rewrite Z_div_plus_full by done. rewrite Z_mod_plus_full.
      by rewrite to_int_wraps. }
    split; [done|]. intros dev <- <-. unfold byte_at. by rewrite Hsame.
Qed.

(** * Instances of the further properties *)

Lemma wf_holed : wf_dev holed.
Proof. split; [by vm_compute|]. split; [by vm_compute|]. repeat constructor. Qed.

Lemma follow_present_witness :
  (node_index 0 < length (dev_data holed))%nat
  /\ scull_follow kmalloc_ok holed 0 7 = (Some (node_index 0), dev_data holed, 7%nat).
Proof.
  assert (H : (node_index 0 < length (dev_data holed))%nat) by (vm_compute; lia).
  split; [done|]. by apply (follow_present kmalloc_ok holed 0 7).
Defined.

Lemma follow_success_appends_witness :
  scull_follow kmalloc_ok holed 2 0
    = (Some 2%nat, dev_data holed ++ [blank_qset; blank_qset], 2%nat)
  /\ 2%nat = node_index 2
  /\ dev_data holed ++ [blank_qset; blank_qset]
     = dev_data holed
       ++ replicate (node_index 2 + 1 - length (dev_data holed)) blank_qset
  /\ 2%nat = (0 + (node_index 2 + 1 - length (dev_data holed)))%nat
  /\ (dev_data holed ++ [blank_qset; blank_qset]) !! 2%nat
     = Some (default blank_qset (dev_data holed !! 2%nat)).
Proof.
  assert (H : scull_follow kmalloc_ok holed 2 0
              = (Some 2%nat, dev_data holed ++ [blank_qset; blank_qset], 2%nat))
    by (by vm_compute).
  split; [done|]. exact (follow_success_appends kmalloc_ok holed 2 0 _ _ _ H).
Defined.

Lemma follow_failure_keeps_nodes_witness :
  scull_follow (kmalloc_until 1) holed 3 0
    = (None, dev_data holed ++ [blank_qset], 2%nat)
  /\ exists m : nat,
       dev_data holed ++ [blank_qset] = dev_data holed ++ replicate m blank_qset
       /\ 2%nat = (0 + m + 1)%nat
       /\ km_null (kmalloc_until 1) (0 + m)%nat = true
       /\ (forall k, (0 <= k < 0 + m)%nat -> km_null (kmalloc_until 1) k = false)
       /\ (length (dev_data holed ++ [blank_qset]) <= node_index 3)%nat
       /\ blocks (dev_data holed ++ [blank_qset])
          = (blocks (dev_data holed) + m)%nat.
Proof.
  assert (H : scull_follow (kmalloc_until 1) holed 3 0
              = (None, dev_data holed ++ [blank_qset], 2%nat)) by (by vm_compute).
  split; [done|]. exact (follow_failure_keeps_nodes (kmalloc_until 1) holed 3 0 _ _ H).
Defined.

Lemma blocks_balance_witness :
  (good_geometry 4000 1000 /\ good_geometry 4 2
   /\ Forall op_ok [OpWrite false alphabet 10 0; OpRead false 4 4 0; OpTrim;
                    OpWrite false ["A"%byte] 1 5])
  /\ exists st' freed,
       run (kmalloc_until 6) 4000 1000 (start 4 2)
           [OpWrite false alphabet 10 0; OpRead false 4 4 0; OpTrim;
            OpWrite false ["A"%byte] 1 5] = Some st'
       /\ freed_by (kmalloc_until 6) 4000 1000 (start 4 2)
            [OpWrite false alphabet 10 0; OpRead false 4 4 0; OpTrim;
             OpWrite false ["A"%byte] 1 5] = Some freed
       /\ (blocks (dev_data (h_dev st')) + freed
           = successes (kmalloc_until 6) 0 (h_heap st'))%nat.
Proof.
  assert (Hdefault : good_geometry 4000 1000) by (by vm_compute).
  assert (Hinit : good_geometry 4 2) by (by vm_compute).
  assert (Hops : Forall op_ok [OpWrite false alphabet 10 0; OpRead false 4 4 0;
                               OpTrim; OpWrite false ["A"%byte] 1 5]).
  { repeat constructor; by vm_compute. }
  split; [exact (conj Hdefault (conj Hinit Hops))|].
  exact (blocks_balance (kmalloc_until 6) 4000 1000 4 2 _ Hdefault Hinit Hops).
Defined.

Lemma read_stores_nothing_witness :
  scull_read kmalloc_ok false unbacked 1 1 0 0
    = Some (Call 0 0 (set_chain unbacked [blank_qset]) 1 [])
  /\ dev_size (set_chain unbacked [blank_qset]) = dev_size unbacked
  /\ dev_quantum (set_chain unbacked [blank_qset]) = dev_quantum unbacked
  /\ dev_qset (set_chain unbacked [blank_qset]) = dev_qset unbacked
  /\ forall p, byte_at (set_chain unbacked [blank_qset]) p = byte_at unbacked p.
Proof.
  assert (H : scull_read kmalloc_ok false unbacked 1 1 0 0
              = Some (Call 0 0 (set_chain unbacked [blank_qset]) 1 []))
    by (by vm_compute).
  split; [done|].
  exact (read_stores_nothing kmalloc_ok false unbacked 1 1 0 0 _ H).
Defined.

Lemma read_returns_stored_witness :
  (wf_dev holed /\ is_file_pos 5 /\ 0 <= 4 /\ 5 + 4 <= LONG_MAX
   /\ scull_read kmalloc_ok false holed 4 4 5 0
      = Some (Call 1 6 holed 0 ["A"%byte])
   /\ 0 < retval (Call 1 6 holed 0 ["A"%byte]))
  /\ retval (Call 1 6 holed 0 ["A"%byte]) <= 4
  /\ 5 + retval (Call 1 6 holed 0 ["A"%byte]) <= dev_size holed
  /\ intra_of (dev_quantum holed) (dev_qset holed) 5
     + retval (Call 1 6 holed 0 ["A"%byte]) <= dev_quantum holed
  /\ pos_after (Call 1 6 holed 0 ["A"%byte])
     = 5 + retval (Call 1 6 holed 0 ["A"%byte])
  /\ Z.of_nat (length (out (Call 1 6 holed 0 ["A"%byte])))
     = retval (Call 1 6 holed 0 ["A"%byte])
  /\ forall k, 0 <= k < retval (Call 1 6 holed 0 ["A"%byte]) ->
       is_Some (byte_at holed (5 + k))
       /\ out (Call 1 6 holed 0 ["A"%byte]) !! Z.to_nat k = byte_at holed (5 + k).
Proof.
  assert (Hr : scull_read kmalloc_ok false holed 4 4 5 0
               = Some (Call 1 6 holed 0 ["A"%byte])) by (by vm_compute).
  assert (Hpos : is_file_pos 5) by (unfold is_file_pos, LONG_MAX; lia).
  assert (Hmax : 5 + 4 <= LONG_MAX) by (unfold LONG_MAX; lia).
  assert (Hc : 0 <= 4) by lia.
  assert (Hret : 0 < retval (Call 1 6 holed 0 ["A"%byte])) by (simpl; lia).
  split; [exact (conj wf_holed (conj Hpos (conj Hc (conj Hmax (conj Hr Hret)))))|].
  exact (read_returns_stored kmalloc_ok false holed 4 4 5 0 _ wf_holed Hpos
           Hc Hmax Hr Hret).
Defined.

Lemma write_stores_bytes_witness :
  (wf_dev holed /\ is_file_pos 1 /\ is_size_t 2 /\ 1 + 2 <= LONG_MAX)
  /\ exists r,
       scull_write kmalloc_ok false holed ["B"; "C"]%byte 2 1 0 = Some r
       /\ 0 <= retval r
       /\ forall k, 0 <= k < retval r ->
            is_Some (["B"; "C"]%byte !! Z.to_nat k)
            /\ byte_at (dev_after r) (1 + k) = ["B"; "C"]%byte !! Z.to_nat k.
Proof.
  assert (Hpos : is_file_pos 1) by (unfold is_file_pos, LONG_MAX; lia).
  assert (Hcount : is_size_t 2) by (unfold is_size_t, ULONG_MAX; lia).
  assert (Hmax : 1 + 2 <= LONG_MAX) by (unfold LONG_MAX; lia).
  split; [exact (conj wf_holed (conj Hpos (conj Hcount Hmax)))|].
  eexists. split; [by vm_compute|]. split; [by vm_compute|].
  apply (write_stores_bytes kmalloc_ok false holed ["B"; "C"]%byte 2 1 0 _
           wf_holed Hpos Hcount Hmax); by vm_compute.
Defined.

Lemma write_keeps_other_bytes_witness :
  (wf_dev holed /\ is_file_pos 1 /\ is_size_t 2
   /\ 1 < offset_limit (dev_quantum holed) (dev_qset holed))
  /\ exists r,
       scull_write kmalloc_ok false holed ["B"; "C"]%byte 2 1 0 = Some r
       /\ forall p b,
            0 <= p < offset_limit (dev_quantum holed) (dev_qset holed) ->
            ~ (1 <= p < 1 + Z.min 2 (dev_quantum holed
                                     - intra_of (dev_quantum holed)
                                         (dev_qset holed) 1)) ->
            byte_at holed p = Some b -> byte_at (dev_after r) p = Some b.
Proof.
  assert (Hpos : is_file_pos 1) by (unfold is_file_pos, LONG_MAX; lia).
  assert (Hcount : is_size_t 2) by (unfold is_size_t, ULONG_MAX; lia).
  assert (Hlim : 1 < offset_limit (dev_quantum holed) (dev_qset holed))
    by (by vm_compute).
  split; [exact (conj wf_holed (conj Hpos (conj Hcount Hlim)))|].
  eexists. split; [by vm_compute|].
  apply (write_keeps_other_bytes kmalloc_ok false holed ["B"; "C"]%byte 2 1 0 _
           wf_holed Hpos Hcount Hlim). by vm_compute.
Defined.

Lemma write_then_read_witness :
  (wf_dev holed /\ is_file_pos 1 /\ is_size_t 2 /\ 1 + 2 <= LONG_MAX)
  /\ exists r,
       scull_write kmalloc_ok false holed ["B"; "C"]%byte 2 1 0 = Some r
       /\ 0 < retval r /\ retval r <= 8
       /\ scull_read kmalloc_ok false (dev_after r) 8 (retval r) 1 (heap_after r)
          = Some (Call (retval r) (1 + retval r) (dev_after r) (heap_after r)
                    (take (Z.to_nat (retval r)) ["B"; "C"]%byte)).
Proof.
  assert (Hpos : is_file_pos 1) by (unfold is_file_pos, LONG_MAX; lia).
  assert (Hcount : is_size_t 2) by (unfold is_size_t, ULONG_MAX; lia).
  assert (Hmax : 1 + 2 <= LONG_MAX) by (unfold LONG_MAX; lia).
  split; [exact (conj wf_holed (conj Hpos (conj Hcount Hmax)))|].
  eexists. split; [by vm_compute|]. split; [by vm_compute|].
  split; [by vm_compute|].
  apply (write_then_read kmalloc_ok false holed ["B"; "C"]%byte 2 1 8 0 _
           wf_holed Hpos Hcount Hmax); by vm_compute.
Defined.

Lemma write_progress_witness :
  (wf_dev holed /\ is_file_pos 1 /\ is_size_t 9)
  /\ exists r,
       scull_write kmalloc_ok false holed alphabet 9 1 0 = Some r
       /\ retval r = 3 /\ pos_after r = 4 /\ dev_size (dev_after r) = 6.
Proof.
  assert (Hpos : is_file_pos 1) by (unfold is_file_pos, LONG_MAX; lia).
  assert (Hcount : is_size_t 9) by (unfold is_size_t, ULONG_MAX; lia).
  split; [exact (conj wf_holed (conj Hpos Hcount))|].
  assert (Hr : scull_write kmalloc_ok false holed alphabet 9 1 0
               = Some (Call 3 4
                         {| dev_data :=
                              [ {| qs_data :=
                                     Some [Some [x00; "A"; "B"; "C"]%byte;
                                           Some [x00; "A"; x00; x00]%byte] |} ];
                            dev_quantum := 4; dev_qset := 2; dev_size := 6 |}
                         1 [])) by (by vm_compute).
  eexists. split; [exact Hr|].
  destruct (write_progress kmalloc_ok false holed alphabet 9 1 0 _
              wf_holed Hpos Hcount Hr)
    as [([He|[He|He]] & _)|(Hn & _ & _ & _ & _ & Hpa & Hsz)];
    [by vm_compute in He..|].
  split; [done|]. split; [exact Hpa|exact Hsz].
Defined.

Lemma write_enomem_iff_witness :
  (wf_dev holed /\ is_file_pos 1 /\ is_size_t 2)
  /\ exists r,
       scull_write (kmalloc_until 0) false holed ["B"; "C"]%byte 2 1 0 = Some r
       /\ (retval r = - ENOMEM
           <-> exists k, (0 <= k < heap_after r)%nat
                         /\ km_null (kmalloc_until 0) k = true)
       /\ (retval r = - ENOMEM ->
           pos_after r = 1 /\ dev_size (dev_after r) = dev_size holed
           /\ forall p b, byte_at holed p = Some b ->
                          byte_at (dev_after r) p = Some b).
Proof.
  assert (Hpos : is_file_pos 1) by (unfold is_file_pos, LONG_MAX; lia).
  assert (Hcount : is_size_t 2) by (unfold is_size_t, ULONG_MAX; lia).
  split; [exact (conj wf_holed (conj Hpos Hcount))|].
  eexists. split; [by vm_compute|].
  apply (write_enomem_iff (kmalloc_until 0) false holed ["B"; "C"]%byte 2 1 0 _
           wf_holed Hpos Hcount). by vm_compute.
Defined.

Lemma write_reveals_junk_witness :
  (wf_dev holed /\ is_file_pos 1 /\ is_size_t 1
   /\ translate 1 (dev_quantum holed) (dev_qset holed)
      = Some (0, slot_of (dev_quantum holed) (dev_qset holed) 1,
              intra_of (dev_quantum holed) (dev_qset holed) 1)
   /\ get_quantum (dev_data holed) (node_index 0)
        (slot_of (dev_quantum holed) (dev_qset holed) 1) = None)
  /\ exists r,
       scull_write kmalloc_dirty false holed ["B"]%byte 1 1 0 = Some r
       /\ 0 <= retval r
       /\ byte_at (dev_after r) 0 = Some "?"%byte
       /\ scull_read kmalloc_dirty false (dev_after r) 8 1 0 (heap_after r)
          = Some (Call 1 1 (dev_after r) (heap_after r) ["?"%byte]).
Proof.
  assert (Hpos : is_file_pos 1) by (unfold is_file_pos, LONG_MAX; lia).
  assert (Hcount : is_size_t 1) by (unfold is_size_t, ULONG_MAX; lia).
  assert (Htr : translate 1 (dev_quantum holed) (dev_qset holed)
                = Some (0, slot_of (dev_quantum holed) (dev_qset holed) 1,
                        intra_of (dev_quantum holed) (dev_qset holed) 1))
    by (vm_compute; reflexivity).
  assert (Hnone : get_quantum (dev_data holed) (node_index 0)
                    (slot_of (dev_quantum holed) (dev_qset holed) 1) = None)
    by (vm_compute; reflexivity).
  split; [exact (conj wf_holed (conj Hpos (conj Hcount (conj Htr Hnone))))|].
  set (r := Call 1 2
              {| dev_data :=
                   [ {| qs_data :=
                          Some [Some ["?"; "B"; "?"; "?"]%byte;
                                Some [x00; "A"; x00; x00]%byte] |} ];
                 dev_quantum := 4; dev_qset := 2; dev_size := 6 |}
              1 []).
  assert (Hr : scull_write kmalloc_dirty false holed ["B"]%byte 1 1 0 = Some r)
    by (vm_compute; reflexivity).
  assert (Hret : 0 <= retval r) by (simpl; lia).
  exists r. split; [exact Hr|]. split; [exact Hret|].
  destruct (write_reveals_junk kmalloc_dirty false holed ["B"]%byte 1 1 8 0 r 0
              wf_holed Hpos Hcount Htr Hnone Hr Hret)
    as (_ & Hbytes & Hread).
  assert (Hq : intra_of (dev_quantum holed) (dev_qset holed) 1 = 1)
    by (vm_compute; reflexivity).
  rewrite Hq in Hbytes, Hread.
  split.
  - rewrite (proj2 (Hbytes 0 ltac:(lia))). vm_compute. reflexivity.
  - pose proof (Hread ltac:(lia)) as Hrd. change (1 - 1) with 0 in Hrd.
    rewrite Hrd. vm_compute. reflexivity.
Defined.

Lemma reachable_well_formed_witness :
  (good_geometry 4000 1000 /\ good_geometry 4 2
   /\ Forall op_ok [OpWrite false alphabet 10 0; OpRead false 4 4 0; OpTrim;
                    OpWrite false ["A"%byte] 1 5])
  /\ exists st,
       run (kmalloc_until 6) 4000 1000 (start 4 2)
           [OpWrite false alphabet 10 0; OpRead false 4 4 0; OpTrim;
            OpWrite false ["A"%byte] 1 5] = Some st
       /\ wf_dev (h_dev st)
       /\ known_geometry 4000 1000 4 2 (h_dev st).
Proof.
  assert (Hdefault : good_geometry 4000 1000) by (by vm_compute).
  assert (Hinit : good_geometry 4 2) by (by vm_compute).
  assert (Hops : Forall op_ok [OpWrite false alphabet 10 0; OpRead false 4 4 0;
                               OpTrim; OpWrite false ["A"%byte] 1 5]).
  { repeat constructor; by vm_compute. }
  split; [exact (conj Hdefault (conj Hinit Hops))|].
  destruct (reachable_well_formed (kmalloc_until 6) 4000 1000 4 2 _
              Hdefault Hinit Hops) as (st & Hrun & Hwf & Hknown & _).
  exists st. exact (conj Hrun (conj Hwf Hknown)).
Defined.


Lemma open_write_only_empties_witness :
  wf_chain (dev_quantum holed) (dev_qset holed) (dev_data holed)
  /\ scull_open 4000 1000 false holed = Some holed
  /\ exists dev',
       scull_open 4000 1000 true holed = Some dev'
       /\ scull_trim 4000 1000 holed = Some (blocks (dev_data holed), dev')
       /\ dev_data dev' = [] /\ dev_size dev' = 0
       /\ dev_quantum dev' = 4000 /\ dev_qset dev' = 1000
       /\ forall K intr cap count f_pos h,
            is_file_pos f_pos ->
            exists rv,
              scull_read K intr dev' cap count f_pos h
                = Some (Call rv f_pos dev' h [])
              /\ (rv = 0 \/ rv = - ERESTARTSYS).
Proof.
  assert (Hwf : wf_chain (dev_quantum holed) (dev_qset holed) (dev_data holed)).
  { repeat constructor. }
  split; [exact Hwf|]. exact (open_write_only_empties 4000 1000 holed Hwf).
Defined.

Lemma load_failure_leaves_nothing_witness :
  scull_devices unloaded = None
  /\ scull_init_module kernel_ok (kmalloc_until 0) 4000 1000 unloaded 0
     = Some (- ENOMEM, set_devices (set_major unloaded 250) None, 1%nat,
             [CallAlloc 0 4; CallUnregister 262144000 4])
  /\ - ENOMEM < 0
  /\ scull_devices (set_devices (set_major unloaded 250) None) = None.
Proof.
  assert (Hinit : scull_init_module kernel_ok (kmalloc_until 0) 4000 1000
                    unloaded 0
                  = Some (- ENOMEM, set_devices (set_major unloaded 250) None,
                          1%nat, [CallAlloc 0 4; CallUnregister 262144000 4]))
    by (vm_compute; reflexivity).
  assert (Hne : - ENOMEM <> 0) by (unfold ENOMEM; lia).
  destruct (load_failure_leaves_nothing kernel_ok (kmalloc_until 0) 4000 1000
              unloaded 0 _ _ _ _ eq_refl Hinit Hne)
    as (Hneg & Hnone & _).
  split; [reflexivity|]. split; [exact Hinit|]. split; [exact Hneg|exact Hnone].
Defined.

Lemma load_succeeds_witness :
  (0 <= to_int (alloc_chrdev_region kernel_ok (to_uint 0) (to_uint 4)).1
   /\ km_null kmalloc_ok 0 = false /\ 0 <= scull_nr_devs unloaded)
  /\ exists m' first,
       scull_init_module kernel_ok kmalloc_ok 4000 1000 unloaded 0
         = Some (0, m', 1%nat,
                 first :: ((fun i =>
                              CallCdevAdd i
                                (to_uint (to_int (MKDEV kernel_ok (scull_major m')
                                   (to_int (scull_minor unloaded + Z.of_nat i))))))
                           <$> seq 0 (Z.to_nat (scull_nr_devs unloaded))))
       /\ scull_devices m'
          = Some (replicate (Z.to_nat (scull_nr_devs unloaded))
                    (scull_init_dev (load_quantum unloaded) (load_qset unloaded)))
       /\ (good_geometry (load_quantum unloaded) (load_qset unloaded) ->
           forall devs, scull_devices m' = Some devs -> Forall wf_dev devs).
Proof.
  assert (Hgranted :
            0 <= to_int (alloc_chrdev_region kernel_ok (to_uint 0) (to_uint 4)).1)
    by (vm_compute; discriminate).
  assert (Hnull : km_null kmalloc_ok 0 = false) by reflexivity.
  assert (Hnr : 0 <= scull_nr_devs unloaded) by (simpl; lia).
  split; [exact (conj Hgranted (conj Hnull Hnr))|].
  exact (load_succeeds kernel_ok kmalloc_ok 4000 1000 unloaded 0
           Hgranted Hnull Hnr).
Defined.

Lemma unload_releases_everything_witness :
  (scull_devices (set_devices unloaded (Some [holed; unbacked; holed; holed]))
   = Some [holed; unbacked; holed; holed]
   /\ Z.of_nat (length [holed; unbacked; holed; holed]) = scull_nr_devs unloaded)
  /\ scull_cleanup_module kernel_ok 4000 1000
       (set_devices unloaded (Some [holed; unbacked; holed; holed]))
     = Some (10%nat,
             [CallCdevDel 0; CallCdevDel 1; CallCdevDel 2; CallCdevDel 3;
              CallKfreeDevices; CallUnregister 0 4]).
Proof.
  assert (Hwf : Forall (fun dev => wf_chain (dev_quantum dev) (dev_qset dev)
                                     (dev_data dev))
                  [holed; unbacked; holed; holed]).
  { repeat constructor. }
  split; [split; reflexivity|].
  rewrite (unload_releases_everything kernel_ok 4000 1000
             (set_devices unloaded (Some [holed; unbacked; holed; holed]))
             [holed; unbacked; holed; holed] eq_refl eq_refl Hwf).
  vm_compute. reflexivity.
Defined.

Lemma module_leaks_nothing_witness :
  (good_geometry 4000 1000
   /\ good_geometry (load_quantum unloaded) (load_qset unloaded))
  /\ exists m1 log1 devs1 devs2 h2 freed_calls freed_unload log2,
       scull_init_module kernel_ok (kmalloc_until 7) 4000 1000 unloaded 0
         = Some (0, m1, 1%nat, log1)
       /\ scull_devices m1 = Some devs1
       /\ dev_run (kmalloc_until 7) 4000 1000 devs1 1
            [(0%nat, OpWrite false alphabet 10 0);
             (2%nat, OpWrite false alphabet 10 3);
             (0%nat, OpRead false 4 4 0); (0%nat, OpTrim);
             (3%nat, OpWrite false alphabet 10 40)]
          = Some (devs2, h2, freed_calls)
       /\ scull_cleanup_module kernel_ok 4000 1000 (set_devices m1 (Some devs2))
          = Some (freed_unload, log2)
       /\ (freed_calls + freed_unload
           = successes (kmalloc_until 7) 0 h2)%nat.
Proof.
  assert (Hdefault : good_geometry 4000 1000)
    by (unfold good_geometry, INT_MAX; lia).
  assert (Hload : good_geometry (load_quantum unloaded) (load_qset unloaded))
    by (unfold good_geometry, INT_MAX; simpl; lia).
  split; [exact (conj Hdefault Hload)|].
  assert (Hcalls : Forall (fun c => Z.of_nat c.1 < scull_nr_devs unloaded
                                    /\ op_ok c.2)
                     [(0%nat, OpWrite false alphabet 10 0);
                      (2%nat, OpWrite false alphabet 10 3);
                      (0%nat, OpRead false 4 4 0); (0%nat, OpTrim);
                      (3%nat, OpWrite false alphabet 10 40)]).
  { repeat constructor; simpl;
      unfold is_size_t, is_file_pos, ULONG_MAX, LONG_MAX; lia. }
  set (m1 := set_devices (set_major unloaded 250)
               (Some (replicate 4 (scull_init_dev 4 2)))).
  set (log1 := [CallAlloc 0 4; CallCdevAdd 0 262144000;
                CallCdevAdd 1 262144001; CallCdevAdd 2 262144002;
                CallCdevAdd 3 262144003]).
  assert (Hinit : scull_init_module kernel_ok (kmalloc_until 7) 4000 1000
                    unloaded 0 = Some (0, m1, 1%nat, log1))
    by (vm_compute; reflexivity).
  destruct (module_leaks_nothing kernel_ok (kmalloc_until 7) 4000 1000 unloaded
              0 m1 1 log1 _ Hdefault Hload Hinit Hcalls)
    as (devs1 & devs2 & h2 & f1 & f2 & log2 & H1 & H2 & H3 & H4).
  exists m1, log1, devs1, devs2, h2, f1, f2, log2.
  exact (conj Hinit (conj H1 (conj H2 (conj H3 H4)))).
Defined.

Lemma node_index_wraps_witness :
  (good_geometry 1 1 /\ is_file_pos 0 /\ is_file_pos (0 + 2 ^ 32 * (1 * 1)))
  /\ translate (0 + 2 ^ 32 * (1 * 1)) 1 1 = translate 0 1 1.
Proof.
  assert (Hgeo : good_geometry 1 1) by (unfold good_geometry, INT_MAX; lia).
  assert (Hpos : is_file_pos 0) by (unfold is_file_pos, LONG_MAX; lia).
  assert (Hfar : is_file_pos (0 + 2 ^ 32 * (1 * 1)))
    by (unfold is_file_pos, LONG_MAX; lia).
  split; [exact (conj Hgeo (conj Hpos Hfar))|].
  exact (proj1 (proj2 (node_index_wraps 1 1 0 Hgeo Hpos) Hfar)).
Defined.
